(** * compare_assets.py: a shallow embedding and its checked properties

    The script walks two directory trees, hashes the files that both
    contain, classifies every relative path and renders a report as text
    or JSON.  The embedding follows [scripts/compare_assets.py] function
    by function:

    - Python [str] is a list of code points, a [pathlib] path a list of
      segments, and [sorted] on paths is the lexicographic order of the
      segment lists (what [PurePath.__lt__] compares);
    - the file system is a finite map from absolute paths to contents;
    - [hashlib.sha256] and [float.__repr__] are library code and enter as
      type-class parameters ([Hasher], [FloatRepr]); the loop by which
      [hash_file] feeds a file to the hasher is [hash_file_chunked], over
      a hasher object with [update] ([StreamHasher]);
    - Python floats are IEEE binary64 values ([spec_float] at precision 53);
    - effects (file reads, [print], [write_text], [SystemExit]) are
      recorded by a small writer/exception monad [run];
    - [hash_file], [compare_assets] and [main] describe the runs in which
      every file can be read and the report can be delivered; the module
      [IO] holds the same functions with the operations that can fail (a
      file that cannot be read, a report that cannot be encoded or
      written), and a run of [IO.main] that completes is the run of
      [main]. *)

From Stdlib Require Import ZArith NArith Ascii String Strings.Byte.
From Stdlib Require Import SpecFloat FunInd Recdef.
From stdpp Require Import base decidable option list sorting gmap sets.

Set Warnings "-register-all".
Local Open Scope Z_scope.

(** ** Python strings *)

(** A [str] is a sequence of Unicode code points. *)
Definition str : Type := list N.

(** [lit s] is the Python literal spelled by the ASCII string [s]. *)
Definition lit (s : string) : str :=
  (fun a => N.of_nat (nat_of_ascii a)) <$> list_ascii_of_string s.

(** Python compares sequences element by element; the first difference
    decides, and a proper prefix is smaller. *)
Fixpoint lex_compare {A} (cmp : A -> A -> comparison) (xs ys : list A)
  : comparison :=
  match xs, ys with
  | [], [] => Eq
  | [], _ :: _ => Lt
  | _ :: _, [] => Gt
  | x :: xs', y :: ys' =>
      match cmp x y with
      | Eq => lex_compare cmp xs' ys'
      | c => c
      end
  end.

(** [str.__lt__]: by code point. *)
Definition str_compare : str -> str -> comparison := lex_compare N.compare.

(** [sep.join(items)] *)
Fixpoint join (sep : str) (items : list str) : str :=
  match items with
  | [] => []
  | [x] => x
  | x :: rest => x ++ sep ++ join sep rest
  end.

(** [str.ljust(width)]: pad with spaces on the right up to [width]. *)
Definition ljust (width : nat) (s : str) : str :=
  s ++ replicate (width - length s) 32%N.

(** [str.upper] and [str.lower] on the ASCII letters (the script only
    applies them to the four status names). *)
Definition upper_char (c : N) : N :=
  if ((97 <=? c) && (c <=? 122))%N then (c - 32)%N else c.
Definition lower_char (c : N) : N :=
  if ((65 <=? c) && (c <=? 90))%N then (c + 32)%N else c.
Definition is_alpha (c : N) : bool :=
  (((65 <=? c) && (c <=? 90)) || ((97 <=? c) && (c <=? 122)))%N.
Definition upper (s : str) : str := upper_char <$> s.

(** [str.title]: a cased character is upper-cased when the previous
    character is not cased, and lower-cased otherwise. *)
Fixpoint title_from (prev_cased : bool) (s : str) : str :=
  match s with
  | [] => []
  | c :: rest =>
      (if prev_cased then lower_char c else upper_char c)
        :: title_from (is_alpha c) rest
  end.
Definition title (s : str) : str := title_from false s.

(** Decimal digits of a natural number, [str(int)]. *)
Fixpoint digits_fuel (fuel : nat) (n : N) (acc : str) : str :=
  match fuel with
  | O => acc
  | S fuel' =>
      let acc' := (48 + n mod 10)%N :: acc in
      if (n <? 10)%N then acc' else digits_fuel fuel' (n / 10)%N acc'
  end.
Definition str_of_N (n : N) : str := digits_fuel (S (N.to_nat (N.log2 n))) n [].
Definition str_of_nat (n : nat) : str := str_of_N (N.of_nat n).

(** ** Paths *)

(** A path is its sequence of segments.  Absolute paths are read from the
    root directory, relative paths from their base. *)
Definition path : Type := list str.

(** [PurePath.__lt__] compares the segment sequences. *)
Definition path_compare : path -> path -> comparison := lex_compare str_compare.
Definition path_le (p q : path) : Prop := path_compare p q <> Gt.
Definition path_lt (p q : path) : Prop := path_compare p q = Lt.

Global Instance path_le_dec p q : Decision (path_le p q).
Proof. unfold path_le. apply _. Defined.
Global Instance path_lt_dec p q : Decision (path_lt p q).
Proof. unfold path_lt. apply _. Defined.

Definition slash : str := lit "/".

(** [str(p)] for a relative path: segments joined by "/", "." when empty. *)
Definition str_of_relpath (p : path) : str :=
  match p with
  | [] => lit "."
  | _ => join slash p
  end.

(** [str(p)] for an absolute path. *)
Definition str_of_abspath (p : path) : str := slash ++ join slash p.

(** [p.relative_to(base)]; Python raises [ValueError] when [base] is not a
    prefix of [p], here [None]. *)
Fixpoint relative_to (base p : path) : option path :=
  match base, p with
  | [], _ => Some p
  | b :: base', s :: p' =>
      if decide (b = s) then relative_to base' p' else None
  | _ :: _, [] => None
  end.

(** A [pathlib.Path] as the command line gives it: anchored at the root
    directory or relative to the working directory. *)
Record Path := { is_absolute : bool; segments : path }.

(** [p / name] *)
Definition joinpath (p : Path) (name : str) : Path :=
  {| is_absolute := is_absolute p; segments := segments p ++ [name] |}.

(** [p.parent] *)
Definition parent (p : Path) : Path :=
  {| is_absolute := is_absolute p; segments := removelast (segments p) |}.

(** Dropping each ".." together with the segment before it. *)
Fixpoint normalize (done_rev : path) (todo : path) : path :=
  match todo with
  | [] => reverse done_rev
  | s :: rest =>
      if decide (s = lit "..") then normalize (tail done_rev) rest
      else normalize (s :: done_rev) rest
  end.

(** [p.resolve()] in working directory [cwd] on a file system without
    symbolic links: the absolute, normalized path. *)
Definition resolve (cwd : path) (p : Path) : path :=
  normalize [] (if is_absolute p then segments p else cwd ++ segments p).

(** ** The file system *)

Record filesystem := {
  fs_files : gmap path (list byte);   (* regular files and their contents *)
  fs_dirs : gset path                 (* directories *)
}.

(** [p.exists()] *)
Definition path_exists (fs : filesystem) (p : path) : bool :=
  bool_decide (is_Some (fs_files fs !! p)) || bool_decide (p ∈ fs_dirs fs).

(** [p] lies strictly below [base]. *)
Definition is_under (base p : path) : bool :=
  match relative_to base p with
  | Some (_ :: _) => true
  | _ => false
  end.

(** ** Effects *)

Inductive event :=
  | EvRead (p : path)                     (* a file opened and read for hashing *)
  | EvStdout (s : str)                    (* text written to standard output *)
  | EvMkdir (p : Path)                    (* mkdir(parents=True, exist_ok=True) *)
  | EvWriteText (p : Path) (s : str)      (* write_text *)
  | EvTruncate (p : Path).                (* a file created or emptied by a
                                             write_text that then failed *)

Inductive exn :=
  | SystemExit (msg : str)                (* raise SystemExit(msg) *)
  | OSError (p : path)                    (* a file that cannot be opened *)
  | ValueError (p : path)                 (* relative_to on a path outside the base *)
  | UnicodeEncodeError (text : str).      (* a text that cannot be encoded *)

(** A computation logs its events and ends in a value or an exception. *)
Definition run (A : Type) : Type := list event * (exn + A).

Definition ret {A} (a : A) : run A := ([], inr a).
Definition raise {A} (e : exn) : run A := ([], inl e).
Definition emit (ev : event) : run unit := ([ev], inr tt).
Definition bind {A B} (m : run A) (f : A -> run B) : run B :=
  match m with
  | (evs, inl e) => (evs, inl e)
  | (evs, inr a) => let '(evs', r) := f a in (evs ++ evs', r)
  end.

Global Instance run_ret : MRet run := @ret.
Global Instance run_bind : MBind run := fun A B f m => bind m f.

Definition events {A} (m : run A) : list event := fst m.
Definition outcome {A} (m : run A) : exn + A := snd m.

(** [for x in xs: st = body(st, x)] *)
Fixpoint for_each {A S} (xs : list A) (body : S -> A -> run S) (st : S) : run S :=
  match xs with
  | [] => ret st
  | x :: xs' => st' ← body st x; for_each xs' body st'
  end.

(** ** Hasher *)

(** [hashlib.sha256(...).hexdigest()], a function of the bytes read. *)
Class Hasher := sha256_hexdigest : list byte -> str.

Section with_hasher.
Context `{Hasher}.

(** [hash_file]: reads the whole file chunk by chunk and returns the
    digest.  The file is one that can be read; [IO.hash_file] below also
    has the read that fails. *)
Definition hash_file (fs : filesystem) (p : path) : run str :=
  match fs_files fs !! p with
  | Some content => emit (EvRead p);; ret (sha256_hexdigest content)
  | None => raise (OSError p)
  end.

End with_hasher.

(** ** Tree walker *)

(** [gather_files]: the regular files below [base], sorted. *)
Definition gather_files (fs : filesystem) (base : path) : list path :=
  merge_sort path_le (filter (fun p => is_under base p = true)
                             (elements (dom (fs_files fs)))).

(** ** Floats *)

(** A Python [float] is an IEEE 754 binary64 value. *)
Definition prec : Z := 53.
Definition emax : Z := 1024.
Definition float : Type := spec_float.

(** [float(n)] for an integer that converts without overflow. *)
Definition float_of_int (n : Z) : float := binary_normalize prec emax n 0 false.

(** [a / b] on two integers, [a >= 0] and [b > 0]: the exact quotient,
    rounded once to the nearest float (ties to even).  Division by zero
    raises in Python; the divisor's type excludes it here, as the script's
    [if total] guards do. *)
Definition int_truediv (a : N) (b : positive) : float :=
  match a with
  | N0 => S754_zero false
  | Npos a' =>
      let '(m, e, l) := SFdiv_core_binary prec emax (Zpos a') 0 (Zpos b) 0 in
      binary_round_aux prec emax false m e l
  end.

(** [x * y] on floats. *)
Definition float_mul : float -> float -> float := SFmul prec emax.

(** Round to the nearest integer, ties to even: [num / den] for [den > 0]. *)
Definition round_half_even (num den : Z) : Z :=
  let q := num / den in
  let r := num mod den in
  match (2 * r ?= den) with
  | Lt => q
  | Gt => q + 1
  | Eq => if Z.even q then q else q + 1
  end.

(** The decimal digits of [n], left-padded with zeros to [width]. *)
Definition zfill (width : nat) (s : str) : str :=
  replicate (width - length s) 48%N ++ s.

(** [format(x, ".2f")]: the exact value of [x] rounded to two decimals. *)
Definition format_2f (x : float) : str :=
  match x with
  | S754_nan => lit "nan"
  | S754_infinity s => (if s then lit "-" else []) ++ lit "inf"
  | S754_zero s => (if s then lit "-" else []) ++ lit "0.00"
  | S754_finite s m e =>
      let hundredths :=
        match e with
        | Zneg k => round_half_even (Zpos m * 100) (2 ^ Zpos k)
        | _ => Zpos m * 100 * 2 ^ e
        end in
      (if s then lit "-" else [])
        ++ str_of_N (Z.to_N (hundredths / 100)) ++ lit "."
        ++ zfill 2 (str_of_N (Z.to_N (hundredths mod 100)))
  end.

Local Close Scope Z_scope.

(** ** Data model of the comparison *)

Inductive status := identical | missing | different | additional.

Global Instance status_eq_dec : EqDecision status.
Proof. solve_decision. Defined.

(** The status as the string the script stores. *)
Definition status_name (s : status) : str :=
  match s with
  | identical => lit "identical"
  | missing => lit "missing"
  | different => lit "different"
  | additional => lit "additional"
  end.

(** The [counts] dictionary: its four keys are fixed at creation, in the
    order identical, missing, different, additional. *)
Record counts := {
  n_identical : nat;
  n_missing : nat;
  n_different : nat;
  n_additional : nat
}.

Definition counts_zero : counts := Build_counts 0 0 0 0.

(** [counts[key]] *)
Definition counts_get (c : counts) (key : status) : nat :=
  match key with
  | identical => n_identical c
  | missing => n_missing c
  | different => n_different c
  | additional => n_additional c
  end.

(** [counts[key] += 1] *)
Definition counts_incr (key : status) (c : counts) : counts :=
  match key with
  | identical => Build_counts (S (n_identical c)) (n_missing c) (n_different c) (n_additional c)
  | missing => Build_counts (n_identical c) (S (n_missing c)) (n_different c) (n_additional c)
  | different => Build_counts (n_identical c) (n_missing c) (S (n_different c)) (n_additional c)
  | additional => Build_counts (n_identical c) (n_missing c) (n_different c) (S (n_additional c))
  end.

(** [counts.values()], in the dictionary's insertion order. *)
Definition counts_values (c : counts) : list nat :=
  [n_identical c; n_missing c; n_different c; n_additional c].

(** One element of [results]: [{"status": ..., "path": ...}]. *)
Record entry := { e_status : status; e_path : str }.

Record report := {
  r_total : nat;
  r_counts : counts;
  r_identical_ratio : float;
  r_results : list entry
}.

(** [x / total * 100 if total else dflt] *)
Definition percent_or (dflt : float) (x total : nat) : float :=
  match N.of_nat total with
  | N0 => dflt
  | Npos t => float_mul (int_truediv (N.of_nat x) t) (float_of_int 100)
  end.

Definition float_100 : float := float_of_int 100.
Definition float_0 : float := S754_zero false.

(** ** Differ *)

Section compare.
Context `{Hasher}.

(** [{p.relative_to(base): p for p in files}] *)
Definition relative_map (base : path) (files : list path) : run (gmap path path) :=
  for_each files
    (fun m p =>
       match relative_to base p with
       | Some k => mret (<[k := p]> m)
       | None => raise (ValueError p)
       end) ∅.

(** The branch of the loop body that decides a path's status. *)
Definition classify (fs : filesystem) (root_file template_file : option path)
  : run status :=
  match root_file, template_file with
  | Some r, Some t =>
      hr ← hash_file fs r;
      ht ← hash_file fs t;
      mret (if decide (hr = ht) then identical else different)
  | None, Some _ => mret missing
  | _, _ => mret additional
  end.

(** One round of the loop over [all_paths]. *)
Definition compare_step (fs : filesystem) (root_map template_map : gmap path path)
    (acc : counts * list entry) (rel_path : path) : run (counts * list entry) :=
  let '(cnts, results) := acc in
  st ← classify fs (root_map !! rel_path) (template_map !! rel_path);
  mret (counts_incr st cnts,
        results ++ [Build_entry st (str_of_relpath rel_path)]).

Definition compare_assets (fs : filesystem) (root_assets template_assets : path)
  : run report :=
  let root_files := gather_files fs root_assets in
  let template_files := gather_files fs template_assets in
  root_map ← relative_map root_assets root_files;
  template_map ← relative_map template_assets template_files;
  let all_paths :=
    merge_sort path_le (elements (dom root_map ∪ dom template_map)) in
  acc ← for_each all_paths (compare_step fs root_map template_map)
                 (counts_zero, []);
  let '(cnts, results) := acc in
  let total := sum_list (counts_values cnts) in
  let identical_ratio := percent_or float_100 (n_identical cnts) total in
  mret {| r_total := total; r_counts := cnts;
          r_identical_ratio := identical_ratio; r_results := results |}.

End compare.

(** ** Reporter: text *)

Definition ESC : N := 27%N.
Definition COLOR_RESET : str := ESC :: lit "[0m".

Definition COLORS (s : status) : str :=
  match s with
  | identical => ESC :: lit "[33m"     (* yellow *)
  | missing => ESC :: lit "[31m"       (* red *)
  | different => ESC :: lit "[32m"     (* green *)
  | additional => ESC :: lit "[36m"    (* cyan *)
  end.

Definition SUMMARY_ORDER : list status :=
  [identical; different; missing; additional].

(** The first line of the text report. *)
Definition header_line (r : report) : str :=
  lit "Compared " ++ str_of_nat (r_total r) ++ lit " root files; "
    ++ str_of_nat (counts_get (r_counts r) identical) ++ lit " identical ("
    ++ format_2f (r_identical_ratio r) ++ lit "%).".

(** The line of one entry of [results]. *)
Definition entry_line (use_color : bool) (e : entry) : str :=
  let label := ljust 9 (upper (status_name (e_status e))) in
  let color := if use_color then COLORS (e_status e) else [] in
  let reset := if use_color then COLOR_RESET else [] in
  color ++ lit "[" ++ label ++ lit "] " ++ e_path e ++ reset.

(** The line of one status in the summary block. *)
Definition summary_line (use_color : bool) (r : report) (key : status) : str :=
  let count := counts_get (r_counts r) key in
  let percent := percent_or float_0 count (r_total r) in
  let color := if use_color then COLORS key else [] in
  let reset := if use_color then COLOR_RESET else [] in
  let ttl := ljust 9 (title (status_name key)) in
  color ++ ttl ++ reset ++ lit ": " ++ str_of_nat count ++ lit " files ("
    ++ format_2f percent ++ lit "%)".

Definition newline : str := [10%N].

(** The list [lines] that [build_text_report] joins. *)
Definition text_lines (r : report) (use_color : bool) : list str :=
  [header_line r]
    ++ (entry_line use_color <$> r_results r)
    ++ [[]; lit "Summary:"]
    ++ (summary_line use_color r <$> SUMMARY_ORDER).

Definition build_text_report (r : report) (use_color : bool) : str :=
  join newline (text_lines r use_color).

(** ** Reporter: JSON *)

(** The Python values that [json.dumps] is given. *)
Inductive pyval :=
  | PInt (n : Z)
  | PFloat (x : float)
  | PStr (s : str)
  | PList (items : list pyval)
  | PDict (items : list (str * pyval)).

(** [str(int)] *)
Definition str_of_Z (n : Z) : str :=
  match n with
  | Zneg p => lit "-" ++ str_of_N (Npos p)
  | _ => str_of_N (Z.to_N n)
  end.

(** [float.__repr__], library code: the shortest decimal literal that reads
    back as the same float.  What the encoder relies on is that the result
    is a JSON number literal. *)
Definition is_digit (c : N) : bool := ((48 <=? c) && (c <=? 57))%N.

Fixpoint span_digits (s : str) : str * str :=
  match s with
  | c :: r => if is_digit c then let '(ds, r') := span_digits r in (c :: ds, r')
              else ([], s)
  | [] => ([], [])
  end.

(** The prefix of [s] matched by the number pattern of [json.scanner] and
    the rest of [s].  The pattern is an integer part (an optional minus
    sign, then a single zero or a nonzero digit and more digits), an
    optional fraction (a dot and one or more digits) and an optional
    exponent (e or E, an optional sign, one or more digits). *)
Definition scan_unsigned (sign s1 : str) : option (str * str) :=
  match s1 with
  | c :: r =>
      if (c =? 48)%N then Some (sign ++ [c], r)
      else if is_digit c then
        let '(ds, r') := span_digits s1 in Some (sign ++ ds, r')
      else None
  | [] => None
  end.

Definition scan_int_part (s : str) : option (str * str) :=
  match s with
  | c :: r => if (c =? 45)%N then scan_unsigned [c] r else scan_unsigned [] s
  | [] => None
  end.

Definition scan_frac_part (s : str) : str * str :=
  match s with
  | c :: r =>
      if (c =? 46)%N then
        match span_digits r with
        | ([], _) => ([], s)
        | (ds, r') => (c :: ds, r')
        end
      else ([], s)
  | [] => ([], s)
  end.

Definition scan_exp_part (s : str) : str * str :=
  match s with
  | c :: r =>
      if ((c =? 101) || (c =? 69))%N then
        let '(sign, r1) :=
          match r with
          | c' :: r' => if ((c' =? 45) || (c' =? 43))%N then ([c'], r') else ([], r)
          | [] => ([], r)
          end in
        match span_digits r1 with
        | ([], _) => ([], s)
        | (ds, r') => (c :: sign ++ ds, r')
        end
      else ([], s)
  | [] => ([], s)
  end.

Definition scan_number (s : str) : option (str * str) :=
  '(i, r1) ← scan_int_part s;
  let '(f, r2) := scan_frac_part r1 in
  let '(e, r3) := scan_exp_part r2 in
  Some (i ++ f ++ e, r3).

(** [s] is, as a whole, a JSON number literal. *)
Definition is_number_literal (s : str) : Prop := scan_number s = Some (s, []).

(** [math.isfinite] *)
Definition isfinite (x : float) : bool :=
  match x with
  | S754_zero _ | S754_finite _ _ _ => true
  | _ => false
  end.

Class FloatRepr := {
  float_repr : float -> str;
  float_repr_literal :
    forall x, isfinite x = true -> is_number_literal (float_repr x)
}.

(** [json.encoder]'s [floatstr]. *)
Definition floatstr `{FloatRepr} (x : float) : str :=
  match x with
  | S754_nan => lit "NaN"
  | S754_infinity false => lit "Infinity"
  | S754_infinity true => lit "-Infinity"
  | _ => float_repr x
  end.

Definition hex_digit (n : N) : N := (if n <? 10 then 48 + n else 87 + n)%N.

(** ['\\u{0:04x}'.format(n)] *)
Definition u_escape (n : N) : str :=
  92%N :: 117%N ::
    [hex_digit (n / 4096 mod 16); hex_digit (n / 256 mod 16);
     hex_digit (n / 16 mod 16); hex_digit (n mod 16)]%N.

(** One character under [encode_basestring_ascii]. *)
Definition escape_char (c : N) : str :=
  if (c =? 34)%N then [92; 34]%N
  else if (c =? 92)%N then [92; 92]%N
  else if (c =? 10)%N then [92; 110]%N
  else if (c =? 13)%N then [92; 114]%N
  else if (c =? 9)%N then [92; 116]%N
  else if (c =? 12)%N then [92; 102]%N
  else if (c =? 8)%N then [92; 98]%N
  else if ((32 <=? c) && (c <=? 126))%N then [c]
  else if (c <? 65536)%N then u_escape c
  else
    let n := (c - 65536)%N in
    u_escape (N.lor 55296 (N.land (N.shiftr n 10) 1023))
      ++ u_escape (N.lor 56320 (N.land n 1023)).

Definition encode_basestring_ascii (s : str) : str :=
  34%N :: concat (escape_char <$> s) ++ [34%N].

(** A newline followed by the indentation of [level]. *)
Definition newline_indent (indent level : nat) : str :=
  10%N :: replicate (indent * level) 32%N.

Section encoder.
Context `{FloatRepr}.

(** [json.dumps(v, indent=indent)] at nesting depth [level]. *)
Fixpoint encode (indent level : nat) (v : pyval) : str :=
  match v with
  | PInt n => str_of_Z n
  | PFloat x => floatstr x
  | PStr s => encode_basestring_ascii s
  | PList [] => lit "[]"
  | PList items =>
      lit "[" ++ newline_indent indent (S level)
        ++ join (lit "," ++ newline_indent indent (S level))
                (map (encode indent (S level)) items)
        ++ newline_indent indent level ++ lit "]"
  | PDict [] => lit "{}"
  | PDict items =>
      lit "{" ++ newline_indent indent (S level)
        ++ join (lit "," ++ newline_indent indent (S level))
                (map (fun kv => encode_basestring_ascii (fst kv) ++ lit ": "
                                  ++ encode indent (S level) (snd kv)) items)
        ++ newline_indent indent level ++ lit "}"
  end.

Definition json_dumps (indent : nat) (v : pyval) : str := encode indent 0 v.

Definition counts_payload (c : counts) : pyval :=
  PDict [(lit "identical", PInt (Z.of_nat (n_identical c)));
         (lit "missing", PInt (Z.of_nat (n_missing c)));
         (lit "different", PInt (Z.of_nat (n_different c)));
         (lit "additional", PInt (Z.of_nat (n_additional c)))].

Definition entry_payload (e : entry) : pyval :=
  PDict [(lit "status", PStr (status_name (e_status e)));
         (lit "path", PStr (e_path e))].

Definition payload (r : report) : pyval :=
  PDict [(lit "total", PInt (Z.of_nat (r_total r)));
         (lit "identical_ratio", PFloat (r_identical_ratio r));
         (lit "counts", counts_payload (r_counts r));
         (lit "files", PList (entry_payload <$> r_results r))].

Definition build_json_report (r : report) : str := json_dumps 2 (payload r).

End encoder.

(** ** Reading JSON back: [json.loads] *)

(** A parsed document.  A number keeps its literal; [json_int] reads an
    integer literal as [int] does. *)
Inductive json :=
  | JNull
  | JBool (b : bool)
  | JNum (literal : str)
  | JStr (s : str)
  | JArr (items : list json)
  | JObj (members : list (str * json)).

Definition is_ws (c : N) : bool :=
  ((c =? 32) || (c =? 9) || (c =? 10) || (c =? 13))%N.

Fixpoint skip_ws (s : str) : str :=
  match s with
  | c :: r => if is_ws c then skip_ws r else s
  | [] => []
  end.

Definition hex_val (c : N) : option N :=
  if ((48 <=? c) && (c <=? 57))%N then Some (c - 48)%N
  else if ((97 <=? c) && (c <=? 102))%N then Some (c - 87)%N
  else if ((65 <=? c) && (c <=? 70))%N then Some (c - 55)%N
  else None.

Definition hex4_val (a b c d : N) : option N :=
  va ← hex_val a; vb ← hex_val b; vc ← hex_val c; vd ← hex_val d;
  Some (((va * 16 + vb) * 16 + vc) * 16 + vd)%N.

(** The character named by a one-letter escape. *)
Definition backslash_char (e : N) : option N :=
  if ((e =? 34) || (e =? 92) || (e =? 47))%N then Some e
  else if (e =? 98)%N then Some 8%N
  else if (e =? 102)%N then Some 12%N
  else if (e =? 110)%N then Some 10%N
  else if (e =? 114)%N then Some 13%N
  else if (e =? 116)%N then Some 9%N
  else None.

Definition is_high_surrogate (u : N) : bool := ((55296 <=? u) && (u <=? 56319))%N.
Definition is_low_surrogate (u : N) : bool := ((56320 <=? u) && (u <=? 57343))%N.

Definition push_char (c : N) (res : option (str * str)) : option (str * str) :=
  '(s, r) ← res; Some (c :: s, r).

(** [py_scanstring] in strict mode, entered after the opening quote:
    the decoded string and the input after the closing quote. *)
Fixpoint scanstring (s : str) : option (str * str) :=
  match s with
  | [] => None
  | c :: r =>
      if (c =? 34)%N then Some ([], r)
      else if (c =? 92)%N then
        match r with
        | [] => None
        | e :: r1 =>
            if (e =? 117)%N then
              match r1 with
              | h1 :: h2 :: h3 :: h4 :: r2 =>
                  match hex4_val h1 h2 h3 h4 with
                  | None => None
                  | Some uni =>
                      match r2 with
                      | b :: u :: r3 =>
                          if is_high_surrogate uni && (b =? 92)%N && (u =? 117)%N then
                            match r3 with
                            | k1 :: k2 :: k3 :: k4 :: r4 =>
                                match hex4_val k1 k2 k3 k4 with
                                | None => None
                                | Some uni2 =>
                                    if is_low_surrogate uni2 then
                                      push_char
                                        (65536 + N.lor (N.shiftl (uni - 55296) 10)
                                                       (uni2 - 56320))%N
                                        (scanstring r4)
                                    else push_char uni (scanstring r2)
                                end
                            | _ => None
                            end
                          else push_char uni (scanstring r2)
                      | _ => push_char uni (scanstring r2)
                      end
                  end
              | _ => None
              end
            else
              match backslash_char e with
              | Some ch => push_char ch (scanstring r1)
              | None => None
              end
        end
      else if (c <? 32)%N then None
      else push_char c (scanstring r)
  end.

(** [s] starts with [p]: the rest of [s]. *)
Fixpoint strip_prefix (p s : str) : option str :=
  match p, s with
  | [], _ => Some s
  | a :: p', b :: s' => if (a =? b)%N then strip_prefix p' s' else None
  | _ :: _, [] => None
  end.

(** A value that is neither a string, an object nor an array. *)
Definition parse_atom (s : str) : option (json * str) :=
  match strip_prefix (lit "null") s with
  | Some r => Some (JNull, r)
  | None =>
  match strip_prefix (lit "true") s with
  | Some r => Some (JBool true, r)
  | None =>
  match strip_prefix (lit "false") s with
  | Some r => Some (JBool false, r)
  | None =>
  match scan_number s with
  | Some (tok, r) => Some (JNum tok, r)
  | None =>
  match strip_prefix (lit "NaN") s with
  | Some r => Some (JNum (lit "NaN"), r)
  | None =>
  match strip_prefix (lit "Infinity") s with
  | Some r => Some (JNum (lit "Infinity"), r)
  | None =>
  match strip_prefix (lit "-Infinity") s with
  | Some r => Some (JNum (lit "-Infinity"), r)
  | None => None
  end end end end end end end.

(** [scan_once], [JSONObject] and [JSONArray]; [fuel] bounds the number of
    nested and successive values. *)
Fixpoint parse_value (fuel : nat) (s : str) : option (json * str) :=
  match fuel with
  | O => None
  | S fuel' =>
      match s with
      | [] => None
      | c :: r =>
          if (c =? 34)%N then
            '(k, r') ← scanstring r; Some (JStr k, r')
          else if (c =? 123)%N then
            match skip_ws r with
            | c' :: r' =>
                if (c' =? 125)%N then Some (JObj [], r')
                else '(ms, r'') ← parse_members fuel' (c' :: r'); Some (JObj ms, r'')
            | [] => None
            end
          else if (c =? 91)%N then
            match skip_ws r with
            | c' :: r' =>
                if (c' =? 93)%N then Some (JArr [], r')
                else '(vs, r'') ← parse_items fuel' (c' :: r'); Some (JArr vs, r'')
            | [] => None
            end
          else parse_atom s
      end
  end
with parse_members (fuel : nat) (s : str) : option (list (str * json) * str) :=
  match fuel with
  | O => None
  | S fuel' =>
      match s with
      | q :: r =>
          if (q =? 34)%N then
            '(k, r1) ← scanstring r;
            match skip_ws r1 with
            | colon :: r2 =>
                if (colon =? 58)%N then
                  '(v, r3) ← parse_value fuel' (skip_ws r2);
                  match skip_ws r3 with
                  | d :: r4 =>
                      if (d =? 125)%N then Some ([(k, v)], r4)
                      else if (d =? 44)%N then
                        '(ms, r5) ← parse_members fuel' (skip_ws r4);
                        Some ((k, v) :: ms, r5)
                      else None
                  | [] => None
                  end
                else None
            | [] => None
            end
          else None
      | [] => None
      end
  end
with parse_items (fuel : nat) (s : str) : option (list json * str) :=
  match fuel with
  | O => None
  | S fuel' =>
      '(v, r1) ← parse_value fuel' s;
      match skip_ws r1 with
      | d :: r2 =>
          if (d =? 93)%N then Some ([v], r2)
          else if (d =? 44)%N then
            '(vs, r3) ← parse_items fuel' (skip_ws r2); Some (v :: vs, r3)
          else None
      | [] => None
      end
  end.

(** [json.loads]: one value, surrounded by white space only. *)
Definition json_loads (s : str) : option json :=
  '(v, r) ← parse_value (S (length s)) (skip_ws s);
  match skip_ws r with
  | [] => Some v
  | _ :: _ => None
  end.

(** [doc[key]] on the dictionary built from an object: the last member
    named [key] wins. *)
Definition json_get (key : str) (doc : json) : option json :=
  match doc with
  | JObj members =>
      snd <$> (snd <$> list_find (fun kv => fst kv = key) (reverse members))
  | _ => None
  end.

Definition json_str (v : json) : option str :=
  match v with
  | JStr s => Some s
  | _ => None
  end.

(** The value of a sequence of decimal digits. *)
Definition digits_value (ds : str) : N :=
  fold_left (fun acc d => acc * 10 + (d - 48))%N ds 0%N.

(** The value of an integer literal without sign. *)
Definition nat_of_digits (ds : str) : option nat :=
  match ds with
  | [] => None
  | _ => if forallb is_digit ds then Some (N.to_nat (digits_value ds)) else None
  end.

Definition json_nat (v : json) : option nat :=
  match v with
  | JNum tok => nat_of_digits tok
  | _ => None
  end.

Definition status_of_name (s : str) : option status :=
  snd <$> list_find (fun st => status_name st = s)
                    [identical; missing; different; additional].

(** [doc[key]] read as a string, and as a non-negative integer. *)
Definition json_get_str (key : str) (doc : json) : option str :=
  match json_get key doc with
  | Some v => json_str v
  | None => None
  end.

Definition json_get_nat (key : str) (doc : json) : option nat :=
  match json_get key doc with
  | Some v => json_nat v
  | None => None
  end.

Definition json_entry (v : json) : option entry :=
  match json_get_str (lit "status") v, json_get_str (lit "path") v with
  | Some name, Some p =>
      match status_of_name name with
      | Some st => Some (Build_entry st p)
      | None => None
      end
  | _, _ => None
  end.

(** The [files] of a parsed report. *)
Definition json_files (doc : json) : option (list entry) :=
  match json_get (lit "files") doc with
  | Some (JArr items) => mapM json_entry items
  | _ => None
  end.

(** The [counts] of a parsed report. *)
Definition json_counts (doc : json) : option counts :=
  match json_get (lit "counts") doc with
  | Some c =>
      match json_get_nat (lit "identical") c, json_get_nat (lit "missing") c,
            json_get_nat (lit "different") c, json_get_nat (lit "additional") c with
      | Some ni, Some nm, Some nd, Some na => Some (Build_counts ni nm nd na)
      | _, _, _, _ => None
      end
  | None => None
  end.

Definition json_total (doc : json) : option nat :=
  json_get_nat (lit "total") doc.

(** ** Entry point *)

Inductive output_format := format_text | format_json.

(** The command line: [None] where an argument is not given. *)
Record arguments := {
  given_root : option Path;            (* positional root *)
  given_template : option Path;        (* positional template *)
  given_format : option output_format; (* -f, --format *)
  given_input : option Path;           (* -in, --input *)
  given_template_path : option Path;   (* -to, --template *)
  given_report_file : option Path      (* -r, --report, --report-file, --output-file *)
}.

(** The namespace [parse_args] returns. *)
Record namespace := {
  root : Path;
  template : Path;
  format : output_format;
  input_path : option Path;
  template_path : option Path;
  report_file : option Path
}.

(** What the process finds around it. *)
Record world := {
  w_fs : filesystem;
  w_cwd : path;          (* Path.cwd() *)
  w_isatty : bool        (* sys.stdout.isatty() *)
}.

(** [Path.cwd() / "assets"] *)
Definition default_root (cwd : path) : Path :=
  joinpath {| is_absolute := true; segments := cwd |} (lit "assets").

(** [Path(".packs/template-1.21.11/assets")] *)
Definition default_template : Path :=
  {| is_absolute := false;
     segments := [lit ".packs"; lit "template-1.21.11"; lit "assets"] |}.

(** The parser's declarations: each argument and its default. *)
Definition parse_args (cwd : path) (a : arguments) : namespace :=
  {| root := default (default_root cwd) (given_root a);
     template := default default_template (given_template a);
     format := default format_text (given_format a);
     input_path := given_input a;
     template_path := given_template_path a;
     report_file := given_report_file a |}.

(** [a or b] with [a] a path or [None]; a path is always true. *)
Definition path_or (a : option Path) (b : Path) : Path :=
  match a with
  | Some p => p
  | None => b
  end.

(** The two directories that [main] compares, resolved. *)
Definition resolved_dirs (cwd : path) (args : namespace) : path * path :=
  (resolve cwd (path_or (input_path args) (root args)),
   resolve cwd (path_or (template_path args) (template args))).

(** [color_enabled] of the text branch. *)
Definition color_enabled (w : world) (args : namespace) : bool :=
  match report_file args with
  | None => w_isatty w
  | Some _ => false
  end.

Section entry_point.
Context `{Hasher} `{FloatRepr}.

(** The branch on [args.format] that builds [output_text]. *)
Definition render (w : world) (args : namespace) (rep : report) : str :=
  match format args with
  | format_json => build_json_report rep
  | format_text => build_text_report rep (color_enabled w args)
  end.

(** [main], when the report can be delivered; [IO.main] below also has
    the delivery that fails. *)
Definition main (w : world) (a : arguments) : run unit :=
  let args := parse_args (w_cwd w) a in
  let '(root_assets, template_assets) := resolved_dirs (w_cwd w) args in
  if negb (path_exists (w_fs w) root_assets) then
    raise (SystemExit (lit "Root assets folder not found: "
                         ++ str_of_abspath root_assets))
  else if negb (path_exists (w_fs w) template_assets) then
    raise (SystemExit (lit "Template assets folder not found: "
                         ++ str_of_abspath template_assets))
  else
    rep ← compare_assets (w_fs w) root_assets template_assets;
    let output_text := render w args rep in
    match report_file args with
    | Some f =>
        emit (EvMkdir (parent f));;
        emit (EvWriteText f (output_text ++ newline))
    | None => emit (EvStdout (output_text ++ newline))
    end.

End entry_point.

(** The exit status of the process: 0 when [main] returns, 1 when an
    exception ends it ([SystemExit] with a message prints the message and
    exits with 1). *)
Definition exit_status {A} (m : run A) : nat :=
  match outcome m with
  | inr _ => 0
  | inl _ => 1
  end.

(** ** Sample data *)

(** A stand-in digest for running the model: the bytes themselves. *)
Definition content_digest : Hasher := fun content => Byte.to_N <$> content.

(** The bytes of an ASCII text. *)
Definition bytes_of (s : string) : list byte := list_byte_of_string s.

(** A pack at /pack/assets and a template at /tpl/assets: a.txt is the same
    in both, b.txt is only in the template, c.txt only in the pack, and
    d.txt differs.  /mirror holds a copy of the pack, /empty nothing. *)
Definition sample_fs : filesystem :=
  {| fs_files :=
       list_to_map
         [([lit "pack"; lit "assets"; lit "a.txt"], bytes_of "X");
          ([lit "pack"; lit "assets"; lit "c.txt"], bytes_of "Z");
          ([lit "pack"; lit "assets"; lit "d.txt"], bytes_of "old");
          ([lit "mirror"; lit "a.txt"], bytes_of "X");
          ([lit "mirror"; lit "c.txt"], bytes_of "Z");
          ([lit "mirror"; lit "d.txt"], bytes_of "old");
          ([lit "tpl"; lit "assets"; lit "a.txt"], bytes_of "X");
          ([lit "tpl"; lit "assets"; lit "b.txt"], bytes_of "Y");
          ([lit "tpl"; lit "assets"; lit "d.txt"], bytes_of "new")];
     fs_dirs :=
       list_to_set [[]; [lit "pack"]; [lit "pack"; lit "assets"];
                    [lit "tpl"]; [lit "tpl"; lit "assets"];
                    [lit "mirror"]; [lit "empty"]] |}.

Definition pack_assets : path := [lit "pack"; lit "assets"].
Definition tpl_assets : path := [lit "tpl"; lit "assets"].
Definition mirror_assets : path := [lit "mirror"].
Definition empty_dir : path := [lit "empty"].

(** A process started in /pack with standard output on a terminal. *)
Definition sample_world : world :=
  {| w_fs := sample_fs; w_cwd := [lit "pack"]; w_isatty := true |}.

Definition absolute (p : path) : Path := {| is_absolute := true; segments := p |}.
Definition relative (p : path) : Path := {| is_absolute := false; segments := p |}.

(** No argument at all on the command line. *)
Definition no_arguments : arguments :=
  {| given_root := None; given_template := None; given_format := None;
     given_input := None; given_template_path := None;
     given_report_file := None |}.

(** [--template /tpl/assets] *)
Definition template_flag_only : arguments :=
  {| given_root := None; given_template := None; given_format := None;
     given_input := None; given_template_path := Some (absolute tpl_assets);
     given_report_file := None |}.

(** [/empty /empty --input /pack/assets --template /tpl/assets] *)
Definition flags_and_positionals : arguments :=
  {| given_root := Some (absolute empty_dir);
     given_template := Some (absolute empty_dir); given_format := None;
     given_input := Some (absolute pack_assets);
     given_template_path := Some (absolute tpl_assets);
     given_report_file := None |}.

(** A stand-in for [float.__repr__] for running the model: the exact
    decimal expansion of the float.  Like [repr] it yields a number
    literal that reads back as the same float; it is not the shortest one. *)
Definition exact_decimal (x : float) : str :=
  match x with
  | S754_zero s => (if s then lit "-" else []) ++ str_of_N 0 ++ lit "." ++ lit "0"
  | S754_finite s m e =>
      (if s then lit "-" else [])
        ++ match e with
           | Zneg k =>
               let scaled := (Npos m * 5 ^ Npos k)%N in
               let unit := (10 ^ Npos k)%N in
               str_of_N (scaled / unit) ++ lit "."
                 ++ zfill (Pos.to_nat k) (str_of_N (scaled mod unit))
           | _ => str_of_N (Npos m * 2 ^ Z.to_N e) ++ lit "." ++ lit "0"
           end
  | S754_infinity s => (if s then lit "-" else []) ++ lit "inf"
  | S754_nan => lit "nan"
  end.

(** A pack whose only file has a name that starts with an escape sequence,
    next to an empty template. *)
Definition escape_name : str := ESC :: lit "[31mred.txt".

Definition escape_fs : filesystem :=
  {| fs_files := {[ [lit "c"; lit "assets"; escape_name] := bytes_of "R" ]};
     fs_dirs := list_to_set [[]; [lit "c"]; [lit "c"; lit "assets"];
                             [lit "c"; lit "tpl"]] |}.

(** A process started in /c, not on a terminal. *)
Definition escape_world : world :=
  {| w_fs := escape_fs; w_cwd := [lit "c"]; w_isatty := false |}.

(** [assets tpl --report-file out.txt] *)
Definition report_to_file : arguments :=
  {| given_root := Some (relative [lit "assets"]);
     given_template := Some (relative [lit "tpl"]); given_format := None;
     given_input := None; given_template_path := None;
     given_report_file := Some (relative [lit "out.txt"]) |}.

(** The report of the sample pack against the sample template. *)
Definition sample_report : report :=
  {| r_total := 4;
     r_counts := Build_counts 1 1 1 1;
     r_identical_ratio := percent_or float_100 1 4;
     r_results := [Build_entry identical (lit "a.txt");
                   Build_entry missing (lit "b.txt");
                   Build_entry additional (lit "c.txt");
                   Build_entry different (lit "d.txt")] |}.

(** The texts that a run wrote to files. *)
Definition written_texts {A} (m : run A) : list str :=
  omap (fun ev => match ev with EvWriteText _ s => Some s | _ => None end)
       (events m).

(** The first scenario of the specification: the root holds a.txt, the
    template a.txt with the same content and b.txt. *)
Definition scenario_fs : filesystem :=
  {| fs_files :=
       list_to_map
         [([lit "r"; lit "a.txt"], bytes_of "X");
          ([lit "t"; lit "a.txt"], bytes_of "X");
          ([lit "t"; lit "b.txt"], bytes_of "Y")];
     fs_dirs := list_to_set [[]; [lit "r"]; [lit "t"]] |}.

(** ** The trees and the rule, as the data model states them *)

(** The content of the file at relative path [k] in the tree at [base]. *)
Definition tree_file (fs : filesystem) (base k : path) : option (list byte) :=
  match k with
  | [] => None
  | _ => fs_files fs !! (base ++ k)
  end.

(** [k] is a relative path of the tree at [base]. *)
Definition in_tree (fs : filesystem) (base k : path) : Prop :=
  is_Some (tree_file fs base k).

(** The tree at [base] as a whole: its files by relative path. *)
Definition tree_entry (base : path) (pc : path * list byte)
  : option (path * list byte) :=
  match relative_to base (fst pc) with
  | Some (s :: k) => Some (s :: k, snd pc)
  | _ => None
  end.

Definition tree (fs : filesystem) (base : path) : gmap path (list byte) :=
  list_to_map (omap (tree_entry base) (map_to_list (fs_files fs))).

(** The four-way rule: the status of a path from its file in the root tree
    and its file in the template tree. *)
Definition status_rule `{Hasher} (in_root in_template : option (list byte))
  : option status :=
  match in_root, in_template with
  | Some a, Some b =>
      Some (if decide (sha256_hexdigest a = sha256_hexdigest b)
            then identical else different)
  | None, Some _ => Some missing
  | Some _, None => Some additional
  | None, None => None
  end.

(** The number of entries with status [st]. *)
Definition count_status (st : status) (es : list entry) : nat :=
  length (filter (fun e => e_status e = st) es).

(** Entry [e] is the entry of relative path [k]: it carries the path's
    string and the status the rule gives. *)
Definition entry_follows_rule `{Hasher}
    (root_tree template_tree : gmap path (list byte)) (e : entry) (k : path)
  : Prop :=
  e_path e = str_of_relpath k
  /\ status_rule (root_tree !! k) (template_tree !! k) = Some (e_status e).

(** The report that [compare_assets] assembles from the loop's results. *)
Definition report_of (cnts : counts) (es : list entry) : report :=
  let total := sum_list (counts_values cnts) in
  {| r_total := total; r_counts := cnts;
     r_identical_ratio := percent_or float_100 (n_identical cnts) total;
     r_results := es |}.

(** The events by which [main] delivers [output_text]. *)
Definition delivery (args : namespace) (output_text : str) : list event :=
  match report_file args with
  | Some f => [EvMkdir (parent f); EvWriteText f (output_text ++ newline)]
  | None => [EvStdout (output_text ++ newline)]
  end.

(** ** The text layout, spelled out *)

(** [s] wrapped in the color of [st] and the reset code when color is on. *)
Definition paint (use_color : bool) (st : status) (s : str) : str :=
  if use_color then COLORS st ++ s ++ COLOR_RESET else s.

(** The bracketed label that starts an entry line. *)
Definition entry_label (st : status) : str :=
  match st with
  | identical => lit "[IDENTICAL] "
  | missing => lit "[MISSING  ] "
  | different => lit "[DIFFERENT] "
  | additional => lit "[ADDITIONAL] "
  end.

(** The title that starts a summary line. *)
Definition summary_title (st : status) : str :=
  match st with
  | identical => lit "Identical"
  | missing => lit "Missing  "
  | different => lit "Different"
  | additional => lit "Additional"
  end.

(** Padding on the left, as the words "left-padded to width 9" say:
    spaces come before the text. *)
Definition left_pad (width : nat) (s : str) : str :=
  replicate (width - length s) 32%N ++ s.

(** [needle in hay] *)
Fixpoint contains (needle hay : str) : bool :=
  match strip_prefix needle hay with
  | Some _ => true
  | None =>
      match hay with
      | [] => false
      | _ :: hay' => contains needle hay'
      end
  end.

(** ** What follows a value in a document *)

(** A character that may occur in a number literal. *)
Definition number_char (c : N) : bool :=
  (is_digit c || (c =? 46) || (c =? 101) || (c =? 69) || (c =? 43) || (c =? 45))%N.

(** [rest] is empty or starts with a character outside [p]. *)
Definition stops (p : N -> bool) (rest : str) : Prop :=
  match rest with
  | [] => True
  | c :: _ => p c = false
  end.

(** ** Strings that survive a round trip *)

(** A Python [str] holds code points below 0x110000.  A string read from
    a file name never holds a high surrogate immediately followed by a
    low surrogate: decoding joins such a pair into one code point. *)
Fixpoint text_ok (s : str) : bool :=
  match s with
  | [] => true
  | c :: r =>
      (c <? 1114112)%N
      && (negb (is_high_surrogate c)
          || match r with
             | c' :: _ => negb (is_low_surrogate c')
             | [] => true
             end)
      && text_ok r
  end.

(** What [scanstring] may find after the escape of a high surrogate: if
    another unicode escape follows, it is not a low surrogate. *)
Definition lookahead_ok (tail : str) : Prop :=
  match tail with
  | b :: u :: r3 =>
      (b =? 92)%N && (u =? 117)%N = true ->
      exists k1 k2 k3 k4 r4 u2,
        r3 = k1 :: k2 :: k3 :: k4 :: r4
        /\ hex4_val k1 k2 k3 k4 = Some u2
        /\ is_low_surrogate u2 = false
  | _ => True
  end.

(** ** Documents *)

(** The document [json.loads] returns for the text of [v]. *)
Fixpoint to_json `{FloatRepr} (v : pyval) : json :=
  match v with
  | PInt n => JNum (str_of_Z n)
  | PFloat x => JNum (floatstr x)
  | PStr s => JStr s
  | PList items => JArr (map to_json items)
  | PDict items => JObj (map (fun kv => (fst kv, to_json (snd kv))) items)
  end.

(** The number of values in [v], counting each element and member twice. *)
Fixpoint pyval_size (v : pyval) : nat :=
  match v with
  | PList items => S (sum_list (map (fun x => S (pyval_size x)) items))
  | PDict items => S (sum_list (map (fun kv => S (pyval_size (snd kv))) items))
  | _ => 1
  end.

(** Every string and key of [v] satisfies [text_ok]. *)
Fixpoint texts_ok (v : pyval) : bool :=
  match v with
  | PStr s => text_ok s
  | PList items => forallb texts_ok items
  | PDict items => forallb (fun kv => text_ok (fst kv) && texts_ok (snd kv)) items
  | _ => true
  end.

(** Induction on values, with the elements of lists and dictionaries. *)
Section pyval_induction.
Variable P : pyval -> Prop.
Hypothesis P_int : forall n, P (PInt n).
Hypothesis P_float : forall x, P (PFloat x).
Hypothesis P_str : forall s, P (PStr s).
Hypothesis P_list : forall items, Forall P items -> P (PList items).
Hypothesis P_dict :
  forall items, Forall (fun kv => P (snd kv)) items -> P (PDict items).

Fixpoint pyval_induction (v : pyval) : P v :=
  match v with
  | PInt n => P_int n
  | PFloat x => P_float x
  | PStr s => P_str s
  | PList items =>
      P_list items
        ((fix all (l : list pyval) : Forall P l :=
            match l with
            | [] => @List.Forall_nil _ P
            | x :: l' => @List.Forall_cons _ P x l' (pyval_induction x) (all l')
            end) items)
  | PDict items =>
      P_dict items
        ((fix all (l : list (str * pyval)) : Forall (fun kv => P (snd kv)) l :=
            match l with
            | [] => @List.Forall_nil _ (fun kv => P (snd kv))
            | kv :: l' =>
                @List.Forall_cons _ (fun kv => P (snd kv)) kv l'
                                  (pyval_induction (snd kv)) (all l')
            end) items)
  end.

End pyval_induction.

(** ** Characters of the output *)

(** A printable ASCII character or a newline. *)
Definition is_plain (c : N) : bool :=
  ((c =? 10) || ((32 <=? c) && (c <=? 126)))%N.

(** Any character but the escape character that starts a color code. *)
Definition not_esc (c : N) : bool := negb (c =? ESC)%N.

Section reading_back.
Context `{FloatRepr}.

(** [v] reads back: with fuel for its size, the parser returns the
    document of [v] from the text of [v], whatever follows. *)
Definition reads_back (indent : nat) (v : pyval) : Prop :=
  texts_ok v = true ->
  forall level fuel rest,
    pyval_size v <= fuel -> stops number_char rest ->
    parse_value fuel (encode indent level v ++ rest) = Some (to_json v, rest).

(** The text of one member of a dictionary. *)
Definition member_text (indent level : nat) (kv : str * pyval) : str :=
  encode_basestring_ascii (fst kv) ++ lit ": " ++ encode indent level (snd kv).

End reading_back.

(** A segment of a path on disk holds no slash. *)
Definition slash_free (seg : str) : Prop := 47%N ∉ seg.

(** ** The hasher as [hash_file] drives it *)

(** A [hashlib.sha256()] object: its state when created, [update] and
    [hexdigest]. *)
Class StreamHasher := {
  sha_state : Type;
  sha_new : sha_state;
  sha_update : sha_state -> list byte -> sha_state;
  sha_hexdigest : sha_state -> str
}.

(** What [hashlib] documents of [update]: repeated calls are equivalent to
    a single call with the concatenation of the arguments. *)
Definition update_concatenates `{StreamHasher} : Prop :=
  (forall s, sha_update s [] = s)
  /\ forall s a b, sha_update (sha_update s a) b = sha_update s (a ++ b).

(** The digest of [content] handed to [update] in one piece. *)
Definition one_shot `{StreamHasher} : Hasher :=
  fun content => sha_hexdigest (sha_update sha_new content).

Definition CHUNK_SIZE : nat := N.to_nat 65536.

(** [iter(lambda: handle.read(size), b"")] on a handle with [rest] still
    unread: each call of [read] returns up to [size] bytes and moves the
    handle past them; the iterator ends at the first empty chunk. *)
Function read_chunks (size : nat) (rest : list byte) {measure length rest}
  : list (list byte) :=
  match take size rest with
  | [] => []
  | b :: chunk => (b :: chunk) :: read_chunks size (drop size rest)
  end.
Proof.
  intros size rest b chunk Heq. rewrite length_drop.
  assert (0 < length (take size rest)) as Hlen by (rewrite Heq; simpl; lia).
  rewrite length_take in Hlen. lia.
Defined.

(** [hash_file] as written: the file is opened, [update] is called on
    each chunk in turn, and the digest of the final state is returned. *)
Definition hash_file_chunked `{StreamHasher} (fs : filesystem) (p : path)
  : run str :=
  match fs_files fs !! p with
  | Some content =>
      emit (EvRead p);;
      ret (sha_hexdigest
             (foldl sha_update sha_new (read_chunks CHUNK_SIZE content)))
  | None => raise (OSError p)
  end.

(** A stand-in for running the model: the state is the bytes seen so far. *)
Definition buffer_hasher : StreamHasher :=
  {| sha_state := list byte;
     sha_new := [];
     sha_update := fun s chunk => s ++ chunk;
     sha_hexdigest := fun s => Byte.to_N <$> s |}.

(** ** The reads of the comparison *)

(** The reads that one relative path costs: both files are read when both
    trees hold the path, none otherwise. *)
Definition reads_of (fs : filesystem) (root_assets template_assets k : path)
  : list event :=
  match tree_file fs root_assets k, tree_file fs template_assets k with
  | Some _, Some _ => [EvRead (root_assets ++ k); EvRead (template_assets ++ k)]
  | _, _ => []
  end.

(** ** The two directories trading places *)

(** The status of a path when root and template trade places. *)
Definition swap_status (st : status) : status :=
  match st with
  | missing => additional
  | additional => missing
  | identical => identical
  | different => different
  end.

Definition swap_entry (e : entry) : entry :=
  {| e_status := swap_status (e_status e); e_path := e_path e |}.

Definition swap_counts (c : counts) : counts :=
  {| n_identical := n_identical c; n_missing := n_additional c;
     n_different := n_different c; n_additional := n_missing c |}.

(** ** Line breaks *)

(** Any character but the line break. *)
Definition not_newline (c : N) : bool := negb (c =? 10)%N.

(** [s] holds no line break. *)
Definition single_line (s : str) : bool := forallb not_newline s.

(** ** More sample data *)

(** [-f json --input /pack/assets --template /tpl/assets --report out/report.json] *)
Definition json_to_file : arguments :=
  {| given_root := None; given_template := None;
     given_format := Some format_json;
     given_input := Some (absolute pack_assets);
     given_template_path := Some (absolute tpl_assets);
     given_report_file := Some (relative [lit "out"; lit "report.json"]) |}.

(** [--input /nowhere --template /nowhere] *)
Definition nowhere_arguments : arguments :=
  {| given_root := None; given_template := None; given_format := None;
     given_input := Some (absolute [lit "nowhere"]);
     given_template_path := Some (absolute [lit "nowhere"]);
     given_report_file := None |}.

(** ** Reading the text report *)









(** ** Runs in which an operation can fail *)

(** The operating system can refuse an operation of the run: a file that
    cannot be opened or read, a directory that cannot be created, a file
    that cannot be opened for writing, an output stream that is closed or
    cannot encode the text.  [refuses ev] is the exception that the
    operation [ev] then raises; it is [None] when the operation goes
    through. *)
Class System := refuses : event -> option exn.

(** An operation that the system can refuse. *)
Definition attempt `{System} (ev : event) : run unit :=
  match refuses ev with
  | Some e => raise e
  | None => emit ev
  end.

(** A code point that UTF-8 cannot encode: a surrogate. *)
Definition is_surrogate (c : N) : bool := ((55296 <=? c) && (c <=? 57343))%N.

(** [text.encode("utf-8")] succeeds. *)
Definition utf8_encodable (text : str) : bool :=
  forallb (fun c => negb (is_surrogate c)) text.

(** The places that the system passes on the way to [p]: where each
    non-empty prefix of its segments leads from [cwd]. *)
Definition way_to (cwd : path) (p : Path) : list path :=
  (fun n => resolve cwd {| is_absolute := is_absolute p;
                           segments := take n (segments p) |})
    <$> seq 1 (length (segments p)).

Module IO.
Section faithful.
Context `{System} `{Hasher} `{FloatRepr}.

(** [hash_file]: [open] raises when the path is no file or the file
    cannot be opened or read. *)
Definition hash_file (fs : filesystem) (p : path) : run str :=
  match fs_files fs !! p with
  | Some content => attempt (EvRead p);; mret (sha256_hexdigest content)
  | None => raise (OSError p)
  end.

Definition classify (fs : filesystem) (root_file template_file : option path)
  : run status :=
  match root_file, template_file with
  | Some r, Some t =>
      hr ← hash_file fs r;
      ht ← hash_file fs t;
      mret (if decide (hr = ht) then identical else different)
  | None, Some _ => mret missing
  | _, _ => mret additional
  end.

Definition compare_step (fs : filesystem) (root_map template_map : gmap path path)
    (acc : counts * list entry) (rel_path : path) : run (counts * list entry) :=
  let '(cnts, results) := acc in
  st ← classify fs (root_map !! rel_path) (template_map !! rel_path);
  mret (counts_incr st cnts,
        results ++ [Build_entry st (str_of_relpath rel_path)]).

Definition compare_assets (fs : filesystem) (root_assets template_assets : path)
  : run report :=
  let root_files := gather_files fs root_assets in
  let template_files := gather_files fs template_assets in
  root_map ← relative_map root_assets root_files;
  template_map ← relative_map template_assets template_files;
  let all_paths :=
    merge_sort path_le (elements (dom root_map ∪ dom template_map)) in
  acc ← for_each all_paths (compare_step fs root_map template_map)
                 (counts_zero, []);
  let '(cnts, results) := acc in
  let total := sum_list (counts_values cnts) in
  let identical_ratio := percent_or float_100 (n_identical cnts) total in
  mret {| r_total := total; r_counts := cnts;
          r_identical_ratio := identical_ratio; r_results := results |}.

(** [p.mkdir(parents=True, exist_ok=True)]: missing directories are
    created and existing ones are left alone; a regular file on the way
    to [p], or at [p] itself, makes it raise. *)
Definition mkdir (w : world) (p : Path) : run unit :=
  match list_find (fun q => is_Some (fs_files (w_fs w) !! q))
                  (way_to (w_cwd w) p) with
  | Some (_, q) => raise (OSError q)
  | None => attempt (EvMkdir p)
  end.

(** [f.write_text(text, encoding="utf-8")]: the file is opened for
    writing, which raises when [f] is a directory or the system refuses;
    the open file is empty, and stays so when the text cannot be
    encoded. *)
Definition write_text (w : world) (f : Path) (text : str) : run unit :=
  if decide (resolve (w_cwd w) f ∈ fs_dirs (w_fs w)) then
    raise (OSError (resolve (w_cwd w) f))
  else
    match refuses (EvWriteText f text) with
    | Some e => raise e
    | None =>
        if utf8_encodable text then emit (EvWriteText f text)
        else emit (EvTruncate f);; raise (UnicodeEncodeError text)
    end.

Definition main (w : world) (a : arguments) : run unit :=
  let args := parse_args (w_cwd w) a in
  let '(root_assets, template_assets) := resolved_dirs (w_cwd w) args in
  if negb (path_exists (w_fs w) root_assets) then
    raise (SystemExit (lit "Root assets folder not found: "
                         ++ str_of_abspath root_assets))
  else if negb (path_exists (w_fs w) template_assets) then
    raise (SystemExit (lit "Template assets folder not found: "
                         ++ str_of_abspath template_assets))
  else
    rep ← compare_assets (w_fs w) root_assets template_assets;
    let output_text := render w args rep in
    match report_file args with
    | Some f =>
        mkdir w (parent f);;
        write_text w f (output_text ++ newline)
    | None => attempt (EvStdout (output_text ++ newline))
    end.

End faithful.
End IO.

(** A system that refuses nothing. *)
Definition willing : System := fun _ => None.

(** A system in which the files of [locked] cannot be read. *)
Definition locked_files (locked : list path) : System :=
  fun ev =>
    match ev with
    | EvRead p => if decide (p ∈ locked) then Some (OSError p) else None
    | _ => None
    end.

(** ** Runs cut short *)

Section cut.
Context `{System}.

(** The operations of a trace that go through, up to the first one that
    the system refuses, and the exception of that one. *)
Fixpoint cut (evs : list event) : list event * option exn :=
  match evs with
  | [] => ([], None)
  | ev :: rest =>
      match refuses ev with
      | Some e => ([], Some e)
      | None => let '(pre, r) := cut rest in (ev :: pre, r)
      end
  end.

(** The run [m] when the system can refuse its operations. *)
Definition under {A} (m : run A) : run A :=
  let '(pre, r) := cut (events m) in
  (pre, match r with Some e => inl e | None => outcome m end).

End cut.

(** The relative paths that both trees hold, in increasing order. *)
Definition shared_paths (fs : filesystem) (root_assets template_assets : path)
  : list path :=
  merge_sort path_le
    (elements (dom (tree fs root_assets) ∩ dom (tree fs template_assets))).

(** The reads of a comparison that no read stops. *)
Definition shared_reads (fs : filesystem) (root_assets template_assets : path)
  : list event :=
  shared_paths fs root_assets template_assets
    ≫= (fun k => [EvRead (root_assets ++ k); EvRead (template_assets ++ k)]).

Section delivery_defs.
Context `{System}.

(** The last step of [main]: the report goes to the file or to standard
    output. *)
Definition deliver (w : world) (args : namespace) (output_text : str) : run unit :=
  match report_file args with
  | Some f =>
      IO.mkdir w (parent f);;
      IO.write_text w f (output_text ++ newline)
  | None => attempt (EvStdout (output_text ++ newline))
  end.

(** What it takes to deliver [text]. *)
Definition deliverable (w : world) (args : namespace) (text : str) : Prop :=
  match report_file args with
  | Some f =>
      Forall (fun q => fs_files (w_fs w) !! q = None) (way_to (w_cwd w) (parent f))
      /\ refuses (EvMkdir (parent f)) = None
      /\ (resolve (w_cwd w) f ∉ fs_dirs (w_fs w))
      /\ refuses (EvWriteText f text) = None
      /\ utf8_encodable text = true
  | None => refuses (EvStdout text) = None
  end.

End delivery_defs.

(** ** Sample data for runs that fail *)

(** A pack whose only file has a name with an undecodable byte, which
    Python reads as the lone surrogate U+DCFF, next to an empty
    template. *)
Definition surrogate_name : str := 56575%N :: lit ".txt".

Definition surrogate_fs : filesystem :=
  {| fs_files := {[ [lit "s"; lit "assets"; surrogate_name] := bytes_of "S" ]};
     fs_dirs := list_to_set [[]; [lit "s"]; [lit "s"; lit "assets"];
                             [lit "s"; lit "tpl"]] |}.

(** A process started in /s, not on a terminal. *)
Definition surrogate_world : world :=
  {| w_fs := surrogate_fs; w_cwd := [lit "s"]; w_isatty := false |}.

(** [--input /pack/assets --template /tpl/assets --report /pack/assets]:
    the report path is a directory. *)
Definition report_to_directory : arguments :=
  {| given_root := None; given_template := None; given_format := None;
     given_input := Some (absolute pack_assets);
     given_template_path := Some (absolute tpl_assets);
     given_report_file := Some (absolute pack_assets) |}.

(** * Properties *)

(** ** The order on paths *)

Section lex_order.
Context {A : Type} (cmp : A -> A -> comparison).
Hypothesis cmp_eq : forall x y, cmp x y = Eq <-> x = y.
Hypothesis cmp_opp : forall x y, cmp y x = CompOpp (cmp x y).
Hypothesis cmp_lt_trans :
  forall x y z, cmp x y = Lt -> cmp y z = Lt -> cmp x z = Lt.

Lemma lex_compare_eq xs ys : lex_compare cmp xs ys = Eq <-> xs = ys.
Proof.
  revert ys. induction xs as [|x xs IH]; intros [|y ys]; simpl; try done.
  destruct (cmp x y) eqn:E.
  - apply cmp_eq in E as ->. rewrite IH. split; congruence.
  - split; [done|]. intros [= -> _].
    assert (cmp y y = Eq) by (by apply cmp_eq). congruence.
  - split; [done|]. intros [= -> _].
    assert (cmp y y = Eq) by (by apply cmp_eq). congruence.
Qed.

Lemma lex_compare_opp xs ys :
  lex_compare cmp ys xs = CompOpp (lex_compare cmp xs ys).
Proof.
  revert ys. induction xs as [|x xs IH]; intros [|y ys]; simpl; try done.
  rewrite (cmp_opp x y). destruct (cmp x y); simpl; auto.
Qed.

Lemma lex_compare_lt_trans xs ys zs :
  lex_compare cmp xs ys = Lt -> lex_compare cmp ys zs = Lt ->
  lex_compare cmp xs zs = Lt.
Proof.
  revert ys zs. induction xs as [|x xs IH]; intros [|y ys] [|z zs]; simpl; try done.
  destruct (cmp x y) eqn:Exy; try done.
  - apply cmp_eq in Exy as ->. destruct (cmp y z); try done. apply IH.
  - intros _. destruct (cmp y z) eqn:Eyz; try done.
    + apply cmp_eq in Eyz as <-. by rewrite Exy.
    + by rewrite (cmp_lt_trans _ _ _ Exy Eyz).
Qed.

End lex_order.

Lemma str_compare_eq s t : str_compare s t = Eq <-> s = t.
Proof. apply lex_compare_eq, N.compare_eq_iff. Qed.

Lemma str_compare_opp s t : str_compare t s = CompOpp (str_compare s t).
Proof. apply lex_compare_opp. intros x y. apply N.compare_antisym. Qed.

Lemma str_compare_lt_trans s t u :
  str_compare s t = Lt -> str_compare t u = Lt -> str_compare s u = Lt.
Proof.
  apply lex_compare_lt_trans.
  - apply N.compare_eq_iff.
  - intros x y z. rewrite !N.compare_lt_iff. apply N.lt_trans.
Qed.

Lemma path_compare_eq p q : path_compare p q = Eq <-> p = q.
Proof. apply lex_compare_eq, str_compare_eq. Qed.

Lemma path_compare_opp p q : path_compare q p = CompOpp (path_compare p q).
Proof. apply lex_compare_opp, str_compare_opp. Qed.

Lemma path_lt_trans p q r : path_lt p q -> path_lt q r -> path_lt p r.
Proof.
  apply lex_compare_lt_trans.
  - apply str_compare_eq.
  - apply str_compare_lt_trans.
Qed.

Lemma path_lt_irrefl p : ~ path_lt p p.
Proof.
  unfold path_lt. assert (path_compare p p = Eq) by (by apply path_compare_eq).
  congruence.
Qed.

Lemma path_le_lt_or_eq p q : path_le p q <-> path_lt p q \/ p = q.
Proof.
  unfold path_le, path_lt. rewrite <-path_compare_eq.
  destruct (path_compare p q); split; intros Hc;
    first [by auto | by destruct Hc].
Qed.

Global Instance path_le_total : Total path_le.
Proof.
  intros p q. unfold path_le. rewrite (path_compare_opp p q).
  destruct (path_compare p q); simpl; auto.
Qed.

Global Instance path_le_trans : Transitive path_le.
Proof.
  intros p q r. rewrite !path_le_lt_or_eq.
  intros [Hpq|Hpq] [Hqr|Hqr]; subst; eauto using path_lt_trans.
Qed.

Global Instance path_le_antisym : AntiSymm (=) path_le.
Proof.
  intros p q. rewrite !path_le_lt_or_eq. intros [Hpq| ->] [Hqp|?]; try done.
  destruct (path_lt_irrefl p). eauto using path_lt_trans.
Qed.

(** A duplicate-free list sorted by [path_le] is strictly increasing. *)
Lemma sorted_le_NoDup_lt (ps : list path) :
  StronglySorted path_le ps -> NoDup ps -> StronglySorted path_lt ps.
Proof.
  induction 1 as [|p ps Hs IH Hall]; intros Hnd; [constructor|].
  apply NoDup_cons in Hnd as [Hp Hnd]. constructor; [auto|].
  rewrite Forall_forall in Hall |- *. intros q Hq.
  destruct (proj1 (path_le_lt_or_eq p q) (Hall q Hq)) as [?| ->]; done.
Qed.

Lemma sorted_lt_NoDup (ps : list path) : StronglySorted path_lt ps -> NoDup ps.
Proof.
  induction 1 as [|p ps Hs IH Hall]; constructor; [|done].
  intros Hp. rewrite Forall_forall in Hall.
  by destruct (path_lt_irrefl p); apply Hall.
Qed.

(** [sorted(s)] of a set: strictly increasing, with the set's elements. *)
Lemma sorted_elements_spec (s : gset path) :
  let ps := merge_sort path_le (elements s) in
  StronglySorted path_lt ps /\ (forall p, p ∈ ps <-> p ∈ s).
Proof.
  simpl. split.
  - apply sorted_le_NoDup_lt; [apply StronglySorted_merge_sort; apply _|].
    rewrite merge_sort_Permutation. apply NoDup_elements.
  - intros p. rewrite merge_sort_Permutation. apply elem_of_elements.
Qed.

(** ** Tree walker *)

Lemma relative_to_Some base p k : relative_to base p = Some k <-> p = base ++ k.
Proof.
  revert p. induction base as [|b base IH]; intros p; simpl.
  - split; congruence.
  - destruct p as [|s p]; [done|]. case_decide as Hb.
    + subst. rewrite IH. split; [by intros ->|by intros [= ->]].
    + split; [done|]. by intros [= ? _].
Qed.

Lemma is_under_spec base p :
  is_under base p = true <-> exists k, k <> [] /\ p = base ++ k.
Proof.
  unfold is_under. destruct (relative_to base p) as [k|] eqn:E.
  - apply relative_to_Some in E as ->. destruct k as [|s k].
    + split; [done|]. intros (k & Hk & E). rewrite app_nil_r in E.
      destruct k; [done|]. apply (f_equal length) in E.
      rewrite length_app in E. simpl in E. lia.
    + split; [|done]. intros _. by exists (s :: k).
  - split; [done|]. intros (k & _ & ->).
    assert (relative_to base (base ++ k) = Some k) by (by apply relative_to_Some).
    congruence.
Qed.

Lemma elem_of_gather_files fs base p :
  p ∈ gather_files fs base <->
  is_under base p = true /\ is_Some (fs_files fs !! p).
Proof.
  unfold gather_files. rewrite merge_sort_Permutation, list_elem_of_filter.
  by rewrite elem_of_elements, elem_of_dom.
Qed.

Lemma gather_files_tree fs base k :
  base ++ k ∈ gather_files fs base <-> in_tree fs base k.
Proof.
  rewrite elem_of_gather_files, is_under_spec. unfold in_tree, tree_file.
  split.
  - intros [(k' & Hk' & E) Hsome]. apply app_inv_head in E as ->.
    by destruct k'.
  - intros Hsome. destruct k as [|s k]; [by destruct Hsome|].
    split; [by exists (s :: k)|done].
Qed.

(** ** The effect monad *)

Lemma bind_value {A B} evs (a : A) (f : A -> run B) :
  (evs, inr a) ≫= f = (evs ++ fst (f a), snd (f a)).
Proof. unfold mbind, run_bind, bind. by destruct (f a). Qed.

Lemma bind_exception {A B} evs e (f : A -> run B) :
  ((evs, inl e) : run A) ≫= f = (evs, inl e).
Proof. done. Qed.

Lemma mret_value {A} (a : A) : (mret a : run A) = ([], inr a).
Proof. done. Qed.

(** ** The maps from relative path to file *)

Lemma relative_map_loop (base : path) (files : list path) (m0 : gmap path path) :
  Forall (fun p => is_under base p = true) files ->
  exists m,
    for_each files
      (fun m p =>
         match relative_to base p with
         | Some k => mret (<[k := p]> m)
         | None => raise (ValueError p)
         end) m0 = ([], inr m)
    /\ forall k, m !! k = if decide (base ++ k ∈ files) then Some (base ++ k)
                          else m0 !! k.
Proof.
  intros Hall. revert m0.
  induction Hall as [|p files Hp Hfiles IH]; intros m0; cbn [for_each].
  - exists m0. split; [done|]. intros k.
    destruct (decide (base ++ k ∈ [])) as [Hk|Hk]; [|done].
    by apply elem_of_nil in Hk.
  - apply is_under_spec in Hp as (kp & _ & ->).
    assert (relative_to base (base ++ kp) = Some kp) as ->
      by (by apply relative_to_Some).
    rewrite mret_value, bind_value. cbn beta.
    destruct (IH (<[kp := base ++ kp]> m0)) as (m & Hrun & Hm).
    exists m. split.
    { cbn [app]. rewrite <-surjective_pairing. exact Hrun. }
    intros k. rewrite Hm.
    destruct (decide (base ++ k ∈ files)) as [Hin|Hin].
    + rewrite decide_True; [done|by right].
    + destruct (decide (k = kp)) as [->|Hne].
      * rewrite lookup_insert_eq, decide_True; [done|by left].
      * rewrite lookup_insert_ne by done. rewrite decide_False; [done|].
        intros [E|?]%elem_of_cons; [|done]. by apply app_inv_head in E.
Qed.

Lemma relative_map_gather fs base :
  exists m,
    relative_map base (gather_files fs base) = ([], inr m)
    /\ forall k, m !! k = (fun _ => base ++ k) <$> tree_file fs base k.
Proof.
  destruct (relative_map_loop base (gather_files fs base) ∅) as (m & Hrun & Hm).
  { apply Forall_forall. intros p Hp. by apply elem_of_gather_files in Hp as [? _]. }
  exists m. split; [done|]. intros k. rewrite Hm, lookup_empty.
  case_decide as Hk.
  - apply gather_files_tree in Hk as [c Hc]. by rewrite Hc.
  - destruct (tree_file fs base k) as [c|] eqn:Hc; [|done].
    destruct Hk. apply gather_files_tree. by exists c.
Qed.

Lemma bind_runs {A B} (m : run A) (f : A -> run B) evs a evs' r :
  m = (evs, inr a) -> f a = (evs', r) -> m ≫= f = (evs ++ evs', r).
Proof. intros -> Hf. by rewrite bind_value, Hf. Qed.

Lemma bind_runs_to {A B} (m : run A) (f : A -> run B) evs a evs' evs'' r :
  m = (evs, inr a) -> f a = (evs', r) -> evs'' = evs ++ evs' ->
  m ≫= f = (evs'', r).
Proof. intros -> Hf ->. by rewrite bind_value, Hf. Qed.

(** ** Differ *)

Section differ.
Context `{Hasher}.

Lemma hash_file_run fs p content :
  fs_files fs !! p = Some content ->
  hash_file fs p = ([EvRead p], inr (sha256_hexdigest content)).
Proof. unfold hash_file. by intros ->. Qed.

Lemma tree_file_lookup fs base k content :
  tree_file fs base k = Some content -> fs_files fs !! (base ++ k) = Some content.
Proof. by destruct k. Qed.

(** The status the loop body computes is the one the rule names. *)
Lemma classify_tree (fs : filesystem) (root_assets template_assets k : path) :
  in_tree fs root_assets k \/ in_tree fs template_assets k ->
  exists evs st,
    classify fs ((fun _ => root_assets ++ k) <$> tree_file fs root_assets k)
                ((fun _ => template_assets ++ k) <$> tree_file fs template_assets k)
      = (evs, inr st)
    /\ status_rule (tree_file fs root_assets k) (tree_file fs template_assets k)
        = Some st.
Proof.
  unfold in_tree. intros Hin.
  destruct (tree_file fs root_assets k) as [a|] eqn:Ha;
    destruct (tree_file fs template_assets k) as [b|] eqn:Hb; simpl.
  - apply tree_file_lookup in Ha, Hb.
    rewrite (hash_file_run _ _ _ Ha), (hash_file_run _ _ _ Hb).
    rewrite !bind_value. simpl. eauto.
  - eauto.
  - eauto.
  - destruct Hin as [[? ?]|[? ?]]; done.
Qed.

Lemma count_status_app st es1 es2 :
  count_status st (es1 ++ es2) = count_status st es1 + count_status st es2.
Proof. unfold count_status. by rewrite filter_app, length_app. Qed.

Lemma counts_get_incr c st st' :
  counts_get (counts_incr st c) st' =
  counts_get c st' + (if decide (st = st') then 1 else 0).
Proof. destruct st, st'; simpl; lia. Qed.

Lemma count_status_singleton st e :
  count_status st [e] = if decide (e_status e = st) then 1 else 0.
Proof.
  unfold count_status. rewrite filter_cons, filter_nil.
  by destruct (decide (e_status e = st)).
Qed.

Lemma compare_loop (fs : filesystem) (root_assets template_assets : path)
    (root_map template_map : gmap path path) (ps : list path)
    (cnts : counts) (rs : list entry) :
  (forall k, root_map !! k =
             (fun _ => root_assets ++ k) <$> tree_file fs root_assets k) ->
  (forall k, template_map !! k =
             (fun _ => template_assets ++ k) <$> tree_file fs template_assets k) ->
  Forall (fun k => in_tree fs root_assets k \/ in_tree fs template_assets k) ps ->
  exists evs cnts' es,
    for_each ps (compare_step fs root_map template_map) (cnts, rs)
      = (evs, inr (cnts', rs ++ es))
    /\ Forall2 (fun e k =>
                  e_path e = str_of_relpath k
                  /\ status_rule (tree_file fs root_assets k)
                                 (tree_file fs template_assets k)
                     = Some (e_status e)) es ps
    /\ forall st, counts_get cnts' st = counts_get cnts st + count_status st es.
Proof.
  intros Hroot Htpl Hall. revert cnts rs.
  induction Hall as [|k ps Hk Hps IH]; intros cnts rs; cbn [for_each].
  - exists [], cnts, []. rewrite app_nil_r. split_and!; [done|constructor|].
    intros st. unfold count_status. simpl. lia.
  - destruct (classify_tree _ _ _ _ Hk) as (evs1 & st & Hcl & Hrule).
    destruct (IH (counts_incr st cnts)
                 (rs ++ [Build_entry st (str_of_relpath k)]))
      as (evs2 & cnts' & es & Hrun & Hes & Hcnt).
    eexists _, cnts', (Build_entry st (str_of_relpath k) :: es).
    split_and!.
    + eapply bind_runs.
      * unfold compare_step. rewrite Hroot, Htpl.
        eapply bind_runs; [exact Hcl|]. by rewrite mret_value.
      * rewrite Hrun. by rewrite <-app_assoc.
    + by constructor.
    + intros st'. rewrite Hcnt, counts_get_incr.
      change (?e :: es) with ([e] ++ es).
      rewrite count_status_app, count_status_singleton. simpl. lia.
Qed.

End differ.

(** ** Trees *)

Lemma elem_of_tree_entries (fs : filesystem) (base k : path) (c : list byte) :
  (k, c) ∈ omap (tree_entry base) (map_to_list (fs_files fs)) <->
  tree_file fs base k = Some c.
Proof.
  rewrite list_elem_of_omap. split.
  - intros ([p c'] & Hin & He). apply elem_of_map_to_list in Hin.
    unfold tree_entry in He. simpl in He.
    destruct (relative_to base p) as [[|s k']|] eqn:Hrel; try done.
    apply relative_to_Some in Hrel as ->. by injection He as <- <-.
  - intros Hk. destruct k as [|s k]; [done|]. simpl in Hk.
    exists (base ++ s :: k, c). split; [by apply elem_of_map_to_list|].
    unfold tree_entry. simpl.
    by assert (relative_to base (base ++ s :: k) = Some (s :: k)) as ->
      by (by apply relative_to_Some).
Qed.

Lemma tree_lookup (fs : filesystem) (base k : path) :
  tree fs base !! k = tree_file fs base k.
Proof.
  unfold tree. destruct (tree_file fs base k) as [c|] eqn:Hk.
  - apply elem_of_list_to_map_1'; [|by apply elem_of_tree_entries].
    intros y Hy%elem_of_tree_entries. congruence.
  - apply not_elem_of_list_to_map_1. intros Hin.
    apply list_elem_of_fmap in Hin as ([k' c] & -> & Hin).
    apply elem_of_tree_entries in Hin. simpl in Hk. congruence.
Qed.

Lemma elem_of_dom_tree (fs : filesystem) (base k : path) :
  k ∈ dom (tree fs base) <-> in_tree fs base k.
Proof. by rewrite elem_of_dom, tree_lookup. Qed.

(** ** The comparison as a whole *)

Section comparison.
Context `{Hasher}.

(** [compare_assets] always returns: the entries follow the sorted union
    of the two trees, and the counts tally the entries. *)
Lemma compare_assets_run (fs : filesystem) (root_assets template_assets : path) :
  exists evs cnts es ps,
    compare_assets fs root_assets template_assets = (evs, inr (report_of cnts es))
    /\ StronglySorted path_lt ps
    /\ (forall k, k ∈ ps <->
                  k ∈ dom (tree fs root_assets) ∪ dom (tree fs template_assets))
    /\ Forall2 (entry_follows_rule (tree fs root_assets) (tree fs template_assets))
               es ps
    /\ (forall st, counts_get cnts st = count_status st es).
Proof.
  destruct (relative_map_gather fs root_assets) as (rm & Hrm & Hrm_lookup).
  destruct (relative_map_gather fs template_assets) as (tm & Htm & Htm_lookup).
  pose (ps := merge_sort path_le (elements (dom rm ∪ dom tm))).
  destruct (sorted_elements_spec (dom rm ∪ dom tm)) as [Hsorted Hmem].
  assert (forall k, k ∈ ps <->
            in_tree fs root_assets k \/ in_tree fs template_assets k) as Hps.
  { intros k. unfold ps. rewrite Hmem, elem_of_union, !elem_of_dom.
    rewrite Hrm_lookup, Htm_lookup, !fmap_is_Some. done. }
  destruct (compare_loop fs root_assets template_assets rm tm ps counts_zero [])
    as (evs & cnts & es & Hloop & Hes & Hcnt); [done|done| |].
  { apply Forall_forall. intros k Hk. by apply Hps. }
  exists evs, cnts, es, ps. split_and!.
  - unfold compare_assets.
    eapply bind_runs_to; [exact Hrm| |reflexivity].
    eapply bind_runs_to; [exact Htm| |reflexivity].
    eapply bind_runs_to; [exact Hloop|reflexivity|].
    by rewrite app_nil_r.
  - done.
  - intros k. by rewrite Hps, elem_of_union, !elem_of_dom_tree.
  - eapply Forall2_impl; [exact Hes|]. intros e k [? ?].
    split; [done|]. by rewrite !tree_lookup.
  - intros st. rewrite Hcnt. by destruct st.
Qed.

End comparison.

(** ** Floats *)

Lemma div_eucl_div_mod (a b : Z) : Z.div_eucl a b = ((a / b)%Z, (a mod b)%Z).
Proof. unfold Z.div, Z.modulo. by destruct (Z.div_eucl a b). Qed.

(** An integer divided by itself is exactly [1.0]. *)
Lemma int_truediv_self (p : positive) :
  int_truediv (Npos p) p = S754_finite false 4503599627370496 (-52).
Proof.
  unfold int_truediv, SFdiv_core_binary. cbn [Zdigits2].
  replace (Z.sub (Z.add (Zpos (digits2_pos p)) 0) (Z.add (Zpos (digits2_pos p)) 0))
    with 0%Z by lia.
  change (Z.min (fexp prec emax 0) (0 - 0)) with (-53)%Z.
  change (0 - 0 - -53)%Z with 53%Z. cbv iota beta.
  rewrite Z.shiftl_mul_pow2 by lia.
  rewrite div_eucl_div_mod.
  rewrite Z.mul_comm, Z.div_mul, Z.mod_mul by lia.
  assert (new_location (Z.pos p) 0 = loc_Exact) as ->.
  { unfold new_location. by destruct (Z.even (Z.pos p)). }
  by vm_compute.
Qed.

(** A total that equals the count gives [100.0]. *)
Lemma percent_or_all (dflt : float) (n : nat) :
  n <> 0 -> percent_or dflt n n = float_100.
Proof.
  intros Hn. unfold percent_or. destruct (N.of_nat n) as [|p] eqn:E; [lia|].
  rewrite int_truediv_self. by vm_compute.
Qed.

Lemma percent_or_zero (dflt : float) (n : nat) : percent_or dflt n 0 = dflt.
Proof. done. Qed.

(** ** Counting *)

Lemma count_status_total (es : list entry) :
  count_status identical es + count_status missing es
    + count_status different es + count_status additional es = length es.
Proof.
  induction es as [|e es IH]; [done|].
  change (e :: es) with ([e] ++ es).
  rewrite !count_status_app, !count_status_singleton, length_app. simpl.
  destruct (e_status e); simpl; lia.
Qed.

Lemma counts_values_total (cnts : counts) (es : list entry) :
  (forall st, counts_get cnts st = count_status st es) ->
  sum_list (counts_values cnts) = length es.
Proof.
  intros Hc. rewrite <-(count_status_total es), <-!Hc. simpl. lia.
Qed.

Lemma counts_ext (c1 c2 : counts) :
  (forall st, counts_get c1 st = counts_get c2 st) -> c1 = c2.
Proof.
  intros Hc. destruct c1, c2.
  pose proof (Hc identical). pose proof (Hc missing).
  pose proof (Hc different). pose proof (Hc additional). simpl in *. congruence.
Qed.

(** ** Uniqueness of the sorted union and of the entries *)

Lemma strictly_sorted_ext (l1 l2 : list path) :
  StronglySorted path_lt l1 -> StronglySorted path_lt l2 ->
  (forall k, k ∈ l1 <-> k ∈ l2) -> l1 = l2.
Proof.
  intros H1 H2 Hmem.
  apply (StronglySorted_unique_strong path_lt); [|done|done|].
  - intros x y _ _ Hxy Hyx. destruct (path_lt_irrefl x).
    eauto using path_lt_trans.
  - apply NoDup_Permutation; auto using sorted_lt_NoDup.
Qed.

Lemma entries_unique `{Hasher} (rt tt : gmap path (list byte))
    (es1 es2 : list entry) (ps : list path) :
  Forall2 (entry_follows_rule rt tt) es1 ps ->
  Forall2 (entry_follows_rule rt tt) es2 ps -> es1 = es2.
Proof.
  intros H1. revert es2.
  induction H1 as [|e1 k es1 ps [Hp1 Hs1] _ IH]; intros es2 H2.
  - by apply Forall2_nil_inv_r in H2.
  - apply Forall2_cons_inv_r in H2 as (e2 & es2' & [Hp2 Hs2] & H2 & ->).
    f_equal; [|by apply IH].
    destruct e1, e2. simpl in *. congruence.
Qed.

(** ** Paths and their strings *)

Lemma join_cons_cons (sep a b : str) (l : list str) :
  join sep (a :: b :: l) = a ++ sep ++ join sep (b :: l).
Proof. done. Qed.

Lemma slash_split (x y r r' : str) :
  slash_free x -> slash_free y ->
  x ++ 47%N :: r = y ++ 47%N :: r' -> x = y /\ r = r'.
Proof.
  unfold slash_free. revert y.
  induction x as [|a x IH]; intros [|b y] Hx Hy; simpl.
  - by intros [= ->].
  - intros [= <- _]. destruct Hy. by left.
  - intros [= -> _]. destruct Hx. by left.
  - intros [= -> Heq]. destruct (IH y) as [-> ->]; [| |done|done].
    + intros Hin. apply Hx. by right.
    + intros Hin. apply Hy. by right.
Qed.

Lemma slash_free_whole (x y r : str) :
  slash_free x -> x <> y ++ 47%N :: r.
Proof.
  unfold slash_free. intros Hx ->. apply Hx.
  apply elem_of_app. right. by left.
Qed.

(** Distinct relative paths have distinct strings. *)
Lemma join_slash_inj (p q : path) :
  p <> [] -> q <> [] -> Forall slash_free p -> Forall slash_free q ->
  join slash p = join slash q -> p = q.
Proof.
  revert q. induction p as [|x p IH]; [done|]. intros [|y q]; [done|].
  intros _ _ [Hx Hp]%Forall_cons [Hy Hq]%Forall_cons.
  destruct p as [|x' p], q as [|y' q].
  - simpl. by intros ->.
  - rewrite join_cons_cons. simpl. intros Heq.
    by apply slash_free_whole in Heq.
  - rewrite join_cons_cons. simpl. intros Heq. symmetry in Heq.
    by apply slash_free_whole in Heq.
  - rewrite !join_cons_cons. change (slash ++ ?r) with (47%N :: r).
    intros [-> Heq]%slash_split; [|done|done]. f_equal. by apply IH.
Qed.

Lemma str_of_relpath_inj (p q : path) :
  p <> [] -> q <> [] -> Forall slash_free p -> Forall slash_free q ->
  str_of_relpath p = str_of_relpath q -> p = q.
Proof.
  intros Hp Hq. destruct p, q; try done. by apply join_slash_inj.
Qed.

(** ** The claims about the comparison *)

Section comparison_claims.
Context `{Hasher}.

Lemma entries_paths (rt tt : gmap path (list byte)) (es : list entry)
    (ps : list path) :
  Forall2 (entry_follows_rule rt tt) es ps ->
  e_path <$> es = str_of_relpath <$> ps.
Proof.
  induction 1 as [|e k es ps [Hp _] _ IH]; [done|].
  by rewrite !fmap_cons, Hp, IH.
Qed.

Lemma in_tree_nonempty (fs : filesystem) (base k : path) :
  k ∈ dom (tree fs base) -> k <> [].
Proof. intros [c Hc]%elem_of_dom_tree ->. done. Qed.

(** C1.  For every file system and every pair of base directories,
    [compare_assets] returns a report whose entries correspond, one to one
    and in order, to a strictly increasing list of relative paths whose
    elements are exactly the union of the two trees' path sets; each entry
    carries its path's string and the status of the four-way rule (both
    with equal hashes: identical; both with differing hashes: different;
    template only: missing; root only: additional).  The order is the
    lexicographic order of the paths' segment sequences.  As no segment
    of a path on disk holds a slash, no two entries carry the same path
    string. *)
Theorem compare_assets_results (fs : filesystem) (root_assets template_assets : path) :
  exists evs rep ps,
    compare_assets fs root_assets template_assets = (evs, inr rep)
    /\ StronglySorted path_lt ps
    /\ (forall k, k ∈ ps <->
                  k ∈ dom (tree fs root_assets) ∪ dom (tree fs template_assets))
    /\ Forall2 (entry_follows_rule (tree fs root_assets) (tree fs template_assets))
               (r_results rep) ps
    /\ ((forall k, k ∈ ps -> Forall slash_free k) ->
        NoDup (e_path <$> r_results rep)).
Proof.
  destruct (compare_assets_run fs root_assets template_assets)
    as (evs & cnts & es & ps & Hrun & Hsorted & Hmem & Hes & _).
  exists evs, (report_of cnts es), ps. split_and!; try done.
  intros Hsegments. cbn [r_results report_of].
  rewrite (entries_paths _ _ _ _ Hes).
  apply NoDup_fmap_2_strong; [|by apply sorted_lt_NoDup].
  intros p q Hp Hq. apply str_of_relpath_inj; auto.
  - apply Hmem in Hp. apply elem_of_union in Hp as [Hp|Hp];
      by eapply in_tree_nonempty.
  - apply Hmem in Hq. apply elem_of_union in Hq as [Hq|Hq];
      by eapply in_tree_nonempty.
Qed.

(** C9.  For every comparison, the four counts sum to the reported total,
    and the total is the number of entries. *)
Theorem counts_sum_to_total (fs : filesystem) (root_assets template_assets : path) :
  exists evs rep,
    compare_assets fs root_assets template_assets = (evs, inr rep)
    /\ n_identical (r_counts rep) + n_different (r_counts rep)
         + n_missing (r_counts rep) + n_additional (r_counts rep) = r_total rep
    /\ r_total rep = length (r_results rep).
Proof.
  destruct (compare_assets_run fs root_assets template_assets)
    as (evs & cnts & es & ps & Hrun & _ & _ & _ & Hcnt).
  exists evs, (report_of cnts es). split; [done|]. simpl. split; [lia|].
  by apply counts_values_total.
Qed.

Lemma all_identical_count (es : list entry) :
  Forall (fun e => e_status e = identical) es ->
  count_status identical es = length es.
Proof.
  induction 1 as [|e es He _ IH]; [done|].
  change (e :: es) with ([e] ++ es).
  rewrite count_status_app, count_status_singleton, IH, decide_True by done.
  by rewrite length_app.
Qed.

(** C2.  For every comparison, [identical_ratio] is [100.0] when the total
    is zero and otherwise the float [identical / total * 100]; it is
    [100.0] when both trees are empty, and [100.0] when the two trees hold
    the same files with the same bytes and are not empty. *)
Theorem identical_ratio_value (fs : filesystem) (root_assets template_assets : path) :
  exists evs rep,
    compare_assets fs root_assets template_assets = (evs, inr rep)
    /\ (r_total rep = 0 -> r_identical_ratio rep = float_of_int 100)
    /\ (forall t, N.of_nat (r_total rep) = Npos t ->
          r_identical_ratio rep
          = float_mul (int_truediv (N.of_nat (n_identical (r_counts rep))) t)
                      (float_of_int 100))
    /\ (tree fs root_assets = ∅ -> tree fs template_assets = ∅ ->
          r_identical_ratio rep = float_of_int 100)
    /\ (tree fs root_assets = tree fs template_assets ->
        tree fs root_assets <> ∅ ->
          r_identical_ratio rep = float_of_int 100).
Proof.
  destruct (compare_assets_run fs root_assets template_assets)
    as (evs & cnts & es & ps & Hrun & _ & Hmem & Hes & Hcnt).
  pose proof (counts_values_total _ _ Hcnt) as Htotal.
  pose proof (Forall2_length _ _ _ Hes) as Hlen.
  exists evs, (report_of cnts es). split; [done|].
  unfold report_of. cbn [r_total r_counts r_identical_ratio r_results].
  split_and!.
  - by intros ->.
  - intros t Ht. unfold percent_or. by rewrite Ht.
  - intros Hr Ht. rewrite Hr, Ht in Hmem.
    destruct ps as [|k ps].
    + destruct es; [|done]. by rewrite Htotal.
    + assert (k ∈ dom (∅ : gmap path (list byte))
                ∪ dom (∅ : gmap path (list byte))) as Hk by (apply Hmem; left).
      rewrite dom_empty_L in Hk.
      apply elem_of_union in Hk as [Hk|Hk]; by apply elem_of_empty in Hk.
  - intros Heq Hne. rewrite <-Heq in Hmem, Hes.
    assert (Forall (fun e => e_status e = identical) es) as Hall.
    { apply Forall_forall. intros e He.
      apply (list_elem_of_lookup_1 es) in He as [i Hi].
      destruct (Forall2_lookup_l _ _ _ _ _ Hes Hi) as (k & Hk & _ & Hrule).
      apply list_elem_of_lookup_2, Hmem in Hk.
      assert (is_Some (tree fs root_assets !! k)) as [c Hc].
      { apply elem_of_dom. by apply elem_of_union in Hk as [Hk|Hk]. }
      rewrite Hc in Hrule. simpl in Hrule. rewrite decide_True in Hrule by done.
      congruence. }
    assert (n_identical cnts = length es) as Hid.
    { rewrite <-(all_identical_count es Hall). apply (Hcnt identical). }
    rewrite Htotal, Hid. apply percent_or_all.
    apply map_choose in Hne as (k & c & Hk).
    assert (k ∈ ps) as Hin by (apply Hmem, elem_of_union_l, elem_of_dom; eauto).
    destruct ps; [by apply elem_of_nil in Hin|]. simpl in Hlen. lia.
Qed.

(** C7.  The report is a function of the two trees, that is of their
    relative paths and file contents: two runs on equal trees, in
    particular two runs on the same unchanged trees, return the same total,
    counts, ratio and ordered entries. *)
Theorem compare_assets_deterministic (fs1 fs2 : filesystem)
    (root1 template1 root2 template2 : path) :
  tree fs1 root1 = tree fs2 root2 ->
  tree fs1 template1 = tree fs2 template2 ->
  exists rep,
    outcome (compare_assets fs1 root1 template1) = inr rep
    /\ outcome (compare_assets fs2 root2 template2) = inr rep.
Proof.
  intros Hroot Htpl.
  destruct (compare_assets_run fs1 root1 template1)
    as (evs1 & cnts1 & es1 & ps1 & Hrun1 & Hs1 & Hm1 & He1 & Hc1).
  destruct (compare_assets_run fs2 root2 template2)
    as (evs2 & cnts2 & es2 & ps2 & Hrun2 & Hs2 & Hm2 & He2 & Hc2).
  rewrite Hroot, Htpl in Hm1, He1.
  assert (ps1 = ps2) as ->.
  { apply strictly_sorted_ext; [done..|]. intros k. by rewrite Hm1, Hm2. }
  assert (es1 = es2) as -> by eauto using entries_unique.
  assert (cnts1 = cnts2) as ->.
  { apply counts_ext. intros st. by rewrite Hc1, Hc2. }
  exists (report_of cnts2 es2). by rewrite Hrun1, Hrun2.
Qed.

End comparison_claims.

(** ** Entry point *)

Section entry_point_claims.
Context `{Hasher} `{FloatRepr}.

(** When both directories exist, [main] compares them, renders the report
    and delivers it. *)
Lemma main_success (w : world) (a : arguments) :
  let args := parse_args (w_cwd w) a in
  let dirs := resolved_dirs (w_cwd w) args in
  path_exists (w_fs w) (fst dirs) = true ->
  path_exists (w_fs w) (snd dirs) = true ->
  exists evs rep,
    compare_assets (w_fs w) (fst dirs) (snd dirs) = (evs, inr rep)
    /\ main w a = (evs ++ delivery args (render w args rep), inr tt).
Proof.
  intros args dirs Hroot Htpl.
  destruct (compare_assets_run (w_fs w) (fst dirs) (snd dirs))
    as (evs & cnts & es & ps & Hrun & _).
  exists evs, (report_of cnts es). split; [done|].
  unfold main. fold args. fold dirs.
  destruct dirs as [root_assets template_assets]. simpl in *.
  rewrite Hroot, Htpl. simpl.
  eapply bind_runs; [exact Hrun|]. unfold delivery.
  change (report_file args) with (given_report_file a).
  by destruct (given_report_file a).
Qed.

(** C3.  When the resolved root directory or the resolved template
    directory does not exist, [main] ends in [SystemExit] with a message
    that names a missing directory, the exit status is not zero, and no
    event happened at all: nothing was written to standard output or to a
    file, and no file was read, so the comparison did not run. *)
Theorem missing_directory_exits (w : world) (a : arguments) :
  let dirs := resolved_dirs (w_cwd w) (parse_args (w_cwd w) a) in
  path_exists (w_fs w) (fst dirs) = false \/ path_exists (w_fs w) (snd dirs) = false ->
  exists label missing,
    main w a = ([], inl (SystemExit (label ++ str_of_abspath missing)))
    /\ (missing = fst dirs \/ missing = snd dirs)
    /\ path_exists (w_fs w) missing = false
    /\ exit_status (main w a) <> 0
    /\ events (main w a) = [].
Proof.
  intros dirs Hmissing. unfold main, exit_status, events, outcome.
  fold dirs. destruct dirs as [root_assets template_assets]. simpl in Hmissing.
  destruct (path_exists (w_fs w) root_assets) eqn:Hroot; simpl.
  - destruct Hmissing as [?|Htpl]; [done|]. rewrite Htpl. simpl.
    exists (lit "Template assets folder not found: "), template_assets. auto.
  - exists (lit "Root assets folder not found: "), root_assets. auto.
Qed.

(** C6.  [main] compares the two resolved directories, and these are:
    for the root, [--input] when it is given, else the positional root,
    else ./assets; for the template, [--template] when it is given, else
    the positional template, else the fixed template path. *)
Theorem named_flags_take_precedence (w : world) (a : arguments) :
  let cwd := w_cwd w in
  let dirs := resolved_dirs cwd (parse_args cwd a) in
  (path_exists (w_fs w) (fst dirs) = true ->
   path_exists (w_fs w) (snd dirs) = true ->
   exists evs rep out,
     compare_assets (w_fs w) (fst dirs) (snd dirs) = (evs, inr rep)
     /\ main w a = (evs ++ out, inr tt))
  /\ (forall p, given_input a = Some p -> fst dirs = resolve cwd p)
  /\ (forall p, given_input a = None -> given_root a = Some p ->
                fst dirs = resolve cwd p)
  /\ (given_input a = None -> given_root a = None ->
        fst dirs = resolve cwd (joinpath (absolute cwd) (lit "assets")))
  /\ (forall p, given_template_path a = Some p -> snd dirs = resolve cwd p)
  /\ (forall p, given_template_path a = None -> given_template a = Some p ->
                snd dirs = resolve cwd p)
  /\ (given_template_path a = None -> given_template a = None ->
        snd dirs = resolve cwd
          (relative [lit ".packs"; lit "template-1.21.11"; lit "assets"])).
Proof.
  intros cwd dirs. split.
  { intros Hroot Htpl.
    destruct (main_success w a Hroot Htpl) as (evs & rep & Hrun & Hmain).
    eauto. }
  unfold dirs, resolved_dirs, parse_args. simpl.
  split_and!; intros; repeat match goal with Heq : _ = _ |- _ => rewrite Heq end;
    done.
Qed.

End entry_point_claims.

(** ** Text report *)

Lemma entry_line_layout (use_color : bool) (e : entry) :
  entry_line use_color e
  = paint use_color (e_status e) (entry_label (e_status e) ++ e_path e).
Proof.
  unfold entry_line, paint.
  destruct use_color, e as [[] p]; cbn [e_status e_path];
    rewrite ?app_nil_r; by vm_compute.
Qed.

Lemma summary_line_layout (use_color : bool) (r : report) (key : status) :
  summary_line use_color r key
  = paint use_color key (summary_title key) ++ lit ": "
      ++ str_of_nat (counts_get (r_counts r) key) ++ lit " files ("
      ++ format_2f (percent_or float_0 (counts_get (r_counts r) key) (r_total r))
      ++ lit "%)".
Proof.
  unfold summary_line, paint.
  assert (ljust 9 (title (status_name key)) = summary_title key) as ->
    by (by destruct key).
  destruct use_color; [|done]. by rewrite <-!app_assoc.
Qed.

(** C5, as the code has it.  The text report is the header line, one line
    per result entry, an empty line, the line "Summary:" and one line per
    status in the order identical, different, missing, additional, joined
    by newlines.  An entry line is the upper-case status in square
    brackets, left-justified to width 9 by spaces after it, then a space
    and the path; a summary line is the capitalised status, left-justified
    to width 9, then the count and the percentage.  With color, the whole
    entry line (label and path) and the title of a summary line are
    wrapped in the status's code and the reset code: yellow 33 for
    identical, green 32 for different, red 31 for missing, cyan 36 for
    additional. *)
Theorem text_report_layout (r : report) (use_color : bool) :
  build_text_report r use_color
  = join newline
      ([header_line r]
         ++ ((fun e => paint use_color (e_status e)
                         (entry_label (e_status e) ++ e_path e)) <$> r_results r)
         ++ [[]; lit "Summary:"]
         ++ ((fun st =>
                paint use_color st (summary_title st) ++ lit ": "
                  ++ str_of_nat (counts_get (r_counts r) st) ++ lit " files ("
                  ++ format_2f (percent_or float_0 (counts_get (r_counts r) st)
                                           (r_total r))
                  ++ lit "%)") <$> [identical; different; missing; additional]))
  /\ (forall st, entry_label st
                 = lit "[" ++ ljust 9 (upper (status_name st)) ++ lit "] ")
  /\ (forall st, summary_title st = ljust 9 (title (status_name st)))
  /\ (forall st s, paint true st s = COLORS st ++ s ++ COLOR_RESET)
  /\ (forall st s, paint false st s = s)
  /\ COLORS identical = ESC :: lit "[33m"
  /\ COLORS different = ESC :: lit "[32m"
  /\ COLORS missing = ESC :: lit "[31m"
  /\ COLORS additional = ESC :: lit "[36m"
  /\ COLOR_RESET = ESC :: lit "[0m".
Proof.
  split_and!; try done; try (by intros []).
  unfold build_text_report, text_lines. do 3 f_equal.
  - apply list_fmap_ext. intros _ e _. apply entry_line_layout.
  - f_equal. apply list_fmap_ext. intros _ st _. apply summary_line_layout.
Qed.

(** C5, as it is worded, fails: the line of a missing entry does not
    contain the status padded on the left. *)
Lemma entry_line_not_left_padded :
  ~ (forall (e : entry) (use_color : bool),
       contains (left_pad 9 (upper (status_name (e_status e))))
                (entry_line use_color e) = true).
Proof.
  intros Hall. specialize (Hall (Build_entry missing (lit "b.txt")) false).
  vm_compute in Hall. discriminate.
Qed.

(** C10.  When the union of the two trees is empty, the total is zero, the
    header line states 100.00 percent identical, and each of the four
    summary lines states 0.00 percent. *)
Theorem empty_union_percentages `{Hasher} (fs : filesystem)
    (root_assets template_assets : path) (use_color : bool) :
  dom (tree fs root_assets) ∪ dom (tree fs template_assets) = ∅ ->
  exists evs rep,
    compare_assets fs root_assets template_assets = (evs, inr rep)
    /\ r_total rep = 0
    /\ text_lines rep use_color
       = [lit "Compared 0 root files; 0 identical (100.00%).";
          [];
          lit "Summary:";
          paint use_color identical (lit "Identical") ++ lit ": 0 files (0.00%)";
          paint use_color different (lit "Different") ++ lit ": 0 files (0.00%)";
          paint use_color missing (lit "Missing  ") ++ lit ": 0 files (0.00%)";
          paint use_color additional (lit "Additional") ++ lit ": 0 files (0.00%)"].
Proof.
  intros Hempty.
  destruct (compare_assets_run fs root_assets template_assets)
    as (evs & cnts & es & ps & Hrun & _ & Hmem & Hes & Hcnt).
  assert (ps = []) as ->.
  { destruct ps as [|k ps]; [done|].
    assert (k ∈ (∅ : gset path)) as Hk by (rewrite <-Hempty; apply Hmem; left).
    by apply elem_of_empty in Hk. }
  apply Forall2_nil_inv_r in Hes as ->.
  assert (cnts = counts_zero) as ->.
  { apply counts_ext. intros st. rewrite Hcnt. by destruct st. }
  exists evs, (report_of counts_zero []). split; [done|]. split; [done|].
  by destruct use_color; vm_compute.
Qed.

(** ** Decimal numbers *)

Lemma fold_digits_from (a : N) (ds : str) :
  fold_left (fun acc d => acc * 10 + (d - 48))%N ds a
  = (a * 10 ^ N.of_nat (length ds) + digits_value ds)%N.
Proof.
  unfold digits_value. revert a.
  induction ds as [|d ds IH]; intros a; cbn [fold_left length].
  - simpl. lia.
  - rewrite IH, (IH (0 * 10 + (d - 48))%N), Nat2N.inj_succ, N.pow_succ_r'. lia.
Qed.

Lemma digits_value_cons (d : N) (ds : str) :
  digits_value (d :: ds)
  = ((d - 48) * 10 ^ N.of_nat (length ds) + digits_value ds)%N.
Proof. unfold digits_value at 1. cbn [fold_left]. by rewrite fold_digits_from. Qed.

Lemma is_digit_of_mod (n : N) : is_digit (48 + n mod 10) = true.
Proof.
  unfold is_digit. pose proof (N.mod_upper_bound n 10 ltac:(lia)) as Hd.
  revert Hd. generalize (n mod 10)%N. intros d Hd.
  apply andb_true_iff. split; apply N.leb_le; lia.
Qed.

Lemma digits_fuel_all_digits (fuel : nat) (n : N) (acc : str) :
  forallb is_digit acc = true -> forallb is_digit (digits_fuel fuel n acc) = true.
Proof.
  revert n acc. induction fuel as [|fuel IH]; intros n acc Hacc; [done|].
  cbn [digits_fuel]. destruct (n <? 10)%N.
  - cbn [forallb]. by rewrite is_digit_of_mod.
  - apply IH. cbn [forallb]. by rewrite is_digit_of_mod.
Qed.

Lemma digits_fuel_value (fuel : nat) (n : N) (acc : str) :
  (n < 2 ^ N.of_nat fuel)%N ->
  digits_value (digits_fuel fuel n acc)
  = (n * 10 ^ N.of_nat (length acc) + digits_value acc)%N.
Proof.
  revert n acc. induction fuel as [|fuel IH]; intros n acc Hn.
  - simpl in Hn. assert (n = 0%N) as -> by lia. simpl. lia.
  - cbn [digits_fuel]. rewrite Nat2N.inj_succ, N.pow_succ_r' in Hn.
    pose proof (N.mod_upper_bound n 10 ltac:(lia)) as Hr.
    pose proof (N.div_mod n 10 ltac:(lia)) as Hqr.
    destruct (N.ltb_spec n 10) as [Hlt|Hge].
    + rewrite digits_value_cons, N.mod_small by done.
      by replace (48 + n - 48)%N with n by lia.
    + rewrite IH by (apply N.Div0.div_lt_upper_bound; lia).
      rewrite digits_value_cons. cbn [length].
      rewrite Nat2N.inj_succ, N.pow_succ_r'.
      revert Hr Hqr.
      generalize (n mod 10)%N (n / 10)%N (10 ^ N.of_nat (length acc))%N.
      intros r q P Hr Hqr. rewrite Hqr.
      replace (48 + r - 48)%N with r by lia. ring.
Qed.

Lemma digits_fuel_head (fuel : nat) (n : N) (acc : str) :
  n <> 0%N -> (n < 2 ^ N.of_nat fuel)%N ->
  exists c rest,
    digits_fuel fuel n acc = c :: rest /\ is_digit c = true /\ c <> 48%N.
Proof.
  revert n acc. induction fuel as [|fuel IH]; intros n acc Hn0 Hn.
  - simpl in Hn. lia.
  - cbn [digits_fuel]. rewrite Nat2N.inj_succ, N.pow_succ_r' in Hn.
    destruct (N.ltb_spec n 10) as [Hlt|Hge].
    + eexists _, _. split; [done|]. split; [apply is_digit_of_mod|].
      rewrite N.mod_small by done. lia.
    + apply IH.
      * intros Hz. apply N.div_small_iff in Hz; lia.
      * apply N.Div0.div_lt_upper_bound; lia.
Qed.

Lemma str_of_N_fuel (n : N) : (n < 2 ^ N.of_nat (S (N.to_nat (N.log2 n))))%N.
Proof.
  rewrite Nat2N.inj_succ, N2Nat.id. destruct n as [|p]; [done|].
  apply N.log2_spec. lia.
Qed.

Lemma str_of_N_digits (n : N) : forallb is_digit (str_of_N n) = true.
Proof. by apply digits_fuel_all_digits. Qed.

Lemma str_of_N_value (n : N) : digits_value (str_of_N n) = n.
Proof.
  unfold str_of_N. rewrite digits_fuel_value by apply str_of_N_fuel.
  change (digits_value []) with 0%N.
  change (10 ^ N.of_nat (length (@nil N)))%N with 1%N. lia.
Qed.

Lemma str_of_N_head (n : N) :
  n <> 0%N ->
  exists c rest, str_of_N n = c :: rest /\ is_digit c = true /\ c <> 48%N.
Proof. intros Hn. by apply digits_fuel_head; [|apply str_of_N_fuel]. Qed.

(** [int(str(n)) == n] *)
Lemma nat_of_digits_str_of_nat (n : nat) : nat_of_digits (str_of_nat n) = Some n.
Proof.
  unfold nat_of_digits, str_of_nat.
  rewrite str_of_N_digits, str_of_N_value, Nat2N.id.
  destruct (str_of_N (N.of_nat n)) eqn:E; [|done].
  pose proof (str_of_N_value (N.of_nat n)) as Hv. rewrite E in Hv.
  change (digits_value []) with 0%N in Hv. destruct n; [done|]. lia.
Qed.

(** ** Scanning numbers *)

Lemma number_char_false (c : N) :
  number_char c = false ->
  is_digit c = false /\ (c =? 46)%N = false /\ (c =? 101)%N = false
  /\ (c =? 69)%N = false /\ (c =? 43)%N = false /\ (c =? 45)%N = false.
Proof. unfold number_char. rewrite !orb_false_iff. tauto. Qed.

Lemma stops_digit (rest : str) : stops number_char rest -> stops is_digit rest.
Proof. destruct rest as [|c rest]; [done|]. simpl. by intros []%number_char_false. Qed.

Lemma span_digits_app (s ds r rest : str) :
  span_digits s = (ds, r) -> stops is_digit rest ->
  span_digits (s ++ rest) = (ds, r ++ rest).
Proof.
  intros Hs Hrest. revert ds r Hs.
  induction s as [|c s IH]; intros ds r; simpl.
  - intros [= <- <-]. destruct rest as [|c rest]; [done|].
    simpl in *. by rewrite Hrest.
  - destruct (is_digit c); [|by intros [= <- <-]].
    destruct (span_digits s) as [ds' r'] eqn:E. intros [= <- <-].
    by rewrite (IH ds' r').
Qed.

Lemma span_digits_all (ds : str) :
  forallb is_digit ds = true -> span_digits ds = (ds, []).
Proof.
  induction ds as [|c ds IH]; [done|]. simpl.
  intros [Hc Hds]%andb_true_iff. by rewrite Hc, IH.
Qed.

Lemma scan_unsigned_app (sign s i r rest : str) :
  scan_unsigned sign s = Some (i, r) -> stops is_digit rest ->
  scan_unsigned sign (s ++ rest) = Some (i, r ++ rest).
Proof.
  intros Hs Hdig.
  unfold scan_unsigned in *. destruct s as [|c s]; [done|].
  rewrite <-app_comm_cons.
  destruct (c =? 48)%N; [by injection Hs as <- <-|].
  destruct (is_digit c); [|done].
  destruct (span_digits (c :: s)) as [ds r'] eqn:E. injection Hs as <- <-.
  rewrite app_comm_cons. by rewrite (span_digits_app _ _ _ _ E Hdig).
Qed.

Lemma scan_int_part_app (s i r rest : str) :
  scan_int_part s = Some (i, r) -> stops is_digit rest ->
  scan_int_part (s ++ rest) = Some (i, r ++ rest).
Proof.
  intros Hs Hrest. unfold scan_int_part in *.
  destruct s as [|c s]; [done|]. rewrite <-app_comm_cons.
  destruct (c =? 45)%N; [by apply scan_unsigned_app|].
  rewrite app_comm_cons. by apply scan_unsigned_app.
Qed.

Lemma scan_frac_part_app (s f r rest : str) :
  scan_frac_part s = (f, r) -> stops number_char rest ->
  scan_frac_part (s ++ rest) = (f, r ++ rest).
Proof.
  intros Hs Hrest. pose proof (stops_digit _ Hrest) as Hdig.
  unfold scan_frac_part in *. destruct s as [|c s]; simpl.
  - injection Hs as <- <-. destruct rest as [|c rest]; [done|]. simpl in *.
    apply number_char_false in Hrest as (_ & -> & _). done.
  - destruct (c =? 46)%N; [|by injection Hs as <- <-].
    destruct (span_digits s) as [ds r'] eqn:E.
    rewrite (span_digits_app _ _ _ _ E Hdig).
    destruct ds; by injection Hs as <- <-.
Qed.

Lemma scan_exp_part_app (s e r rest : str) :
  scan_exp_part s = (e, r) -> stops number_char rest ->
  scan_exp_part (s ++ rest) = (e, r ++ rest).
Proof.
  intros Hs Hrest. pose proof (stops_digit _ Hrest) as Hdig.
  unfold scan_exp_part in *. destruct s as [|c s]; simpl.
  - injection Hs as <- <-. destruct rest as [|c rest]; [done|]. simpl in *.
    apply number_char_false in Hrest as (_ & _ & -> & -> & _). done.
  - destruct ((c =? 101) || (c =? 69))%N; [|by injection Hs as <- <-].
    destruct s as [|c' s]; simpl.
    + simpl in Hs. injection Hs as <- <-.
      destruct rest as [|c' rest]; [done|]. simpl in *.
      apply number_char_false in Hrest as (Hd & _ & _ & _ & -> & ->). simpl.
      by rewrite Hd.
    + destruct ((c' =? 45) || (c' =? 43))%N.
      * destruct (span_digits s) as [ds r'] eqn:E.
        rewrite (span_digits_app _ _ _ _ E Hdig).
        destruct ds; by injection Hs as <- <-.
      * destruct (span_digits (c' :: s)) as [ds r'] eqn:E.
        change (c' :: s ++ rest) with ((c' :: s) ++ rest).
        rewrite (span_digits_app _ _ _ _ E Hdig).
        destruct ds; by injection Hs as <- <-.
Qed.

(** A number literal is scanned as a whole when a character that cannot
    continue it follows. *)
Lemma scan_number_app (tok rest : str) :
  is_number_literal tok -> stops number_char rest ->
  scan_number (tok ++ rest) = Some (tok, rest).
Proof.
  unfold is_number_literal, scan_number. intros Htok Hrest.
  destruct (scan_int_part tok) as [[i r1]|] eqn:Hi; [|done]. simpl in Htok.
  destruct (scan_frac_part r1) as [f r2] eqn:Hf.
  destruct (scan_exp_part r2) as [e r3] eqn:He.
  injection Htok as Htok ->.
  rewrite (scan_int_part_app _ _ _ _ Hi (stops_digit _ Hrest)). simpl.
  rewrite (scan_frac_part_app _ _ _ _ Hf Hrest).
  rewrite (scan_exp_part_app _ _ _ _ He Hrest). simpl. by rewrite Htok.
Qed.

(** ** Scanning strings *)

Ltac Zify.zify_post_hook ::= Z.to_euclidean_division_equations.

(** Decide the comparisons of code points in the goal. *)
Ltac code_point_cases :=
  repeat match goal with
  | |- context [(?a =? ?b)%N] => destruct (N.eqb_spec a b); try lia
  | |- context [(?a <=? ?b)%N] => destruct (N.leb_spec a b); try lia
  | |- context [(?a <? ?b)%N] => destruct (N.ltb_spec a b); try lia
  end; simpl; try done.

Lemma hex_val_digit (d : N) : (d < 16)%N -> hex_val (hex_digit d) = Some d.
Proof.
  intros Hd. unfold hex_val, hex_digit. code_point_cases; f_equal; lia.
Qed.

Lemma hex4_val_u_escape (n : N) :
  (n < 65536)%N ->
  hex4_val (hex_digit (n / 4096 mod 16)) (hex_digit (n / 256 mod 16))
           (hex_digit (n / 16 mod 16)) (hex_digit (n mod 16)) = Some n.
Proof.
  intros Hn. unfold hex4_val. rewrite !hex_val_digit by lia. simpl.
  f_equal. lia.
Qed.

Lemma scanstring_raw (c : N) (r : str) :
  c <> 34%N -> c <> 92%N -> (32 <= c)%N ->
  scanstring (c :: r) = push_char c (scanstring r).
Proof. intros. cbn [scanstring]. code_point_cases. Qed.

Lemma scanstring_simple (e ch : N) (r : str) :
  e <> 117%N -> backslash_char e = Some ch ->
  scanstring (92%N :: e :: r) = push_char ch (scanstring r).
Proof.
  intros He Hch. cbn [scanstring]. change (92 =? 34)%N with false.
  change (92 =? 92)%N with true. cbv iota.
  destruct (N.eqb_spec e 117); [done|]. by rewrite Hch.
Qed.

Lemma scanstring_unicode (n : N) (tail : str) :
  (n < 65536)%N ->
  (is_high_surrogate n = true -> lookahead_ok tail) ->
  scanstring (u_escape n ++ tail) = push_char n (scanstring tail).
Proof.
  intros Hn Hlook. unfold u_escape. cbn [app scanstring].
  change (92 =? 34)%N with false. change (92 =? 92)%N with true.
  change (117 =? 117)%N with true. cbv iota.
  rewrite hex4_val_u_escape by done.
  destruct tail as [|b [|u r3]]; try done.
  rewrite <-andb_assoc.
  destruct (is_high_surrogate n) eqn:Hhigh; cbn [andb]; [|done].
  destruct ((b =? 92)%N && (u =? 117)%N) eqn:Hbu; [|done].
  destruct (Hlook eq_refl Hbu) as (k1 & k2 & k3 & k4 & r4 & u2 & -> & Hk & Hlow).
  by rewrite Hk, Hlow.
Qed.

Lemma scanstring_pair (hi lo : N) (tail : str) :
  (hi < 65536)%N -> (lo < 65536)%N ->
  is_high_surrogate hi = true -> is_low_surrogate lo = true ->
  scanstring (u_escape hi ++ u_escape lo ++ tail)
  = push_char (65536 + N.lor (N.shiftl (hi - 55296) 10) (lo - 56320))%N
              (scanstring tail).
Proof.
  intros Hhi Hlo Hhigh Hlow. unfold u_escape. cbn [app scanstring].
  change (92 =? 34)%N with false. change (92 =? 92)%N with true.
  change (117 =? 117)%N with true. cbv iota.
  rewrite !hex4_val_u_escape by done. rewrite Hhigh. cbn [andb].
  change (92 =? 92)%N with true. change (117 =? 117)%N with true. cbv iota.
  by rewrite Hlow.
Qed.

(** ** Surrogate pairs *)

Lemma lor_low_bits (q y : N) :
  N.lor (q * 1024) (y mod 1024) = (q * 1024 + y mod 1024)%N.
Proof.
  assert (N.land (q * 1024) (y mod 1024) = 0%N) as Hdisjoint.
  { change 1024%N with (2 ^ 10)%N. rewrite <-(N.land_ones y 10).
    rewrite (N.land_comm y), N.land_assoc, N.land_ones.
    by rewrite N.Div0.mod_mul, N.land_0_l. }
  by rewrite <-N.lxor_lor, <-N.add_nocarry_lxor.
Qed.

Lemma land_1023 (y : N) : N.land y 1023 = (y mod 1024)%N.
Proof. apply (N.land_ones y 10). Qed.

Lemma surrogate_pair_round_trip (c : N) :
  (65536 <= c)%N -> (c < 1114112)%N ->
  let n := (c - 65536)%N in
  let hi := N.lor 55296 (N.land (N.shiftr n 10) 1023) in
  let lo := N.lor 56320 (N.land n 1023) in
  (hi < 65536)%N /\ (lo < 65536)%N
  /\ is_high_surrogate hi = true /\ is_low_surrogate lo = true
  /\ (65536 + N.lor (N.shiftl (hi - 55296) 10) (lo - 56320))%N = c.
Proof.
  intros Hlo Hhi n hi lo.
  assert (hi = 55296 + n / 1024)%N as ->.
  { unfold hi. rewrite land_1023, N.shiftr_div_pow2.
    change 55296%N with (54 * 1024)%N. rewrite lor_low_bits.
    change (2 ^ 10)%N with 1024%N. unfold n. lia. }
  assert (lo = 56320 + n mod 1024)%N as ->.
  { unfold lo. rewrite land_1023.
    change 56320%N with (55 * 1024)%N. by rewrite lor_low_bits. }
  unfold is_high_surrogate, is_low_surrogate.
  split_and!; [unfold n; lia..| | |].
  - unfold n. apply andb_true_iff; split; apply N.leb_le; lia.
  - unfold n. apply andb_true_iff; split; apply N.leb_le; lia.
  - replace (55296 + n / 1024 - 55296)%N with (n / 1024)%N by lia.
    replace (56320 + n mod 1024 - 56320)%N with (n mod 1024)%N by lia.
    rewrite N.shiftl_mul_pow2. change (2 ^ 10)%N with 1024%N.
    rewrite lor_low_bits. unfold n. lia.
Qed.

(** ** Strings read back *)

Lemma scanstring_escape_char (c : N) (tail : str) :
  (c < 1114112)%N ->
  (is_high_surrogate c = true -> lookahead_ok tail) ->
  scanstring (escape_char c ++ tail) = push_char c (scanstring tail).
Proof.
  intros Hc Hlook. unfold escape_char.
  destruct (N.eqb_spec c 34) as [->|?]; [by apply scanstring_simple|].
  destruct (N.eqb_spec c 92) as [->|?]; [by apply scanstring_simple|].
  destruct (N.eqb_spec c 10) as [->|?]; [by apply scanstring_simple|].
  destruct (N.eqb_spec c 13) as [->|?]; [by apply scanstring_simple|].
  destruct (N.eqb_spec c 9) as [->|?]; [by apply scanstring_simple|].
  destruct (N.eqb_spec c 12) as [->|?]; [by apply scanstring_simple|].
  destruct (N.eqb_spec c 8) as [->|?]; [by apply scanstring_simple|].
  destruct (N.leb_spec 32 c); cbn [andb].
  - destruct (N.leb_spec c 126); cbn [andb].
    + by apply scanstring_raw.
    + destruct (N.ltb_spec c 65536); [by apply scanstring_unicode|].
      destruct (surrogate_pair_round_trip c) as (? & ? & ? & ? & Hpair); [lia..|].
      rewrite <-app_assoc, scanstring_pair by done. by rewrite Hpair.
  - destruct (N.ltb_spec c 65536); [|lia]. by apply scanstring_unicode.
Qed.

Lemma lookahead_escape (s rest : str) :
  match s with
  | c :: _ => is_low_surrogate c = false
  | [] => True
  end ->
  lookahead_ok (concat (escape_char <$> s) ++ 34%N :: rest).
Proof.
  destruct s as [|c s]; intros Hhead.
  { simpl. by destruct rest. }
  rewrite fmap_cons. cbn [concat]. rewrite <-app_assoc.
  generalize (concat (escape_char <$> s) ++ 34%N :: rest). intros tail.
  unfold escape_char.
  destruct (N.eqb_spec c 34) as [->|?]; [done|].
  destruct (N.eqb_spec c 92) as [->|?]; [done|].
  destruct (N.eqb_spec c 10) as [->|?]; [done|].
  destruct (N.eqb_spec c 13) as [->|?]; [done|].
  destruct (N.eqb_spec c 9) as [->|?]; [done|].
  destruct (N.eqb_spec c 12) as [->|?]; [done|].
  destruct (N.eqb_spec c 8) as [->|?]; [done|].
  assert (forall u tail', (u < 65536)%N -> is_low_surrogate u = false ->
            lookahead_ok (u_escape u ++ tail')) as Hunicode.
  { intros u tail' Hn Hlow _. eexists _, _, _, _, _, u.
    split; [done|]. split; [by apply hex4_val_u_escape|done]. }
  assert ((32 <=? c)%N && (c <=? 126)%N = true -> lookahead_ok ([c] ++ tail))
    as Hraw.
  { intros _. simpl. destruct tail; [done|].
    destruct (N.eqb_spec c 92); [done|]. by simpl. }
  destruct ((32 <=? c)%N && (c <=? 126)%N) eqn:Hrange; [by apply Hraw|].
  destruct (N.ltb_spec c 65536); [by apply Hunicode|].
  rewrite <-app_assoc. apply Hunicode.
  - change 55296%N with (54 * 1024)%N. rewrite land_1023, lor_low_bits. lia.
  - change 55296%N with (54 * 1024)%N. rewrite land_1023, lor_low_bits.
    unfold is_low_surrogate. apply andb_false_iff. left. apply N.leb_gt. lia.
Qed.

(** [scanstring] reads an encoded string back. *)
Lemma scanstring_escape (s rest : str) :
  text_ok s = true ->
  scanstring (concat (escape_char <$> s) ++ 34%N :: rest) = Some (s, rest).
Proof.
  induction s as [|c s IH]; [done|]. cbn [text_ok].
  intros [[Hc Hpair]%andb_true_iff Hs]%andb_true_iff.
  apply N.ltb_lt in Hc.
  rewrite fmap_cons. cbn [concat]. rewrite <-app_assoc.
  rewrite scanstring_escape_char; [by rewrite IH| done |].
  intros Hhigh. apply lookahead_escape.
  rewrite Hhigh in Hpair. simpl in Hpair.
  destruct s as [|c' s]; [done|]. by apply negb_true_iff.
Qed.

(** ** Number literals *)

Lemma number_literal_head (tok : str) :
  is_number_literal tok ->
  exists c t, tok = c :: t /\ (c = 45%N \/ is_digit c = true).
Proof.
  unfold is_number_literal, scan_number, scan_int_part. intros Htok.
  destruct tok as [|c t]; [done|]. exists c, t. split; [done|].
  destruct (N.eqb_spec c 45); [by left|]. right.
  unfold scan_unsigned in Htok.
  destruct (N.eqb_spec c 48) as [->|?]; [done|]. by destruct (is_digit c).
Qed.

Lemma str_of_N_literal_with (sign : str) (n : N) :
  n <> 0%N -> scan_unsigned sign (str_of_N n) = Some (sign ++ str_of_N n, []).
Proof.
  intros Hn. destruct (str_of_N_head n Hn) as (c & rest & Heq & Hc & Hc48).
  pose proof (str_of_N_digits n) as Hall. rewrite Heq in *.
  unfold scan_unsigned. destruct (N.eqb_spec c 48); [done|]. rewrite Hc.
  by rewrite (span_digits_all _ Hall).
Qed.

Lemma str_of_N_literal (n : N) : is_number_literal (str_of_N n).
Proof.
  unfold is_number_literal, scan_number, scan_int_part.
  destruct (N.eq_dec n 0%N) as [->|Hn]; [done|].
  destruct (str_of_N_head n Hn) as (c & rest & Heq & Hc & Hc48).
  rewrite Heq. destruct (N.eqb_spec c 45) as [->|?]; [done|].
  rewrite <-Heq, (str_of_N_literal_with [] n Hn). simpl. by rewrite app_nil_r.
Qed.

Lemma str_of_Z_literal (n : Z) : is_number_literal (str_of_Z n).
Proof.
  destruct n as [|p|p]; [apply (str_of_N_literal 0%N)|apply str_of_N_literal|].
  unfold str_of_Z, is_number_literal, scan_number, scan_int_part.
  change (lit "-" ++ str_of_N (N.pos p)) with (45%N :: str_of_N (N.pos p)).
  change (45 =? 45)%N with true. cbv iota.
  rewrite str_of_N_literal_with by done. simpl. by rewrite app_nil_r.
Qed.

(** ** White space *)

Lemma skip_ws_stop (s : str) : stops is_ws s -> skip_ws s = s.
Proof. destruct s as [|c s]; [done|]. simpl. by intros ->. Qed.

Lemma skip_ws_spaces (n : nat) (s : str) :
  skip_ws (replicate n 32%N ++ s) = skip_ws s.
Proof. induction n as [|n IH]; [done|]. simpl. apply IH. Qed.

Lemma skip_ws_newline_indent (indent level : nat) (s : str) :
  skip_ws (newline_indent indent level ++ s) = skip_ws s.
Proof. unfold newline_indent. simpl. apply skip_ws_spaces. Qed.

Lemma strip_prefix_head_ne (a b : N) (p s : str) :
  a <> b -> strip_prefix (a :: p) (b :: s) = None.
Proof. intros Hne. simpl. by destruct (N.eqb_spec a b). Qed.


(** ** Atoms read back *)

Lemma parse_value_atom (fuel : nat) (c : N) (r : str) :
  c <> 34%N -> c <> 123%N -> c <> 91%N ->
  parse_value (S fuel) (c :: r) = parse_atom (c :: r).
Proof.
  intros. cbn [parse_value].
  destruct (N.eqb_spec c 34); [done|]. destruct (N.eqb_spec c 123); [done|].
  by destruct (N.eqb_spec c 91).
Qed.

Lemma is_digit_range (c : N) : is_digit c = true -> (48 <= c <= 57)%N.
Proof.
  unfold is_digit. intros [?%N.leb_le ?%N.leb_le]%andb_true_iff. lia.
Qed.

Lemma parse_atom_number (tok rest : str) :
  is_number_literal tok -> stops number_char rest ->
  parse_atom (tok ++ rest) = Some (JNum tok, rest).
Proof.
  intros Htok Hrest. unfold parse_atom.
  destruct (number_literal_head tok Htok) as (c & t & -> & Hc).
  assert (c <> 110%N /\ c <> 116%N /\ c <> 102%N) as (? & ? & ?).
  { destruct Hc as [->|Hc%is_digit_range]; [done|lia]. }
  rewrite <-app_comm_cons.
  change (lit "null") with (110%N :: lit "ull").
  change (lit "true") with (116%N :: lit "rue").
  change (lit "false") with (102%N :: lit "alse").
  rewrite !strip_prefix_head_ne by done.
  rewrite app_comm_cons. by rewrite scan_number_app.
Qed.

Lemma parse_value_number (fuel : nat) (tok rest : str) :
  is_number_literal tok -> stops number_char rest ->
  parse_value (S fuel) (tok ++ rest) = Some (JNum tok, rest).
Proof.
  intros Htok Hrest.
  destruct (number_literal_head tok Htok) as (c & t & Heq & Hc).
  rewrite <-(parse_atom_number tok rest) by done. rewrite Heq.
  rewrite <-app_comm_cons. apply parse_value_atom;
    destruct Hc as [->|Hc%is_digit_range]; first [done|lia].
Qed.

Section documents.
Context `{FloatRepr}.

Lemma parse_value_float (fuel : nat) (x : float) (rest : str) :
  stops number_char rest ->
  parse_value (S fuel) (floatstr x ++ rest) = Some (JNum (floatstr x), rest).
Proof.
  intros Hrest.
  destruct x as [s|[]| |s m e]; try done;
    apply parse_value_number; try done; by apply float_repr_literal.
Qed.

Lemma floatstr_head (x : float) :
  exists c t, floatstr x = c :: t /\ is_ws c = false /\ c <> 93%N.
Proof.
  assert (forall tok, is_number_literal tok ->
            exists c t, tok = c :: t /\ is_ws c = false /\ c <> 93%N) as Hlit.
  { intros tok (c & t & -> & Hc)%number_literal_head. exists c, t.
    split; [done|]. destruct Hc as [->|Hc%is_digit_range]; [done|].
    unfold is_ws. split; [|lia]. code_point_cases. }
  destruct x as [s|[]| |s m e]; simpl;
    first [by apply Hlit, float_repr_literal | by eexists _, _].
Qed.

(** An encoded value starts with a character that is neither white space
    nor a closing bracket. *)
Lemma encode_head (indent level : nat) (v : pyval) :
  exists c t, encode indent level v = c :: t /\ is_ws c = false /\ c <> 93%N.
Proof.
  destruct v as [n|x|s|[|item items]|[|kv items]]; simpl;
    try (by eexists _, _).
  - destruct (number_literal_head _ (str_of_Z_literal n)) as (c & t & -> & Hc).
    exists c, t. split; [done|].
    destruct Hc as [->|Hc%is_digit_range]; [done|].
    unfold is_ws. split; [|lia]. code_point_cases.
  - apply floatstr_head.
Qed.

End documents.

(** ** Documents read back *)

Section document_round_trip.
Context `{FloatRepr}.

Lemma skip_ws_encode (indent level : nat) (v : pyval) (rest : str) :
  skip_ws (encode indent level v ++ rest) = encode indent level v ++ rest.
Proof.
  destruct (encode_head indent level v) as (c & t & -> & Hc & _).
  by apply skip_ws_stop.
Qed.

Lemma skip_ws_comma (s : str) : skip_ws (lit "," ++ s) = 44%N :: s.
Proof. done. Qed.

Lemma join_encode_head (sep : str) (f : pyval -> str) (x : pyval) (xs : list pyval) :
  (exists c t, f x = c :: t /\ is_ws c = false /\ c <> 93%N) ->
  exists c t, join sep (map f (x :: xs)) = c :: t /\ is_ws c = false /\ c <> 93%N.
Proof.
  intros (c & t & Heq & Hc). destruct xs as [|y ys]; simpl; rewrite Heq.
  - by exists c, t.
  - by eexists c, _.
Qed.

Lemma parse_items_join (indent level : nat) (items : list pyval) (rest : str) :
  items <> [] ->
  Forall (reads_back indent) items ->
  forallb texts_ok items = true ->
  forall fuel,
    sum_list (map (fun x => S (pyval_size x)) items) <= fuel ->
    parse_items fuel
      (join (lit "," ++ newline_indent indent (S level))
            (map (encode indent (S level)) items)
         ++ newline_indent indent level ++ lit "]" ++ rest)
    = Some (map to_json items, rest).
Proof.
  induction items as [|x xs IH]; [done|]. intros _ Hall Htexts fuel Hfuel.
  apply Forall_cons in Hall as [Hx Hxs].
  cbn [forallb] in Htexts. apply andb_true_iff in Htexts as [Htx Htxs].
  simpl in Hfuel.
  destruct fuel as [|fuel]; [lia|]. cbn [parse_items].
  destruct xs as [|y ys].
  - cbn [map join]. rewrite Hx; [|done|lia|done].
    cbn [mbind option_bind]. rewrite skip_ws_newline_indent. done.
  - cbn [map]. rewrite join_cons_cons, <-!app_assoc.
    rewrite Hx; [|done|lia|done].
    cbn [mbind option_bind].
    rewrite skip_ws_comma.
    change (44 =? 93)%N with false. change (44 =? 44)%N with true. cbv iota.
    rewrite skip_ws_newline_indent.
    change (encode indent (S level) y :: map (encode indent (S level)) ys)
      with (map (encode indent (S level)) (y :: ys)).
    destruct (join_encode_head (lit "," ++ newline_indent indent (S level))
                (encode indent (S level)) y ys) as (c & t & Heq & Hc & _);
      [apply encode_head|].
    rewrite skip_ws_stop by (by rewrite Heq).
    rewrite IH; [done|done|done|done|lia].
Qed.

Lemma member_text_head (indent level : nat) (kv : str * pyval) :
  exists t, member_text indent level kv = 34%N :: t.
Proof. by eexists. Qed.

Lemma join_member_head (sep : str) (indent level : nat)
    (kv : str * pyval) (kvs : list (str * pyval)) :
  exists t, join sep (map (member_text indent level) (kv :: kvs)) = 34%N :: t.
Proof. destruct kvs; by eexists. Qed.

Lemma parse_members_join (indent level : nat) (items : list (str * pyval))
    (rest : str) :
  items <> [] ->
  Forall (fun kv => reads_back indent (snd kv)) items ->
  forallb (fun kv => text_ok (fst kv) && texts_ok (snd kv)) items = true ->
  forall fuel,
    sum_list (map (fun kv => S (pyval_size (snd kv))) items) <= fuel ->
    parse_members fuel
      (join (lit "," ++ newline_indent indent (S level))
            (map (member_text indent (S level)) items)
         ++ newline_indent indent level ++ lit "}" ++ rest)
    = Some (map (fun kv => (fst kv, to_json (snd kv))) items, rest).
Proof.
  induction items as [|[k v] kvs IH]; [done|]. intros _ Hall Htexts fuel Hfuel.
  apply Forall_cons in Hall as [Hv Hkvs]. cbn [snd] in Hv.
  cbn [forallb fst snd] in Htexts.
  apply andb_true_iff in Htexts as [[Htk Htv]%andb_true_iff Htkvs].
  simpl in Hfuel. destruct fuel as [|fuel]; [lia|].
  assert (forall tail, stops number_char tail ->
    parse_members (S fuel) (member_text indent (S level) (k, v) ++ tail)
    = match skip_ws tail with
      | [] => None
      | d :: r4 =>
          if (d =? 125)%N then Some ([(k, to_json v)], r4)
          else if (d =? 44)%N then
            '(ms, r5) ← parse_members fuel (skip_ws r4);
            Some ((k, to_json v) :: ms, r5)
          else None
      end) as Hmember.
  { intros tail Htail. unfold member_text, encode_basestring_ascii. cbn [fst snd].
    rewrite <-!app_comm_cons. cbn [parse_members].
    change (34 =? 34)%N with true. cbv iota.
    rewrite <-!app_assoc. cbn [app].
    rewrite scanstring_escape by done. cbn [mbind option_bind].
    change (skip_ws (lit ": " ++ ?s)) with (58%N :: 32%N :: s).
    change (58 =? 58)%N with true. cbv iota.
    change (skip_ws (32%N :: ?s)) with (skip_ws s).
    rewrite skip_ws_encode, Hv; [done|done|lia|done]. }
  destruct kvs as [|kv' kvs'].
  - cbn [map join]. rewrite Hmember by done.
    rewrite skip_ws_newline_indent. done.
  - cbn [map]. rewrite join_cons_cons, <-!app_assoc.
    rewrite Hmember by done. rewrite skip_ws_comma.
    change (44 =? 125)%N with false. change (44 =? 44)%N with true. cbv iota.
    rewrite skip_ws_newline_indent.
    change (member_text indent (S level) kv' :: map (member_text indent (S level)) kvs')
      with (map (member_text indent (S level)) (kv' :: kvs')).
    destruct (join_member_head (lit "," ++ newline_indent indent (S level))
                indent (S level) kv' kvs') as (t & Heq).
    rewrite skip_ws_stop by (by rewrite Heq).
    rewrite IH; [done|done|done|done|lia].
Qed.

(** Every value whose strings are well formed reads back from its text,
    given fuel for its size. *)
Lemma parse_encode (indent : nat) (v : pyval) : reads_back indent v.
Proof.
  induction v as [n|x|s|items IH|items IH] using pyval_induction;
    intros Htexts level fuel rest Hfuel Hrest;
    (destruct fuel as [|fuel]; [simpl in Hfuel; lia|]).
  - by apply parse_value_number; [apply str_of_Z_literal|].
  - by apply parse_value_float.
  - cbn [encode to_json]. unfold encode_basestring_ascii.
    rewrite <-app_comm_cons. cbn [parse_value].
    change (34 =? 34)%N with true. cbv iota.
    rewrite <-app_assoc. cbn [app].
    rewrite scanstring_escape by done. done.
  - destruct items as [|x xs]; [done|].
    cbn [encode to_json]. change (lit "[") with [91%N].
    rewrite <-!app_assoc. cbn [app parse_value].
    change (91 =? 34)%N with false. change (91 =? 123)%N with false.
    change (91 =? 91)%N with true. cbv iota.
    rewrite skip_ws_newline_indent.
    destruct (join_encode_head (lit "," ++ newline_indent indent (S level))
                (encode indent (S level)) x xs) as (c & t & Heq & Hc & Hc93);
      [apply encode_head|].
    rewrite skip_ws_stop by (by rewrite Heq).
    pose proof (parse_items_join indent level (x :: xs) rest) as Hitems.
    rewrite Heq in Hitems |- *.
    rewrite <-?app_comm_cons in Hitems |- *.
    destruct (N.eqb_spec c 93); [done|].
    rewrite Hitems; [done|done|done|done|simpl in Hfuel |- *; lia].
  - destruct items as [|kv kvs]; [done|].
    cbn [encode to_json]. change (lit "{") with [123%N].
    rewrite <-!app_assoc. cbn [app parse_value].
    change (123 =? 34)%N with false. change (123 =? 123)%N with true. cbv iota.
    rewrite skip_ws_newline_indent.
    change (map (fun kv0 => encode_basestring_ascii (fst kv0) ++ lit ": "
                              ++ encode indent (S level) (snd kv0)) (kv :: kvs))
      with (map (member_text indent (S level)) (kv :: kvs)).
    destruct (join_member_head (lit "," ++ newline_indent indent (S level))
                indent (S level) kv kvs) as (t & Heq).
    rewrite skip_ws_stop by (by rewrite Heq).
    pose proof (parse_members_join indent level (kv :: kvs) rest) as Hitems.
    rewrite Heq in Hitems |- *.
    rewrite <-?app_comm_cons in Hitems |- *.
    change (34 =? 125)%N with false. cbv iota.
    rewrite Hitems; [done|done|done|done|simpl in Hfuel |- *; lia].
Qed.

End document_round_trip.

(** ** The whole document *)

Section whole_document.
Context `{FloatRepr}.

Lemma join_length (sep : str) (l : list str) (sizes : list nat) :
  1 <= length sep ->
  Forall2 (fun x n => n <= length x) l sizes ->
  sum_list (map S sizes) <= S (length (join sep l)).
Proof.
  intros Hsep Hall. induction Hall as [|x n l sizes Hx Hrest IH]; [simpl; lia|].
  destruct Hrest as [|y m l sizes Hy Hrest].
  - simpl. lia.
  - rewrite join_cons_cons, !length_app.
    change (sum_list (map S (n :: m :: sizes)))
      with (S n + sum_list (map S (m :: sizes))).
    assert (forall a b c j k : nat,
              a <= b -> 1 <= c -> k <= S j -> S a + k <= S (b + (c + j)))
      as Harith by (intros; lia).
    by apply Harith.
Qed.

Lemma encode_length (indent level : nat) (v : pyval) :
  pyval_size v <= length (encode indent level v).
Proof.
  assert (forall total a b j c d : nat,
            total <= S j -> 1 <= a -> 1 <= b -> 1 <= c -> 1 <= d ->
            S total <= a + (b + (j + (c + d)))) as Hframe by (intros; lia).
  revert level.
  induction v as [n|x|s|items IH|items IH] using pyval_induction; intros level.
  - destruct (number_literal_head _ (str_of_Z_literal n)) as (c & t & Heq & _).
    simpl. rewrite Heq. simpl. lia.
  - destruct (floatstr_head x) as (c & t & Heq & _).
    simpl. rewrite Heq. simpl. lia.
  - simpl. lia.
  - destruct items as [|x xs]; [simpl; lia|].
    cbn [encode pyval_size]. rewrite !length_app.
    apply Hframe; [|simpl; lia..].
    rewrite <-map_map.
    apply join_length; [simpl; lia|].
    apply Forall2_fmap, Forall_Forall2_diag.
    eapply Forall_impl; [exact IH|]. intros y Hy. apply Hy.
  - destruct items as [|kv kvs]; [simpl; lia|].
    cbn [encode pyval_size]. rewrite !length_app.
    apply Hframe; [|simpl; lia..].
    rewrite <-(map_map (fun kv => pyval_size (snd kv)) S).
    apply (join_length _ (map (member_text indent (S level)) (kv :: kvs)));
      [simpl; lia|].
    apply Forall2_fmap, Forall_Forall2_diag.
    eapply Forall_impl; [exact IH|]. intros [k v] Hv. unfold member_text.
    rewrite !length_app. specialize (Hv (S level)). simpl in *. lia.
Qed.


End whole_document.

(** ** The JSON report read back *)

Section json_report.
Context `{FloatRepr}.

Lemma str_of_Z_of_nat (n : nat) : str_of_Z (Z.of_nat n) = str_of_nat n.
Proof. by destruct n. Qed.

Lemma status_of_name_status_name (st : status) :
  status_of_name (status_name st) = Some st.
Proof. by destruct st. Qed.

Lemma texts_ok_payload (r : report) :
  forallb (fun e => text_ok (e_path e)) (r_results r) = true ->
  texts_ok (payload r) = true.
Proof.
  intros Hpaths. unfold payload. cbn [texts_ok forallb fst snd counts_payload].
  assert (forallb texts_ok (entry_payload <$> r_results r) = true) as ->.
  { induction (r_results r) as [|e es IH]; [done|].
    cbn [forallb] in Hpaths. apply andb_true_iff in Hpaths as [He Hes].
    rewrite fmap_cons. cbn [forallb]. rewrite (IH Hes), andb_true_r.
    unfold entry_payload. cbn [texts_ok forallb fst snd].
    rewrite He. by destruct (e_status e). }
  done.
Qed.

Lemma json_entry_payload (e : entry) :
  json_entry (to_json (entry_payload e)) = Some e.
Proof.
  destruct e as [st p]. unfold json_entry, entry_payload.
  cbn [to_json map fst snd e_status e_path].
  change (json_get_str (lit "status") _) with (Some (status_name st)).
  change (json_get_str (lit "path") _) with (Some p). cbv iota.
  by rewrite status_of_name_status_name.
Qed.

Lemma json_files_payload (r : report) :
  json_files (to_json (payload r)) = Some (r_results r).
Proof.
  unfold json_files, payload. cbn [to_json map fst snd].
  change (json_get (lit "files") _)
    with (Some (JArr (map to_json (entry_payload <$> r_results r)))).
  induction (r_results r) as [|e es IH]; [done|].
  rewrite fmap_cons. cbn [map mapM]. rewrite json_entry_payload.
  cbn [mbind option_bind]. by rewrite IH.
Qed.

Lemma json_counts_payload (r : report) :
  json_counts (to_json (payload r)) = Some (r_counts r).
Proof.
  unfold json_counts, payload, counts_payload. cbn [to_json map fst snd].
  change (json_get (lit "counts") _)
    with (Some (JObj
      [(lit "identical", JNum (str_of_Z (Z.of_nat (n_identical (r_counts r)))));
       (lit "missing", JNum (str_of_Z (Z.of_nat (n_missing (r_counts r)))));
       (lit "different", JNum (str_of_Z (Z.of_nat (n_different (r_counts r)))));
       (lit "additional", JNum (str_of_Z (Z.of_nat (n_additional (r_counts r)))))])).
  cbv iota beta.
  change (json_get_nat (lit "identical") _)
    with (nat_of_digits (str_of_Z (Z.of_nat (n_identical (r_counts r))))).
  change (json_get_nat (lit "missing") _)
    with (nat_of_digits (str_of_Z (Z.of_nat (n_missing (r_counts r))))).
  change (json_get_nat (lit "different") _)
    with (nat_of_digits (str_of_Z (Z.of_nat (n_different (r_counts r))))).
  change (json_get_nat (lit "additional") _)
    with (nat_of_digits (str_of_Z (Z.of_nat (n_additional (r_counts r))))).
  rewrite !str_of_Z_of_nat, !nat_of_digits_str_of_nat. by destruct (r_counts r).
Qed.

Lemma json_total_payload (r : report) :
  json_total (to_json (payload r)) = Some (r_total r).
Proof.
  unfold json_total, payload. cbn [to_json map fst snd].
  change (json_get_nat (lit "total") _)
    with (nat_of_digits (str_of_Z (Z.of_nat (r_total r)))).
  by rewrite str_of_Z_of_nat, nat_of_digits_str_of_nat.
Qed.

End json_report.

(** ** A float representation to run the model with *)

Lemma scan_int_part_signed (neg : bool) (ip : N) :
  scan_int_part ((if neg then lit "-" else []) ++ str_of_N ip)
  = Some ((if neg then lit "-" else []) ++ str_of_N ip, []).
Proof.
  destruct (N.eq_dec ip 0%N) as [->|Hip]; [by destruct neg|].
  destruct neg.
  - change (lit "-" ++ str_of_N ip) with (45%N :: str_of_N ip).
    unfold scan_int_part. change (45 =? 45)%N with true. cbv iota.
    by apply str_of_N_literal_with.
  - destruct (str_of_N_head ip Hip) as (c & rest & Heq & Hc%is_digit_range & _).
    cbn [app]. unfold scan_int_part. rewrite Heq.
    destruct (N.eqb_spec c 45); [lia|]. rewrite <-Heq.
    by apply (str_of_N_literal_with []).
Qed.

Lemma decimal_literal (neg : bool) (ip : N) (ds : str) :
  ds <> [] -> forallb is_digit ds = true ->
  is_number_literal ((if neg then lit "-" else []) ++ str_of_N ip ++ lit "." ++ ds).
Proof.
  intros Hne Hds. unfold is_number_literal, scan_number.
  rewrite app_assoc.
  rewrite (scan_int_part_app _ _ _ _ (scan_int_part_signed neg ip)) by done.
  cbn [mbind option_bind app]. unfold scan_frac_part.
  change (lit "." ++ ds) with (46%N :: ds). change (46 =? 46)%N with true.
  cbv iota. rewrite (span_digits_all _ Hds).
  destruct ds as [|d ds]; [done|]. simpl. by rewrite app_nil_r.
Qed.

Lemma zfill_digits (width : nat) (s : str) :
  forallb is_digit s = true -> forallb is_digit (zfill width s) = true.
Proof.
  intros Hs. unfold zfill. rewrite forallb_app, Hs, andb_true_r.
  by induction (width - length s).
Qed.

Lemma zfill_nonempty (width : nat) (s : str) : s <> [] -> zfill width s <> [].
Proof. unfold zfill. intros Hs. by destruct (replicate _ _), s. Qed.

Lemma str_of_N_nonempty (n : N) : str_of_N n <> [].
Proof.
  destruct (N.eq_dec n 0%N) as [->|Hn]; [done|].
  by destruct (str_of_N_head n Hn) as (c & rest & -> & _).
Qed.

Lemma exact_decimal_literal (x : float) :
  isfinite x = true -> is_number_literal (exact_decimal x).
Proof.
  destruct x as [s| | |s m e]; try done; intros _; unfold exact_decimal.
  - by apply decimal_literal.
  - destruct e as [|k|k]; apply decimal_literal; try done.
    + apply zfill_nonempty, str_of_N_nonempty.
    + apply zfill_digits, str_of_N_digits.
Qed.

Definition exact_float_repr : FloatRepr :=
  {| float_repr := exact_decimal; float_repr_literal := exact_decimal_literal |}.

(** ** Which characters the reports contain *)

Lemma forallb_join (p : N -> bool) (sep : str) (l : list str) :
  forallb p sep = true -> forallb (forallb p) l = true ->
  forallb p (join sep l) = true.
Proof.
  intros Hsep. induction l as [|x l IH]; [done|]. cbn [forallb].
  intros [Hx Hl]%andb_true_iff. destruct l as [|y l]; [done|].
  rewrite join_cons_cons, !forallb_app, Hx, Hsep. by rewrite IH.
Qed.

Lemma forallb_weaken (p q : N -> bool) (s : str) :
  (forall c, p c = true -> q c = true) ->
  forallb p s = true -> forallb q s = true.
Proof.
  intros Hpq. induction s as [|c s IH]; [done|]. cbn [forallb].
  intros [Hc Hs]%andb_true_iff. by rewrite (Hpq c Hc), IH.
Qed.

Lemma forallb_not_esc (s : str) : forallb not_esc s = true -> ESC ∉ s.
Proof.
  induction s as [|c s IH]; [intros _; apply not_elem_of_nil|]. cbn [forallb].
  intros [Hc Hs]%andb_true_iff. apply not_elem_of_cons. split; [|by apply IH].
  unfold not_esc in Hc. apply negb_true_iff, N.eqb_neq in Hc. done.
Qed.

Lemma is_plain_not_esc (c : N) : is_plain c = true -> not_esc c = true.
Proof.
  unfold is_plain, not_esc, ESC. intros Hc. apply negb_true_iff, N.eqb_neq.
  intros ->. done.
Qed.

Lemma is_digit_plain (c : N) : is_digit c = true -> is_plain c = true.
Proof. intros Hc%is_digit_range. unfold is_plain. code_point_cases. Qed.

Lemma number_char_plain (c : N) : number_char c = true -> is_plain c = true.
Proof.
  unfold number_char. rewrite !orb_true_iff.
  intros [[[[[Hc|Hc]|Hc]|Hc]|Hc]|Hc];
    [by apply is_digit_plain|apply N.eqb_eq in Hc as ->; done..].
Qed.

Lemma span_digits_digits (s ds r : str) :
  span_digits s = (ds, r) -> forallb is_digit ds = true.
Proof.
  revert ds r. induction s as [|c s IH]; intros ds r; simpl; [by intros [= <- _]|].
  destruct (is_digit c) eqn:Hc; [|by intros [= <- _]].
  destruct (span_digits s) as [ds' r'] eqn:E. intros [= <- _].
  cbn [forallb]. by rewrite Hc, (IH ds' r').
Qed.

Lemma digits_number_chars (ds : str) :
  forallb is_digit ds = true -> forallb number_char ds = true.
Proof.
  apply forallb_weaken. intros c Hc. unfold number_char. by rewrite Hc.
Qed.

Lemma scan_unsigned_chars (sign s i r : str) :
  scan_unsigned sign s = Some (i, r) ->
  forallb number_char sign = true -> forallb number_char i = true.
Proof.
  unfold scan_unsigned. destruct s as [|c s]; [done|]. intros Hs Hsign.
  destruct (N.eqb_spec c 48) as [->|?].
  { injection Hs as <- _. by rewrite forallb_app, Hsign. }
  destruct (is_digit c); [|done].
  destruct (span_digits (c :: s)) as [ds r'] eqn:E. injection Hs as <- _.
  rewrite forallb_app, Hsign.
  by rewrite (digits_number_chars _ (span_digits_digits _ _ _ E)).
Qed.

(** A number literal consists of digits, signs, a dot and an exponent
    letter. *)
Lemma number_literal_chars (tok : str) :
  is_number_literal tok -> forallb number_char tok = true.
Proof.
  unfold is_number_literal, scan_number. intros Htok.
  destruct (scan_int_part tok) as [[i r1]|] eqn:Hi; [|done]. simpl in Htok.
  destruct (scan_frac_part r1) as [f r2] eqn:Hf.
  destruct (scan_exp_part r2) as [e r3] eqn:He.
  injection Htok as Htok _. rewrite <-Htok, !forallb_app. clear Htok.
  assert (forallb number_char i = true) as ->.
  { unfold scan_int_part in Hi. destruct tok as [|c t]; [done|].
    destruct (N.eqb_spec c 45) as [->|?];
      by eapply scan_unsigned_chars. }
  assert (forallb number_char f = true) as ->.
  { unfold scan_frac_part in Hf. destruct r1 as [|c t]; [by injection Hf as <- _|].
    destruct (N.eqb_spec c 46) as [->|?]; [|by injection Hf as <- _].
    destruct (span_digits t) as [ds r'] eqn:E.
    destruct ds as [|d ds]; injection Hf as <- _; [done|].
    change (forallb number_char (46%N :: d :: ds))
      with (forallb number_char (d :: ds)).
    by apply digits_number_chars, (span_digits_digits _ _ _ E). }
  unfold scan_exp_part in He. destruct r2 as [|c t]; [by injection He as <- _|].
  destruct ((c =? 101) || (c =? 69))%N eqn:Hc; [|by injection He as <- _].
  assert (number_char c = true) as Hnc.
  { unfold number_char. apply orb_true_iff in Hc as [->| ->];
      by rewrite ?orb_true_r. }
  assert (forall sign t', forallb number_char sign = true ->
            match span_digits t' with
            | ([], _) => ([], c :: t)
            | (ds, r') => (c :: sign ++ ds, r')
            end = (e, r3) -> forallb number_char e = true) as Hbody.
  { intros sign t' Hsign Hspan. destruct (span_digits t') as [ds r'] eqn:E.
    destruct ds as [|d ds]; injection Hspan as <- _; [done|].
    cbn [forallb]. rewrite Hnc, forallb_app, Hsign.
    by apply digits_number_chars, (span_digits_digits _ _ _ E). }
  destruct t as [|c' t']; [exact (Hbody [] [] eq_refl He)|].
  destruct ((c' =? 45) || (c' =? 43))%N eqn:Hc';
    [|exact (Hbody [] (c' :: t') eq_refl He)].
  refine (Hbody [c'] t' _ He). cbn [forallb]. rewrite andb_true_r.
  unfold number_char. apply orb_true_iff in Hc' as [->| ->];
    by rewrite ?orb_true_r.
Qed.

Lemma number_literal_plain (tok : str) :
  is_number_literal tok -> forallb is_plain tok = true.
Proof.
  intros Htok%number_literal_chars. revert Htok.
  apply forallb_weaken, number_char_plain.
Qed.

Lemma digits_plain (ds : str) :
  forallb is_digit ds = true -> forallb is_plain ds = true.
Proof. apply forallb_weaken, is_digit_plain. Qed.

Lemma hex_digit_plain (d : N) : (d < 16)%N -> is_plain (hex_digit d) = true.
Proof.
  intros Hd. unfold is_plain, hex_digit.
  destruct (N.ltb_spec d 10); code_point_cases.
Qed.

Lemma u_escape_plain (n : N) : forallb is_plain (u_escape n) = true.
Proof.
  unfold u_escape. cbn [forallb]. rewrite !hex_digit_plain by lia. done.
Qed.

Lemma escape_char_plain (c : N) : forallb is_plain (escape_char c) = true.
Proof.
  unfold escape_char.
  repeat match goal with
         | |- context [if (c =? ?k)%N then _ else _] =>
             destruct (N.eqb_spec c k); [done|]
         end.
  destruct ((32 <=? c)%N && (c <=? 126)%N) eqn:Hrange.
  { cbn [forallb]. unfold is_plain. by rewrite Hrange, orb_true_r. }
  destruct (c <? 65536)%N; [apply u_escape_plain|].
  by rewrite forallb_app, !u_escape_plain.
Qed.

Lemma basestring_plain (s : str) :
  forallb is_plain (encode_basestring_ascii s) = true.
Proof.
  unfold encode_basestring_ascii. cbn [forallb]. rewrite forallb_app.
  rewrite andb_true_r. change (is_plain 34) with true. cbn [andb].
  induction s as [|c s IH]; [done|].
  rewrite fmap_cons. cbn [concat]. by rewrite forallb_app, escape_char_plain.
Qed.

Lemma newline_indent_plain (indent level : nat) :
  forallb is_plain (newline_indent indent level) = true.
Proof.
  unfold newline_indent. cbn [forallb]. change (is_plain 10) with true.
  cbn [andb]. by induction (indent * level).
Qed.

Lemma forallb_map_Forall {A} (p : str -> bool) (f : A -> str) (l : list A) :
  Forall (fun x => p (f x) = true) l -> forallb p (map f l) = true.
Proof.
  induction 1 as [|x l Hx _ IH]; [done|]. cbn [map forallb]. by rewrite Hx, IH.
Qed.

(** The JSON text consists of printable ASCII characters and newlines. *)
Lemma encode_plain `{FloatRepr} (indent level : nat) (v : pyval) :
  forallb is_plain (encode indent level v) = true.
Proof.
  revert level.
  induction v as [n|x|s|items IH|items IH] using pyval_induction; intros level.
  - apply number_literal_plain, str_of_Z_literal.
  - destruct x as [s|[]| |s m e]; try done;
      by apply number_literal_plain, float_repr_literal.
  - apply basestring_plain.
  - destruct items as [|x xs]; [done|]. cbn [encode].
    rewrite !forallb_app, !newline_indent_plain, forallb_join; [done| |].
    + by rewrite forallb_app, newline_indent_plain.
    + apply forallb_map_Forall. eapply Forall_impl; [exact IH|].
      intros y Hy. apply Hy.
  - destruct items as [|kv kvs]; [done|]. cbn [encode].
    rewrite !forallb_app, !newline_indent_plain, forallb_join; [done| |].
    + by rewrite forallb_app, newline_indent_plain.
    + apply (forallb_map_Forall (forallb is_plain)).
      eapply Forall_impl; [exact IH|].
      intros [k v] Hv. cbn [fst snd] in *.
      by rewrite !forallb_app, basestring_plain, Hv.
Qed.

(** The JSON report never contains the escape character. *)
Lemma json_report_no_escape `{FloatRepr} (r : report) :
  ESC ∉ build_json_report r.
Proof.
  apply forallb_not_esc.
  eapply forallb_weaken; [apply is_plain_not_esc|apply encode_plain].
Qed.

(** ** The text report without color *)

Lemma plain_no_escape (s : str) :
  forallb is_plain s = true -> forallb not_esc s = true.
Proof. apply forallb_weaken, is_plain_not_esc. Qed.

Lemma str_of_nat_plain (n : nat) : forallb is_plain (str_of_nat n) = true.
Proof. apply digits_plain, str_of_N_digits. Qed.

Lemma format_2f_plain (x : float) : forallb is_plain (format_2f x) = true.
Proof.
  destruct x as [[]|[]| |s m e]; try done. unfold format_2f.
  rewrite !forallb_app.
  rewrite (digits_plain _ (str_of_N_digits _)).
  rewrite (digits_plain _ (zfill_digits 2 _ (str_of_N_digits _))).
  by destruct s.
Qed.

Lemma header_line_plain (r : report) : forallb is_plain (header_line r) = true.
Proof.
  unfold header_line. by rewrite !forallb_app, !str_of_nat_plain, format_2f_plain.
Qed.

Lemma summary_line_plain (r : report) (key : status) :
  forallb is_plain (summary_line false r key) = true.
Proof.
  rewrite summary_line_layout. unfold paint.
  rewrite !forallb_app, str_of_nat_plain, format_2f_plain. by destruct key.
Qed.

Lemma entry_line_no_escape (e : entry) :
  forallb not_esc (e_path e) = true ->
  forallb not_esc (entry_line false e) = true.
Proof.
  intros Hp. rewrite entry_line_layout. unfold paint.
  rewrite forallb_app, Hp. by destruct (e_status e).
Qed.

(** Without color, an escape character in the text report comes from a
    path. *)
Lemma text_report_no_escape (r : report) :
  forallb (fun e => forallb not_esc (e_path e)) (r_results r) = true ->
  ESC ∉ build_text_report r false.
Proof.
  intros Hpaths. apply forallb_not_esc. unfold build_text_report, text_lines.
  apply forallb_join; [done|]. rewrite !forallb_app.
  cbn [forallb]. rewrite (plain_no_escape _ (header_line_plain r)).
  assert (forallb (forallb not_esc) (entry_line false <$> r_results r) = true) as ->.
  { induction (r_results r) as [|e es IH]; [done|]. cbn [forallb] in Hpaths.
    apply andb_true_iff in Hpaths as [He Hes]. rewrite fmap_cons. cbn [forallb].
    by rewrite entry_line_no_escape, IH. }
  unfold SUMMARY_ORDER. rewrite !fmap_cons. cbn [forallb].
  by rewrite !(plain_no_escape _ (summary_line_plain r _)).
Qed.

(** ** Color *)

(** C4, as the code has it.  When both directories exist, [main] delivers
    one output text.  The text is rendered with color exactly when the
    format is text, no report file is given and standard output is a
    terminal.  JSON output never contains the escape character.  Text
    output rendered without color, which includes all text written to a
    report file, contains the escape character only if a path string of
    the report contains it. *)
Theorem color_only_on_terminal `{Hasher} `{FloatRepr} (w : world) (a : arguments) :
  let args := parse_args (w_cwd w) a in
  let dirs := resolved_dirs (w_cwd w) args in
  path_exists (w_fs w) (fst dirs) = true ->
  path_exists (w_fs w) (snd dirs) = true ->
  exists evs rep output,
    compare_assets (w_fs w) (fst dirs) (snd dirs) = (evs, inr rep)
    /\ main w a = (evs ++ delivery args output, inr tt)
    /\ (format args = format_json -> output = build_json_report rep)
    /\ (format args = format_text ->
        output = build_text_report rep
                   (bool_decide (report_file args = None) && w_isatty w))
    /\ (format args = format_json -> ESC ∉ output)
    /\ (format args = format_text ->
        bool_decide (report_file args = None) && w_isatty w = false ->
        forallb (fun e => forallb not_esc (e_path e)) (r_results rep) = true ->
        ESC ∉ output).
Proof.
  intros args dirs Hroot Htpl.
  destruct (main_success w a Hroot Htpl) as (evs & rep & Hrun & Hmain).
  exists evs, rep, (render w args rep). fold args in Hmain.
  assert (color_enabled w args = bool_decide (report_file args = None) && w_isatty w)
    as Hcolor by (unfold color_enabled; by destruct (report_file args)).
  split; [done|]. split; [exact Hmain|].
  unfold render. rewrite Hcolor. split_and!.
  - by intros ->.
  - by intros ->.
  - intros ->. apply json_report_no_escape.
  - intros -> -> Hpaths. by apply text_report_no_escape.
Qed.

(** C4, as it is worded, fails: a file name may itself contain a color
    code, and the text report written to a file then contains it. *)
Lemma color_code_in_report_file :
  ~ (forall (w : world) (a : arguments),
       forallb (fun text => negb (contains (ESC :: lit "[31m") text))
               (written_texts (@main content_digest exact_float_repr w a))
       = true).
Proof.
  intros Hall. specialize (Hall escape_world report_to_file).
  vm_compute in Hall. discriminate.
Qed.

(** ** The theorems at work on the sample data *)

Lemma compare_assets_deterministic_witness :
  tree sample_fs pack_assets = tree sample_fs mirror_assets
  /\ exists rep,
       outcome (@compare_assets content_digest sample_fs pack_assets tpl_assets)
       = inr rep
       /\ outcome (@compare_assets content_digest sample_fs mirror_assets tpl_assets)
          = inr rep.
Proof.
  assert (tree sample_fs pack_assets = tree sample_fs mirror_assets) as Hsame
    by (vm_compute; reflexivity).
  split; [exact Hsame|].
  exact (@compare_assets_deterministic content_digest sample_fs sample_fs
           pack_assets tpl_assets mirror_assets tpl_assets Hsame eq_refl).
Defined.

Lemma identical_ratio_value_witness :
  exists evs rep,
    @compare_assets content_digest sample_fs pack_assets mirror_assets
    = (evs, inr rep)
    /\ r_identical_ratio rep = float_of_int 100.
Proof.
  destruct (@identical_ratio_value content_digest sample_fs pack_assets
              mirror_assets) as (evs & rep & Hrun & _ & _ & _ & Hsame).
  exists evs, rep. split; [exact Hrun|]. apply Hsame.
  - vm_compute. reflexivity.
  - intros Hempty.
    apply (f_equal (fun t => t !! [lit "a.txt"])) in Hempty.
    vm_compute in Hempty. discriminate.
Defined.

Lemma missing_directory_exits_witness :
  path_exists (w_fs sample_world)
    (snd (resolved_dirs (w_cwd sample_world)
            (parse_args (w_cwd sample_world) no_arguments))) = false
  /\ exists label missing,
       @main content_digest exact_float_repr sample_world no_arguments
       = ([], inl (SystemExit (label ++ str_of_abspath missing)))
       /\ exit_status (@main content_digest exact_float_repr sample_world
                         no_arguments) <> 0.
Proof.
  assert (path_exists (w_fs sample_world)
            (snd (resolved_dirs (w_cwd sample_world)
                    (parse_args (w_cwd sample_world) no_arguments))) = false)
    as Hmissing by (vm_compute; reflexivity).
  split; [exact Hmissing|].
  destruct (@missing_directory_exits content_digest exact_float_repr
              sample_world no_arguments (or_intror Hmissing))
    as (label & missing & Hmain & _ & _ & Hexit & _).
  exists label, missing. split; [exact Hmain|exact Hexit].
Defined.

Lemma named_flags_take_precedence_witness :
  fst (resolved_dirs (w_cwd sample_world)
         (parse_args (w_cwd sample_world) flags_and_positionals)) = pack_assets
  /\ snd (resolved_dirs (w_cwd sample_world)
           (parse_args (w_cwd sample_world) flags_and_positionals)) = tpl_assets.
Proof.
  destruct (@named_flags_take_precedence content_digest exact_float_repr
              sample_world flags_and_positionals)
    as (_ & Hinput & _ & _ & Htemplate & _).
  split.
  - rewrite (Hinput (absolute pack_assets) eq_refl). vm_compute. reflexivity.
  - rewrite (Htemplate (absolute tpl_assets) eq_refl). vm_compute. reflexivity.
Defined.

Lemma color_only_on_terminal_witness :
  exists evs output,
    @main content_digest exact_float_repr sample_world flags_and_positionals
    = (evs ++ [EvStdout (output ++ newline)], inr tt)
    /\ exists rep, output = build_text_report rep true.
Proof.
  destruct (@color_only_on_terminal content_digest exact_float_repr
              sample_world flags_and_positionals)
    as (evs & rep & output & _ & Hmain & _ & Htext & _).
  - vm_compute. reflexivity.
  - vm_compute. reflexivity.
  - exists evs, output. split; [exact Hmain|].
    exists rep. exact (Htext eq_refl).
Defined.

Lemma empty_union_percentages_witness :
  exists evs rep,
    @compare_assets content_digest sample_fs empty_dir empty_dir = (evs, inr rep)
    /\ r_total rep = 0
    /\ text_lines rep false
       = [lit "Compared 0 root files; 0 identical (100.00%).";
          [];
          lit "Summary:";
          lit "Identical: 0 files (0.00%)";
          lit "Different: 0 files (0.00%)";
          lit "Missing  : 0 files (0.00%)";
          lit "Additional: 0 files (0.00%)"].
Proof.
  destruct (@empty_union_percentages content_digest sample_fs empty_dir
              empty_dir false) as (evs & rep & Hrun & Htotal & Hlines).
  - vm_compute. reflexivity.
  - exists evs, rep. split; [exact Hrun|]. split; [exact Htotal|exact Hlines].
Defined.

(** The order of the entries is the order of the segment sequences, which
    is not the order of the joined strings: the file a/b comes before the
    file a.txt, though "a.txt" is smaller than "a/b" as a string. *)
Example segments_before_strings :
  path_lt [lit "a"; lit "b"] [lit "a.txt"]
  /\ str_compare (str_of_relpath [lit "a"; lit "b"])
                 (str_of_relpath [lit "a.txt"]) = Gt.
Proof. by vm_compute. Qed.

(** The comparison of the sample pack with the sample template. *)
Example sample_comparison :
  outcome (@compare_assets content_digest sample_fs pack_assets tpl_assets)
  = inr sample_report.
Proof. by vm_compute. Qed.

(** The first scenario of the specification: a.txt is identical, b.txt is
    missing, and the ratio prints as 50.00. *)
Example scenario_comparison :
  exists rep,
    outcome (@compare_assets content_digest scenario_fs [lit "r"] [lit "t"])
    = inr rep
    /\ r_results rep = [Build_entry identical (lit "a.txt");
                        Build_entry missing (lit "b.txt")]
    /\ r_counts rep = Build_counts 1 1 0 0
    /\ format_2f (r_identical_ratio rep) = lit "50.00".
Proof. eexists. by vm_compute. Qed.

(** * Further properties *)

(** ** Reading a file in chunks *)

Lemma take_nil_inv {A} (size : nat) (l : list A) :
  0 < size -> take size l = [] -> l = [].
Proof. destruct size, l; simpl; intros; done || lia. Qed.

Lemma read_chunks_nil (size : nat) : read_chunks size [] = [].
Proof. rewrite read_chunks_equation. by rewrite take_nil. Qed.

Lemma read_chunks_cons (size : nat) (rest : list byte) :
  0 < size -> rest <> [] ->
  read_chunks size rest = take size rest :: read_chunks size (drop size rest).
Proof.
  intros Hsize Hrest. rewrite read_chunks_equation at 1.
  destruct (take size rest) eqn:Heq; [|done].
  by apply take_nil_inv in Heq.
Qed.

Lemma read_chunks_concat (size : nat) (rest : list byte) :
  0 < size -> concat (read_chunks size rest) = rest.
Proof.
  intros Hsize. functional induction (read_chunks size rest) as [rest Heq|rest b chunk Heq IH].
  - symmetry. by apply (take_nil_inv size).
  - cbn [concat]. rewrite IH, <-Heq. apply take_drop.
Qed.

Lemma read_chunks_lookup (size : nat) (rest : list byte) (i : nat) (c : list byte) :
  0 < size ->
  read_chunks size rest !! i = Some c <->
  c = take size (drop (i * size) rest) /\ i * size < length rest.
Proof.
  intros Hsize. revert rest.
  induction i as [|i IH]; intros rest.
  - destruct rest as [|b rest].
    + rewrite read_chunks_nil. simpl. split; [done|]. intros [_ ?]. lia.
    + rewrite read_chunks_cons by done. simpl. split.
      * intros [= <-]. split; [done|lia].
      * by intros [-> _].
  - destruct rest as [|b rest].
    + rewrite read_chunks_nil. simpl. split; [done|]. intros [_ ?]. lia.
    + rewrite read_chunks_cons by done. cbn [lookup list_lookup].
      change (read_chunks size (drop size (b :: rest)) !! i = Some c <->
              c = take size (drop (S i * size) (b :: rest))
              /\ S i * size < length (b :: rest)).
      rewrite IH, drop_drop, length_drop.
      replace (size + i * size) with (S i * size) by lia.
      split; intros [? ?]; (split; [done|lia]).
Qed.

Lemma CHUNK_SIZE_pos : 0 < CHUNK_SIZE.
Proof. unfold CHUNK_SIZE. lia. Qed.

(** X1.  The loop of [hash_file] hands the whole file to the hasher: the
    chunks it reads, put end to end, are the file's content; chunk [i] is
    the up to 65536 bytes that start at offset [i * 65536], and there is
    one exactly for each such offset inside the file; no chunk is empty
    or longer than 65536 bytes. *)
Theorem hash_file_reads_whole_file (content : list byte) :
  let chunks := read_chunks CHUNK_SIZE content in
  concat chunks = content
  /\ (forall i c, chunks !! i = Some c <->
        c = take CHUNK_SIZE (drop (i * CHUNK_SIZE) content)
        /\ i * CHUNK_SIZE < length content)
  /\ Forall (fun c => 1 <= length c <= CHUNK_SIZE) chunks.
Proof.
  pose proof CHUNK_SIZE_pos as Hpos. simpl. split_and!.
  - by apply read_chunks_concat.
  - intros i c. by apply read_chunks_lookup.
  - apply Forall_lookup. intros i c Hc.
    apply read_chunks_lookup in Hc as [-> Hi]; [|done].
    rewrite length_take, length_drop. lia.
Qed.

Section streaming.
Context `{StreamHasher}.

Lemma foldl_update (s : sha_state) (chunks : list (list byte)) :
  update_concatenates ->
  foldl sha_update s chunks = sha_update s (concat chunks).
Proof.
  intros [Hnil Happ]. revert s.
  induction chunks as [|c chunks IH]; intros s; simpl; [by rewrite Hnil|].
  by rewrite IH, Happ.
Qed.

End streaming.

(** X2.  With a hasher for which repeated calls of [update] amount to one
    call on the concatenation, [hash_file] as written, chunk by chunk, is
    [hash_file] as the comparison uses it: one read event and the digest
    of the whole content for a file, [OSError] for a path that is no
    file. *)
Theorem hash_file_chunked_one_shot `{StreamHasher} (fs : filesystem) (p : path) :
  update_concatenates ->
  hash_file_chunked fs p = @hash_file one_shot fs p.
Proof.
  intros Hlaw. unfold hash_file_chunked, hash_file.
  destruct (fs_files fs !! p) as [content|]; [|done].
  rewrite foldl_update by done.
  by rewrite (read_chunks_concat _ _ CHUNK_SIZE_pos).
Qed.

(** ** The files gathered *)

(** X3.  [gather_files] returns a strictly increasing list (so without
    duplicates) that holds exactly the regular files strictly below
    [base], never [base] itself.  In a file system in which no path is
    both a regular file and a directory, no gathered path is a
    directory. *)
Theorem gather_files_sorted_files (fs : filesystem) (base : path) :
  StronglySorted path_lt (gather_files fs base)
  /\ (forall p, p ∈ gather_files fs base <->
        is_Some (fs_files fs !! p) /\ exists k, k <> [] /\ p = base ++ k)
  /\ (dom (fs_files fs) ## fs_dirs fs ->
      forall p, p ∈ gather_files fs base -> p ∉ fs_dirs fs).
Proof.
  split_and!.
  - apply sorted_le_NoDup_lt; [apply StronglySorted_merge_sort; apply _|].
    unfold gather_files. rewrite merge_sort_Permutation.
    apply NoDup_filter, NoDup_elements.
  - intros p. rewrite elem_of_gather_files, is_under_spec. tauto.
  - intros Hdisjoint p [_ Hfile]%elem_of_gather_files Hdir.
    apply (Hdisjoint p); [by apply elem_of_dom|done].
Qed.

(** X4.  Building the map from relative path to file over the gathered
    files never raises [ValueError] and touches nothing; the map binds
    [k] to [p] exactly when [p] is a gathered file whose path relative to
    [base] is [k]. *)
Theorem relative_map_of_gathered (fs : filesystem) (base : path) :
  exists m,
    relative_map base (gather_files fs base) = ([], inr m)
    /\ forall k p, m !! k = Some p <->
         p ∈ gather_files fs base /\ relative_to base p = Some k.
Proof.
  destruct (relative_map_gather fs base) as (m & Hrun & Hm).
  exists m. split; [done|]. intros k p. rewrite Hm, relative_to_Some.
  split.
  - intros Hk. destruct (tree_file fs base k) as [c|] eqn:Hc; [|done].
    injection Hk as <-. split; [|done]. apply gather_files_tree. by exists c.
  - intros [Hin ->]. apply gather_files_tree in Hin as [c Hc]. by rewrite Hc.
Qed.

(** ** The files read *)

Section reads.
Context `{Hasher}.

Lemma classify_reads (fs : filesystem) (root_assets template_assets k : path) :
  events (classify fs ((fun _ => root_assets ++ k) <$> tree_file fs root_assets k)
                      ((fun _ => template_assets ++ k)
                         <$> tree_file fs template_assets k))
  = reads_of fs root_assets template_assets k.
Proof.
  unfold reads_of.
  destruct (tree_file fs root_assets k) as [a|] eqn:Ha;
    destruct (tree_file fs template_assets k) as [b|] eqn:Hb; simpl; try done.
  apply tree_file_lookup in Ha, Hb.
  rewrite (hash_file_run _ _ _ Ha), (hash_file_run _ _ _ Hb).
  by rewrite !bind_value.
Qed.

Lemma compare_loop_reads (fs : filesystem) (root_assets template_assets : path)
    (root_map template_map : gmap path path) (ps : list path)
    (cnts : counts) (rs : list entry) :
  (forall k, root_map !! k =
             (fun _ => root_assets ++ k) <$> tree_file fs root_assets k) ->
  (forall k, template_map !! k =
             (fun _ => template_assets ++ k) <$> tree_file fs template_assets k) ->
  Forall (fun k => in_tree fs root_assets k \/ in_tree fs template_assets k) ps ->
  events (for_each ps (compare_step fs root_map template_map) (cnts, rs))
  = ps ≫= reads_of fs root_assets template_assets.
Proof.
  intros Hroot Htpl Hall. revert cnts rs.
  induction Hall as [|k ps Hk Hps IH]; intros cnts rs; cbn [for_each]; [done|].
  destruct (classify_tree _ _ _ _ Hk) as (evs1 & st & Hcl & _).
  pose proof (classify_reads fs root_assets template_assets k) as Hevs.
  rewrite Hcl in Hevs. simpl in Hevs. subst evs1.
  assert (compare_step fs root_map template_map (cnts, rs) k
          = (reads_of fs root_assets template_assets k,
             inr (counts_incr st cnts,
                  rs ++ [Build_entry st (str_of_relpath k)]))) as Hstep.
  { unfold compare_step. rewrite Hroot, Htpl.
    eapply bind_runs_to; [exact Hcl|by rewrite mret_value|].
    by rewrite app_nil_r. }
  rewrite Hstep, bind_value. unfold events in *. cbn [fst].
  by rewrite IH.
Qed.

End reads.

Section trace.
Context `{Hasher}.

(** [compare_assets] with its events: the reads of the loop, path by path. *)
Lemma compare_assets_trace (fs : filesystem) (root_assets template_assets : path) :
  exists cnts es ps,
    compare_assets fs root_assets template_assets
    = (ps ≫= reads_of fs root_assets template_assets, inr (report_of cnts es))
    /\ StronglySorted path_lt ps
    /\ (forall k, k ∈ ps <->
                  in_tree fs root_assets k \/ in_tree fs template_assets k)
    /\ Forall2 (entry_follows_rule (tree fs root_assets) (tree fs template_assets))
               es ps
    /\ (forall st, counts_get cnts st = count_status st es).
Proof.
  destruct (relative_map_gather fs root_assets) as (rm & Hrm & Hrm_lookup).
  destruct (relative_map_gather fs template_assets) as (tm & Htm & Htm_lookup).
  pose (ps := merge_sort path_le (elements (dom rm ∪ dom tm))).
  destruct (sorted_elements_spec (dom rm ∪ dom tm)) as [Hsorted Hmem].
  assert (forall k, k ∈ ps <->
            in_tree fs root_assets k \/ in_tree fs template_assets k) as Hps.
  { intros k. unfold ps. rewrite Hmem, elem_of_union, !elem_of_dom.
    rewrite Hrm_lookup, Htm_lookup, !fmap_is_Some. done. }
  assert (Forall (fun k => in_tree fs root_assets k \/ in_tree fs template_assets k)
                 ps) as Hall.
  { apply Forall_forall. intros k Hk. by apply Hps. }
  destruct (compare_loop fs root_assets template_assets rm tm ps counts_zero [])
    as (evs & cnts & es & Hloop & Hes & Hcnt); [done|done|done|].
  pose proof (compare_loop_reads fs root_assets template_assets rm tm ps
                counts_zero [] Hrm_lookup Htm_lookup Hall) as Hevs.
  rewrite Hloop in Hevs. simpl in Hevs. subst evs.
  exists cnts, es, ps. split_and!.
  - unfold compare_assets.
    eapply bind_runs_to; [exact Hrm| |reflexivity].
    eapply bind_runs_to; [exact Htm| |reflexivity].
    eapply bind_runs_to; [exact Hloop|reflexivity|].
    by rewrite app_nil_r.
  - done.
  - done.
  - eapply Forall2_impl; [exact Hes|]. intros e k [? ?].
    split; [done|]. by rewrite !tree_lookup.
  - intros st. rewrite Hcnt. by destruct st.
Qed.

End trace.

Lemma StronglySorted_filter {A} (R : relation A) (P : A -> Prop)
    `{forall x, Decision (P x)} (l : list A) :
  StronglySorted R l -> StronglySorted R (filter P l).
Proof.
  induction 1 as [|x l Hs IH Hall]; [constructor|].
  rewrite filter_cons. destruct (decide (P x)); [|done].
  constructor; [done|]. rewrite Forall_forall in Hall |- *.
  intros y [_ Hy]%list_elem_of_filter. by apply Hall.
Qed.

Lemma reads_of_shared (fs : filesystem) (root_assets template_assets : path)
    (ps : list path) :
  ps ≫= reads_of fs root_assets template_assets
  = filter (fun k => in_tree fs root_assets k /\ in_tree fs template_assets k) ps
      ≫= (fun k => [EvRead (root_assets ++ k); EvRead (template_assets ++ k)]).
Proof.
  induction ps as [|k ps IH]; [done|].
  rewrite filter_cons. cbn [mbind list_bind]. rewrite IH.
  unfold reads_of at 1, in_tree.
  destruct (tree_file fs root_assets k) as [a|];
    destruct (tree_file fs template_assets k) as [b|].
  - by rewrite decide_True by (split; eauto).
  - by rewrite decide_False by (intros [_ [? ?]]; done).
  - by rewrite decide_False by (intros [[? ?] _]; done).
  - by rewrite decide_False by (intros [[? ?] _]; done).
Qed.

(** ** The counts and the trees *)

(** X6.  In the report of every comparison, the count of each status is
    the number of entries of [results] that carry it. *)
Theorem counts_tally_entries `{Hasher} (fs : filesystem)
    (root_assets template_assets : path) :
  exists rep,
    outcome (compare_assets fs root_assets template_assets) = inr rep
    /\ forall st, counts_get (r_counts rep) st = count_status st (r_results rep).
Proof.
  destruct (compare_assets_trace fs root_assets template_assets)
    as (cnts & es & ps & Hrun & _ & _ & _ & Hcnt).
  exists (report_of cnts es). by rewrite Hrun.
Qed.

Lemma length_NoDup_size (ps : list path) (X : gset path) :
  NoDup ps -> (forall k, k ∈ ps <-> k ∈ X) -> length ps = size X.
Proof.
  intros Hnd Hmem. unfold size, set_size. simpl.
  apply Permutation_length, NoDup_Permutation; [done|apply NoDup_elements|].
  intros k. by rewrite Hmem, elem_of_elements.
Qed.

Section classes.
Context `{Hasher}.
Variables rt tt : gmap path (list byte).

(** Entries whose status lies in a class are as many as the paths the
    class stands for. *)
Lemma count_by_class (P : status -> Prop) (Q : path -> Prop)
    `{forall st, Decision (P st)} `{forall k, Decision (Q k)}
    (es : list entry) (ps : list path) :
  (forall e k, entry_follows_rule rt tt e k -> P (e_status e) <-> Q k) ->
  Forall2 (entry_follows_rule rt tt) es ps ->
  length (filter (fun e => P (e_status e)) es) = length (filter Q ps).
Proof.
  intros HPQ. induction 1 as [|e k es ps He _ IH]; [done|].
  rewrite !filter_cons. specialize (HPQ e k He).
  destruct (decide (P (e_status e))), (decide (Q k)); simpl; tauto || lia.
Qed.

Lemma count_two_statuses (st1 st2 : status) (es : list entry) :
  st1 <> st2 ->
  length (filter (fun e => e_status e = st1 \/ e_status e = st2) es)
  = count_status st1 es + count_status st2 es.
Proof.
  intros Hne. unfold count_status. induction es as [|e es IH]; [done|].
  rewrite !filter_cons.
  destruct (decide (e_status e = st1)), (decide (e_status e = st2));
    try congruence.
  - rewrite decide_True by auto. simpl. lia.
  - rewrite decide_True by auto. simpl. lia.
  - rewrite decide_False by tauto. done.
Qed.

Lemma rule_missing (e : entry) (k : path) :
  entry_follows_rule rt tt e k ->
  e_status e = missing <-> k ∈ dom tt ∖ dom rt.
Proof.
  intros [_ Hrule]. rewrite elem_of_difference, !elem_of_dom.
  unfold status_rule in Hrule.
  destruct (rt !! k) as [a|], (tt !! k) as [b|]; simplify_eq;
    rewrite <-?Hrule; try case_decide;
    (split; [try done|intros [[? ?] Hn]; try done; destruct Hn; eauto]).
  all: try (intros _; split; [eauto|intros [? ?]; done]).
Qed.

Lemma rule_additional (e : entry) (k : path) :
  entry_follows_rule rt tt e k ->
  e_status e = additional <-> k ∈ dom rt ∖ dom tt.
Proof.
  intros [_ Hrule]. rewrite elem_of_difference, !elem_of_dom.
  unfold status_rule in Hrule.
  destruct (rt !! k) as [a|], (tt !! k) as [b|]; simplify_eq;
    rewrite <-?Hrule; try case_decide;
    (split; [try done|intros [[? ?] Hn]; try done; destruct Hn; eauto]).
  all: try (intros _; split; [eauto|intros [? ?]; done]).
Qed.

Lemma rule_shared (e : entry) (k : path) :
  entry_follows_rule rt tt e k ->
  e_status e = identical \/ e_status e = different <-> k ∈ dom rt ∩ dom tt.
Proof.
  intros [_ Hrule]. rewrite elem_of_intersection, !elem_of_dom.
  unfold status_rule in Hrule.
  destruct (rt !! k) as [a|], (tt !! k) as [b|]; simplify_eq;
    rewrite <-?Hrule; try case_decide;
    (split; [intros [?|?]; try done; eauto|
             intros [[? ?] [? ?]]; try done; auto]).
Qed.

End classes.

(** X7.  The numbers of the report are sizes of sets of relative paths:
    the total is the size of the union of the two trees' path sets (not
    the number of root files), [missing] counts the template's paths the
    root lacks, [additional] the root's paths the template lacks, and
    [identical] and [different] together the paths both hold. *)
Theorem counts_are_set_sizes `{Hasher} (fs : filesystem)
    (root_assets template_assets : path) :
  exists rep,
    outcome (compare_assets fs root_assets template_assets) = inr rep
    /\ let in_root := dom (tree fs root_assets) in
       let in_template := dom (tree fs template_assets) in
       r_total rep = size (in_root ∪ in_template)
       /\ n_missing (r_counts rep) = size (in_template ∖ in_root)
       /\ n_additional (r_counts rep) = size (in_root ∖ in_template)
       /\ n_identical (r_counts rep) + n_different (r_counts rep)
          = size (in_root ∩ in_template).
Proof.
  destruct (compare_assets_trace fs root_assets template_assets)
    as (cnts & es & ps & Hrun & Hsorted & Hps & Hes & Hcnt).
  exists (report_of cnts es). rewrite Hrun. split; [done|].
  pose proof (sorted_lt_NoDup _ Hsorted) as Hnd.
  set (in_root := dom (tree fs root_assets)).
  set (in_template := dom (tree fs template_assets)).
  assert (forall k, k ∈ ps <-> k ∈ in_root ∪ in_template) as Hmem.
  { intros k. unfold in_root, in_template.
    by rewrite Hps, elem_of_union, !elem_of_dom_tree. }
  assert (forall X : gset path,
            X ⊆ in_root ∪ in_template ->
            length (filter (fun k => k ∈ X) ps) = size X) as Hsize.
  { intros X Hsub. apply length_NoDup_size; [by apply NoDup_filter|].
    intros k. rewrite list_elem_of_filter, Hmem. split; [by intros [? _]|].
    intros Hk. split; [done|]. by apply Hsub. }
  assert (forall (P : status -> Prop) `{forall st, Decision (P st)}
                 (X : gset path),
            X ⊆ in_root ∪ in_template ->
            (forall e k,
               entry_follows_rule (tree fs root_assets) (tree fs template_assets)
                                  e k -> P (e_status e) <-> k ∈ X) ->
            length (filter (fun e => P (e_status e)) es) = size X) as Hclass.
  { intros P ? X Hsub HPX. rewrite <-(Hsize X Hsub).
    by apply (count_by_class (tree fs root_assets) (tree fs template_assets)
                P (fun k => k ∈ X)). }
  cbn [r_total r_counts report_of]. split_and!.
  - rewrite (counts_values_total _ _ Hcnt), (Forall2_length _ _ _ Hes).
    by apply length_NoDup_size.
  - change (counts_get cnts missing = size (in_template ∖ in_root)).
    rewrite Hcnt. unfold count_status.
    apply (Hclass (fun st => st = missing) (fun st => status_eq_dec st missing)
             (in_template ∖ in_root)).
    + intros k [Hk _]%elem_of_difference. apply elem_of_union. by right.
    + intros e k. apply rule_missing.
  - change (counts_get cnts additional = size (in_root ∖ in_template)).
    rewrite Hcnt. unfold count_status.
    apply (Hclass (fun st => st = additional)
             (fun st => status_eq_dec st additional) (in_root ∖ in_template)).
    + intros k [Hk _]%elem_of_difference. apply elem_of_union. by left.
    + intros e k. apply rule_additional.
  - change (counts_get cnts identical + counts_get cnts different
            = size (in_root ∩ in_template)).
    rewrite !Hcnt, <-count_two_statuses by done.
    apply (Hclass (fun st => st = identical \/ st = different)
             (fun st => or_dec (status_eq_dec st identical)
                                (status_eq_dec st different))
             (in_root ∩ in_template)).
    + intros k [Hk _]%elem_of_intersection. apply elem_of_union. by left.
    + intros e k. apply rule_shared.
Qed.

(** ** The two directories trading places *)

Section swap.
Context `{Hasher}.

Lemma status_rule_swap (a b : option (list byte)) (st : status) :
  status_rule a b = Some st -> status_rule b a = Some (swap_status st).
Proof.
  unfold status_rule. destruct a as [a|], b as [b|]; intros [= <-]; try done.
  destruct (decide (sha256_hexdigest a = sha256_hexdigest b)) as [Heq|Hne].
  - by rewrite decide_True.
  - by rewrite decide_False by congruence.
Qed.

Lemma entries_swap (rt tt : gmap path (list byte)) (es : list entry)
    (ps : list path) :
  Forall2 (entry_follows_rule rt tt) es ps ->
  Forall2 (entry_follows_rule tt rt) (swap_entry <$> es) ps.
Proof.
  induction 1 as [|e k es ps [Hp Hs] _ IH]; [constructor|].
  rewrite fmap_cons. constructor; [|done].
  split; [done|]. by apply status_rule_swap.
Qed.

Lemma count_status_swap (st : status) (es : list entry) :
  count_status st (swap_entry <$> es) = count_status (swap_status st) es.
Proof.
  induction es as [|e es IH]; [done|]. rewrite fmap_cons.
  change (?x :: ?l) with ([x] ++ l).
  rewrite !count_status_app, !count_status_singleton, IH. f_equal.
  destruct e as [s p]. by destruct s, st.
Qed.

End swap.

(** X8.  Comparing in the other direction gives the mirrored report:
    the same paths in the same order with [missing] and [additional]
    exchanged, the two counts exchanged with them, and the same total
    and ratio. *)
Theorem compare_assets_swapped `{Hasher} (fs : filesystem)
    (root_assets template_assets : path) :
  exists rep rep',
    outcome (compare_assets fs root_assets template_assets) = inr rep
    /\ outcome (compare_assets fs template_assets root_assets) = inr rep'
    /\ r_results rep' = swap_entry <$> r_results rep
    /\ r_counts rep' = swap_counts (r_counts rep)
    /\ r_total rep' = r_total rep
    /\ r_identical_ratio rep' = r_identical_ratio rep.
Proof.
  destruct (compare_assets_trace fs root_assets template_assets)
    as (cnts & es & ps & Hrun & Hsorted & Hps & Hes & Hcnt).
  destruct (compare_assets_trace fs template_assets root_assets)
    as (cnts' & es' & ps' & Hrun' & Hsorted' & Hps' & Hes' & Hcnt').
  assert (ps' = ps) as ->.
  { apply strictly_sorted_ext; [done|done|]. intros k. rewrite Hps, Hps'. tauto. }
  assert (es' = swap_entry <$> es) as ->.
  { eapply entries_unique; [exact Hes'|]. by apply entries_swap. }
  assert (cnts' = swap_counts cnts) as ->.
  { apply counts_ext. intros st.
    rewrite Hcnt', count_status_swap, <-Hcnt. by destruct st. }
  exists (report_of cnts es), (report_of (swap_counts cnts) (swap_entry <$> es)).
  rewrite Hrun, Hrun'. split_and!; try done.
  - unfold report_of. cbn [r_total]. simpl. lia.
  - unfold report_of. cbn [r_identical_ratio]. f_equal. simpl. lia.
Qed.

(** ** One tree against nothing *)

Lemma percent_or_none (dflt : float) (n : nat) :
  n <> 0 -> percent_or dflt 0 n = float_0.
Proof.
  intros Hn. unfold percent_or. destruct (N.of_nat n) eqn:E; [lia|].
  by vm_compute.
Qed.

Lemma count_status_uniform (st0 st : status) (es : list entry) :
  Forall (fun e => e_status e = st0) es ->
  count_status st es = if decide (st = st0) then length es else 0.
Proof.
  induction 1 as [|e es He _ IH]; [by case_decide|].
  change (e :: es) with ([e] ++ es).
  rewrite count_status_app, count_status_singleton, IH, He.
  destruct (decide (st = st0)) as [->|Hne].
  - by rewrite decide_True.
  - by rewrite decide_False.
Qed.

(** A report all of whose entries have the status [st0], which is not
    [identical]. *)
Lemma uniform_report (cnts : counts) (es : list entry) (st0 : status) :
  (forall st, counts_get cnts st = count_status st es) ->
  Forall (fun e => e_status e = st0) es -> st0 <> identical ->
  (forall st, counts_get (r_counts (report_of cnts es)) st
              = if decide (st = st0) then length es else 0)
  /\ r_total (report_of cnts es) = length es
  /\ r_identical_ratio (report_of cnts es)
     = if decide (length es = 0) then float_100 else float_0.
Proof.
  intros Hcnt Hall Hst0. split_and!.
  - intros st. cbn [r_counts report_of]. rewrite Hcnt.
    by apply count_status_uniform.
  - by apply counts_values_total.
  - cbn [r_identical_ratio report_of].
    rewrite (counts_values_total _ _ Hcnt).
    change (n_identical cnts) with (counts_get cnts identical).
    rewrite Hcnt, (count_status_uniform st0) by done.
    rewrite decide_False by done.
    destruct (decide (length es = 0)) as [->|Hne]; [done|].
    by apply percent_or_none.
Qed.

Section one_sided.
Context `{Hasher}.

Lemma reads_of_empty_template (fs : filesystem) (root_assets template_assets : path)
    (ps : list path) :
  tree fs template_assets = ∅ ->
  ps ≫= reads_of fs root_assets template_assets = [].
Proof.
  intros Hempty. induction ps as [|k ps IH]; [done|].
  cbn [mbind list_bind]. rewrite IH. unfold reads_of.
  rewrite <-(tree_lookup fs template_assets), Hempty, lookup_empty.
  by destruct (tree_file fs root_assets k).
Qed.

Lemma reads_of_empty_root (fs : filesystem) (root_assets template_assets : path)
    (ps : list path) :
  tree fs root_assets = ∅ ->
  ps ≫= reads_of fs root_assets template_assets = [].
Proof.
  intros Hempty. induction ps as [|k ps IH]; [done|].
  cbn [mbind list_bind]. rewrite IH. unfold reads_of.
  by rewrite <-(tree_lookup fs root_assets), Hempty, lookup_empty.
Qed.

End one_sided.

(** X9.  Against a template without files every entry is [additional],
    and with a root without files every entry is [missing]; in both cases
    no file is read, the one count is the total, and the ratio is [0.0],
    or [100.0] when there is no entry at all. *)
Theorem one_sided_comparison `{Hasher} (fs : filesystem)
    (root_assets template_assets : path) :
  exists rep,
    outcome (compare_assets fs root_assets template_assets) = inr rep
    /\ (tree fs template_assets = ∅ ->
        events (compare_assets fs root_assets template_assets) = []
        /\ Forall (fun e => e_status e = additional) (r_results rep)
        /\ r_counts rep = Build_counts 0 0 0 (r_total rep)
        /\ r_identical_ratio rep
           = if decide (r_total rep = 0) then float_100 else float_0)
    /\ (tree fs root_assets = ∅ ->
        events (compare_assets fs root_assets template_assets) = []
        /\ Forall (fun e => e_status e = missing) (r_results rep)
        /\ r_counts rep = Build_counts 0 (r_total rep) 0 0
        /\ r_identical_ratio rep
           = if decide (r_total rep = 0) then float_100 else float_0).
Proof.
  destruct (compare_assets_trace fs root_assets template_assets)
    as (cnts & es & ps & Hrun & _ & _ & Hes & Hcnt).
  exists (report_of cnts es). rewrite Hrun. split; [done|].
  unfold events. cbn [fst]. split.
  - intros Hempty.
    assert (Forall (fun e => e_status e = additional) es) as Hall.
    { clear Hcnt Hrun. induction Hes as [|e k es ps [_ Hrule] _ IH]; [done|].
      constructor; [|done]. rewrite Hempty, lookup_empty in Hrule.
      unfold status_rule in Hrule.
      destruct (tree fs root_assets !! k); congruence. }
    destruct (uniform_report cnts es additional Hcnt Hall)
      as (Hget & Htotal & Hratio); [done|].
    split_and!.
    + by apply reads_of_empty_template.
    + done.
    + apply counts_ext. intros st. rewrite Hget, Htotal. by destruct st.
    + by rewrite Hratio, Htotal.
  - intros Hempty.
    assert (Forall (fun e => e_status e = missing) es) as Hall.
    { clear Hcnt Hrun. induction Hes as [|e k es ps [_ Hrule] _ IH]; [done|].
      constructor; [|done]. rewrite Hempty, lookup_empty in Hrule.
      unfold status_rule in Hrule.
      destruct (tree fs template_assets !! k); congruence. }
    destruct (uniform_report cnts es missing Hcnt Hall)
      as (Hget & Htotal & Hratio); [done|].
    split_and!.
    + by apply reads_of_empty_root.
    + done.
    + apply counts_ext. intros st. rewrite Hget, Htotal. by destruct st.
    + by rewrite Hratio, Htotal.
Qed.

(** ** Lines of the text report *)

Lemma digits_single_line (ds : str) :
  forallb is_digit ds = true -> forallb not_newline ds = true.
Proof.
  apply forallb_weaken. intros c. unfold is_digit, not_newline.
  destruct (N.eqb_spec c 10) as [->|]; [by vm_compute|done].
Qed.

Lemma str_of_nat_single_line (n : nat) :
  forallb not_newline (str_of_nat n) = true.
Proof. apply digits_single_line, str_of_N_digits. Qed.

Lemma format_2f_single_line (x : float) :
  forallb not_newline (format_2f x) = true.
Proof.
  destruct x as [[]|[]| |s m e]; try done. unfold format_2f.
  rewrite !forallb_app.
  rewrite (digits_single_line _ (str_of_N_digits _)).
  rewrite (digits_single_line _ (zfill_digits 2 _ (str_of_N_digits _))).
  by destruct s.
Qed.

Lemma header_line_single_line (r : report) :
  forallb not_newline (header_line r) = true.
Proof.
  unfold header_line.
  by rewrite !forallb_app, !str_of_nat_single_line, format_2f_single_line.
Qed.

Lemma summary_line_single_line (use_color : bool) (r : report) (key : status) :
  forallb not_newline (summary_line use_color r key) = true.
Proof.
  rewrite summary_line_layout. unfold paint.
  rewrite !forallb_app, str_of_nat_single_line, format_2f_single_line.
  by destruct use_color, key.
Qed.

Lemma entry_line_single_line (use_color : bool) (e : entry) :
  single_line (e_path e) = true ->
  forallb not_newline (entry_line use_color e) = true.
Proof.
  unfold single_line. intros Hp. rewrite entry_line_layout. unfold paint.
  destruct use_color; rewrite !forallb_app, Hp; by destruct (e_status e).
Qed.

Lemma not_newline_elem (s : str) : forallb not_newline s = true -> 10%N ∉ s.
Proof.
  induction s as [|c s IH]; [intros _ []%elem_of_nil|]. cbn [forallb].
  intros [Hc Hs]%andb_true_iff [Heq|Hin]%elem_of_cons; [by subst c|by apply IH].
Qed.

(** Splitting at the first occurrence of a character. *)
Lemma char_split (c : N) (x y r r' : str) :
  c ∉ x -> c ∉ y -> x ++ c :: r = y ++ c :: r' -> x = y /\ r = r'.
Proof.
  revert y. induction x as [|a x IH]; intros [|b y] Hx Hy; simpl.
  - by intros [= ->].
  - intros [= <- _]. destruct Hy. by left.
  - intros [= -> _]. destruct Hx. by left.
  - intros [= -> Heq]. destruct (IH y) as [-> ->]; [| |done|done].
    + intros Hin. apply Hx. by right.
    + intros Hin. apply Hy. by right.
Qed.

(** Lines without a line break are recovered from their joined text. *)
Lemma join_newline_inj (l1 l2 : list str) :
  l1 <> [] -> l2 <> [] ->
  Forall (fun x => 10%N ∉ x) l1 -> Forall (fun x => 10%N ∉ x) l2 ->
  join newline l1 = join newline l2 -> l1 = l2.
Proof.
  revert l2. induction l1 as [|x l1 IH]; [done|]. intros [|y l2]; [done|].
  intros _ _ [Hx Hl1]%Forall_cons [Hy Hl2]%Forall_cons.
  destruct l1 as [|x' l1], l2 as [|y' l2].
  - simpl. by intros ->.
  - rewrite join_cons_cons. simpl. intros ->. destruct Hx.
    apply elem_of_app. right. by left.
  - rewrite join_cons_cons. simpl. intros <-. destruct Hy.
    apply elem_of_app. right. by left.
  - rewrite !join_cons_cons. change (newline ++ ?r) with (10%N :: r).
    intros [-> Heq]%char_split; [|done|done]. f_equal. by apply IH.
Qed.

(** An entry line tells the entry. *)
Lemma entry_line_inj (use_color : bool) (e1 e2 : entry) :
  entry_line use_color e1 = entry_line use_color e2 -> e1 = e2.
Proof.
  rewrite !entry_line_layout. unfold paint.
  destruct e1 as [st1 p1], e2 as [st2 p2]. cbn [e_status e_path].
  destruct use_color.
  - destruct st1, st2; try (by intros [=]); intros Heq;
      apply app_inv_head, app_inv_tail, app_inv_head in Heq; by subst.
  - destruct st1, st2; try (by intros [=]); intros Heq;
      apply app_inv_head in Heq; by subst.
Qed.

Lemma entry_lines_inj (use_color : bool) (es1 es2 : list entry) :
  entry_line use_color <$> es1 = entry_line use_color <$> es2 -> es1 = es2.
Proof.
  revert es2. induction es1 as [|e1 es1 IH]; intros [|e2 es2]; try done.
  rewrite !fmap_cons. intros [= He Hes]. f_equal; [|by apply IH].
  by apply (entry_line_inj use_color).
Qed.

(** X10.  The text report tells the results: when no path holds a line
    break, two reports that render to the same text, with or without
    color, have the same entries, status by status and path by path, in
    the same order. *)
Theorem text_report_tells_results (r1 r2 : report) (use_color : bool) :
  Forall (fun e => single_line (e_path e) = true) (r_results r1) ->
  Forall (fun e => single_line (e_path e) = true) (r_results r2) ->
  build_text_report r1 use_color = build_text_report r2 use_color ->
  r_results r1 = r_results r2.
Proof.
  intros Hp1 Hp2 Heq. unfold build_text_report in Heq.
  assert (forall r, Forall (fun e => single_line (e_path e) = true) (r_results r) ->
            Forall (fun x => 10%N ∉ x) (text_lines r use_color)) as Hlines.
  { intros r Hp. unfold text_lines. rewrite !Forall_app. split_and!.
    - constructor; [|done]. apply not_newline_elem, header_line_single_line.
    - apply Forall_fmap. eapply Forall_impl; [exact Hp|]. intros e He.
      by apply not_newline_elem, entry_line_single_line.
    - repeat constructor; by apply not_newline_elem.
    - apply Forall_fmap, Forall_forall. intros key _.
      apply not_newline_elem, summary_line_single_line. }
  apply join_newline_inj in Heq; [|done|done|by apply Hlines..].
  unfold text_lines in Heq. injection Heq as _ Heq.
  apply app_inj_1 in Heq as [Heq _].
  - by apply entry_lines_inj in Heq.
  - apply (f_equal length) in Heq. rewrite !length_app, !length_fmap in *.
    simpl in Heq. lia.
Qed.

(** ** The text report read back *)











(** ** The JSON report as delivered *)

(** X11.  Whatever the file names are, the JSON report consists of
    printable ASCII characters and line breaks only: every other character
    of a path is written as an escape. *)
Theorem json_report_is_ascii `{FloatRepr} (r : report) :
  Forall (fun c => c = 10%N \/ (32 <= c <= 126)%N) (build_json_report r).
Proof.
  pose proof (encode_plain 2 0 (payload r)) as Hplain.
  unfold build_json_report, json_dumps.
  induction (encode 2 0 (payload r)) as [|c s IH]; [constructor|].
  cbn [forallb] in Hplain. apply andb_true_iff in Hplain as [Hc Hs].
  constructor; [|by apply IH]. unfold is_plain in Hc.
  apply orb_true_iff in Hc as [Hc|Hc].
  - left. by apply N.eqb_eq.
  - right. apply andb_true_iff in Hc as [?%N.leb_le ?%N.leb_le]. done.
Qed.

Section delivered.
Context `{FloatRepr}.

(** The text of a value reads back when a line break follows it, as in
    the report that [main] prints or writes. *)
Lemma json_loads_dumps_newline (indent : nat) (v : pyval) :
  texts_ok v = true ->
  json_loads (json_dumps indent v ++ newline) = Some (to_json v).
Proof.
  intros Htexts. unfold json_loads, json_dumps.
  rewrite (skip_ws_encode indent 0 v newline).
  rewrite (parse_encode indent v Htexts 0 _ newline); [done| |done].
  pose proof (encode_length indent 0 v). rewrite length_app. lia.
Qed.

End delivered.

(** ** Validation and delivery *)

Section validation.
Context `{Hasher} `{FloatRepr}.

(** X14.  The root directory is checked first: when it does not exist,
    [main] ends with the message that names the root, whether the template
    exists or not; the message that names the template is raised only when
    the root exists and the template does not.  Nothing happens before
    either exit. *)
Theorem root_checked_before_template (w : world) (a : arguments) :
  let dirs := resolved_dirs (w_cwd w) (parse_args (w_cwd w) a) in
  (path_exists (w_fs w) (fst dirs) = false ->
   main w a = ([], inl (SystemExit (lit "Root assets folder not found: "
                                      ++ str_of_abspath (fst dirs)))))
  /\ (path_exists (w_fs w) (fst dirs) = true ->
      path_exists (w_fs w) (snd dirs) = false ->
      main w a = ([], inl (SystemExit (lit "Template assets folder not found: "
                                         ++ str_of_abspath (snd dirs))))).
Proof.
  intros dirs. unfold main. fold dirs.
  destruct dirs as [root_assets template_assets]. simpl. split.
  - by intros ->.
  - by intros -> ->.
Qed.


End validation.

(** ** The further properties at work on the sample data *)

Lemma hash_file_chunked_one_shot_witness :
  @update_concatenates buffer_hasher
  /\ @hash_file_chunked buffer_hasher sample_fs (pack_assets ++ [lit "d.txt"])
     = ([EvRead (pack_assets ++ [lit "d.txt"])], inr (lit "old")).
Proof.
  assert (@update_concatenates buffer_hasher) as Hlaw.
  { split; intros; simpl; [apply app_nil_r|symmetry; apply app_assoc]. }
  split; [exact Hlaw|].
  rewrite (@hash_file_chunked_one_shot buffer_hasher sample_fs
             (pack_assets ++ [lit "d.txt"]) Hlaw).
  vm_compute. reflexivity.
Defined.

Lemma gather_files_sorted_files_witness :
  dom (fs_files sample_fs) ## fs_dirs sample_fs
  /\ forall p, p ∈ gather_files sample_fs pack_assets -> p ∉ fs_dirs sample_fs.
Proof.
  assert (dom (fs_files sample_fs) ## fs_dirs sample_fs) as Hdisjoint.
  { apply (bool_decide_unpack _). vm_compute. reflexivity. }
  split; [exact Hdisjoint|].
  destruct (gather_files_sorted_files sample_fs pack_assets) as (_ & _ & Hdirs).
  exact (Hdirs Hdisjoint).
Defined.

Lemma one_sided_comparison_witness :
  tree sample_fs empty_dir = ∅
  /\ (exists rep,
        outcome (@compare_assets content_digest sample_fs pack_assets empty_dir)
        = inr rep
        /\ Forall (fun e => e_status e = additional) (r_results rep)
        /\ r_counts rep = Build_counts 0 0 0 (r_total rep))
  /\ (exists rep,
        outcome (@compare_assets content_digest sample_fs empty_dir tpl_assets)
        = inr rep
        /\ Forall (fun e => e_status e = missing) (r_results rep)
        /\ r_counts rep = Build_counts 0 (r_total rep) 0 0).
Proof.
  assert (tree sample_fs empty_dir = ∅) as Hempty by (vm_compute; reflexivity).
  split; [exact Hempty|]. split.
  - destruct (@one_sided_comparison content_digest sample_fs pack_assets
                empty_dir) as (rep & Hrun & Htemplate & _).
    destruct (Htemplate Hempty) as (_ & Hall & Hcounts & _).
    exists rep. split; [exact Hrun|]. split; [exact Hall|exact Hcounts].
  - destruct (@one_sided_comparison content_digest sample_fs empty_dir
                tpl_assets) as (rep & Hrun & _ & Hroot).
    destruct (Hroot Hempty) as (_ & Hall & Hcounts & _).
    exists rep. split; [exact Hrun|]. split; [exact Hall|exact Hcounts].
Defined.

Lemma text_report_tells_results_witness :
  Forall (fun e => single_line (e_path e) = true) (r_results sample_report)
  /\ build_text_report
         {| r_total := 4; r_counts := Build_counts 1 1 1 1;
            r_identical_ratio := r_identical_ratio sample_report;
            r_results := [Build_entry identical (lit "a.txt");
                          Build_entry missing (lit "b.txt");
                          Build_entry different (lit "d.txt")] |} true
     <> build_text_report sample_report true.
Proof.
  assert (Forall (fun e => single_line (e_path e) = true)
                 (r_results sample_report)) as Hsample
    by (repeat (constructor; [vm_compute; reflexivity|]); constructor).
  split; [exact Hsample|]. intros Heq.
  apply text_report_tells_results in Heq; [discriminate Heq| |exact Hsample].
  repeat (constructor; [vm_compute; reflexivity|]); constructor.
Defined.

Lemma root_checked_before_template_witness :
  @main content_digest exact_float_repr sample_world nowhere_arguments
  = ([], inl (SystemExit (lit "Root assets folder not found: /nowhere")))
  /\ @main content_digest exact_float_repr sample_world no_arguments
     = ([], inl (SystemExit
          (lit "Template assets folder not found: /pack/.packs/template-1.21.11/assets"))).
Proof.
  split.
  - destruct (@root_checked_before_template content_digest exact_float_repr
                sample_world nowhere_arguments) as [Hroot _].
    rewrite Hroot; vm_compute; reflexivity.
  - destruct (@root_checked_before_template content_digest exact_float_repr
                sample_world no_arguments) as [_ Htemplate].
    rewrite Htemplate; vm_compute; reflexivity.
Defined.



(** * Runs in which operations can fail *)

(** ** Runs cut short: properties *)

Section cut_lemmas.
Context `{System}.

Lemma cut_app (evs evs' : list event) :
  cut (evs ++ evs')
  = match cut evs with
    | (pre, Some e) => (pre, Some e)
    | (pre, None) => let '(pre', r) := cut evs' in (pre ++ pre', r)
    end.
Proof.
  induction evs as [|ev evs IH]; simpl.
  - by destruct (cut evs').
  - destruct (refuses ev); [done|]. rewrite IH.
    destruct (cut evs) as [pre [e|]]; [done|]. by destruct (cut evs').
Qed.

Lemma cut_accepted (evs : list event) :
  Forall (fun ev => refuses ev = None) evs -> cut evs = (evs, None).
Proof.
  induction 1 as [|ev evs Hev _ IH]; [done|]. simpl. by rewrite Hev, IH.
Qed.

Lemma cut_refused (pre post : list event) (ev : event) (e : exn) :
  Forall (fun ev => refuses ev = None) pre -> refuses ev = Some e ->
  cut (pre ++ ev :: post) = (pre, Some e).
Proof.
  intros Hpre Hev. rewrite cut_app, (cut_accepted _ Hpre). simpl.
  rewrite Hev. by rewrite app_nil_r.
Qed.

(** A trace goes through as a whole or has a first refused operation. *)
Lemma cut_cases (evs : list event) :
  Forall (fun ev => refuses ev = None) evs
  \/ exists pre ev post e,
       evs = pre ++ ev :: post
       /\ Forall (fun ev => refuses ev = None) pre /\ refuses ev = Some e.
Proof.
  induction evs as [|ev evs IH]; [by left|].
  destruct (refuses ev) as [e|] eqn:Hev.
  - right. exists [], ev, evs, e. by split_and!.
  - destruct IH as [Hall|(pre & ev' & post & e & -> & Hpre & Hev')].
    + left. by constructor.
    + right. exists (ev :: pre), ev', post, e. split_and!; [done| |done].
      by constructor.
Qed.

Lemma under_ret {A} (a : A) : under (mret a : run A) = mret a.
Proof. done. Qed.

Lemma under_raise {A} (e : exn) : under (raise e : run A) = raise e.
Proof. done. Qed.

Lemma under_emit (ev : event) : under (emit ev) = attempt ev.
Proof. unfold under, attempt. simpl. by destruct (refuses ev). Qed.

Lemma under_bind {A B} (m : run A) (f : A -> run B) :
  under (m ≫= f) = under m ≫= (fun a => under (f a)).
Proof.
  destruct m as [evs [e|a]].
  - unfold under. simpl. by destruct (cut evs) as [pre [e'|]].
  - rewrite bind_value. unfold under, events, outcome. cbn [fst snd].
    rewrite cut_app. destruct (cut evs) as [pre [e'|]]; [done|].
    rewrite bind_value. unfold events, outcome.
    destruct (f a) as [evs' r]. cbn [fst snd].
    by destruct (cut evs') as [pre' [e'|]].
Qed.

Lemma bind_ext {A B} (m : run A) (f g : A -> run B) :
  (forall a, f a = g a) -> m ≫= f = m ≫= g.
Proof. intros Hfg. destruct m as [evs [e|a]]; [done|]. by rewrite !bind_value, Hfg. Qed.

Lemma under_for_each {A S} (xs : list A) (body : S -> A -> run S) (st : S) :
  under (for_each xs body st) = for_each xs (fun s x => under (body s x)) st.
Proof.
  revert st. induction xs as [|x xs IH]; intros st; [done|].
  cbn [for_each]. rewrite under_bind. by apply bind_ext.
Qed.

Lemma for_each_ext {A S} (xs : list A) (body body' : S -> A -> run S) (st : S) :
  (forall s x, body s x = body' s x) ->
  for_each xs body st = for_each xs body' st.
Proof.
  intros Hb. revert st. induction xs as [|x xs IH]; intros st; [done|].
  cbn [for_each]. rewrite Hb. by apply bind_ext.
Qed.

(** A run without events is the same under every system. *)
Lemma under_quiet {A} (m : run A) : events m = [] -> under m = m.
Proof. destruct m as [evs r]. simpl. by intros ->. Qed.

Context `{Hasher}.

Lemma hash_file_under (fs : filesystem) (p : path) :
  IO.hash_file fs p = under (hash_file fs p).
Proof.
  unfold IO.hash_file, hash_file. destruct (fs_files fs !! p); [|done].
  rewrite under_bind, under_emit. by apply bind_ext.
Qed.

Lemma classify_under (fs : filesystem) (root_file template_file : option path) :
  IO.classify fs root_file template_file
  = under (classify fs root_file template_file).
Proof.
  unfold IO.classify, classify.
  destruct root_file as [r|], template_file as [t|]; try done.
  rewrite !hash_file_under, under_bind. apply bind_ext. intros hr.
  rewrite under_bind. by apply bind_ext.
Qed.

Lemma compare_step_under (fs : filesystem) (root_map template_map : gmap path path)
    (acc : counts * list entry) (rel_path : path) :
  IO.compare_step fs root_map template_map acc rel_path
  = under (compare_step fs root_map template_map acc rel_path).
Proof.
  unfold IO.compare_step, compare_step. destruct acc as [cnts results].
  rewrite under_bind, classify_under. by apply bind_ext.
Qed.

Lemma relative_map_quiet (base : path) (files : list path) :
  events (relative_map base files) = [].
Proof.
  unfold relative_map. generalize (∅ : gmap path path).
  induction files as [|p files IH]; intros m; [done|]. cbn [for_each].
  destruct (relative_to base p) as [k|]; [|done].
  rewrite mret_value, bind_value. unfold events in *. cbn [fst app]. apply IH.
Qed.

(** The comparison, when reads can fail, is the comparison cut at the
    first read that fails. *)
Lemma compare_assets_under (fs : filesystem) (root_assets template_assets : path) :
  IO.compare_assets fs root_assets template_assets
  = under (compare_assets fs root_assets template_assets).
Proof.
  unfold IO.compare_assets, compare_assets.
  rewrite under_bind, (under_quiet _ (relative_map_quiet _ _)).
  apply bind_ext. intros rm.
  rewrite under_bind, (under_quiet _ (relative_map_quiet _ _)).
  apply bind_ext. intros tm.
  rewrite under_bind, under_for_each.
  rewrite (for_each_ext _ _ _ _ (compare_step_under fs rm tm)).
  apply bind_ext. by intros [cnts results].
Qed.

End cut_lemmas.

(** ** The comparison when reads can fail *)

Lemma shared_paths_spec (fs : filesystem) (root_assets template_assets : path) :
  StronglySorted path_lt (shared_paths fs root_assets template_assets)
  /\ forall k, k ∈ shared_paths fs root_assets template_assets <->
               in_tree fs root_assets k /\ in_tree fs template_assets k.
Proof.
  destruct (sorted_elements_spec
              (dom (tree fs root_assets) ∩ dom (tree fs template_assets)))
    as [Hsorted Hmem].
  split; [done|]. intros k. unfold shared_paths.
  by rewrite Hmem, elem_of_intersection, !elem_of_dom_tree.
Qed.

(** The events of the comparison in which every read goes through. *)
Lemma compare_assets_shared_reads `{Hasher} (fs : filesystem)
    (root_assets template_assets : path) :
  events (compare_assets fs root_assets template_assets)
  = shared_reads fs root_assets template_assets.
Proof.
  destruct (compare_assets_trace fs root_assets template_assets)
    as (cnts & es & ps & Hrun & Hsorted & Hps & _).
  rewrite Hrun, reads_of_shared. unfold events, shared_reads. cbn [fst].
  f_equal. destruct (shared_paths_spec fs root_assets template_assets)
    as [Hsorted' Hmem].
  apply strictly_sorted_ext; [by apply StronglySorted_filter|done|].
  intros k. rewrite list_elem_of_filter, Hps, Hmem. tauto.
Qed.

(** X5.  [IO.compare_assets] opens the files that both trees hold, and
    no other: for each shared relative path, in increasing order, the root's
    file and then the template's file.  When every one of these reads goes
    through, the comparison returns and has read each of them once.  When
    one of them fails, the comparison ends there with the exception of that
    read: the files before it have been read and no file after it is
    opened. *)
Theorem only_shared_files_read `{System} `{Hasher} (fs : filesystem)
    (root_assets template_assets : path) :
  let shared := shared_paths fs root_assets template_assets in
  let reads := shared ≫= (fun k => [EvRead (root_assets ++ k);
                                      EvRead (template_assets ++ k)]) in
  StronglySorted path_lt shared
  /\ (forall k, k ∈ shared <->
                in_tree fs root_assets k /\ in_tree fs template_assets k)
  /\ (Forall (fun ev => refuses ev = None) reads ->
      exists rep,
        IO.compare_assets fs root_assets template_assets = (reads, inr rep))
  /\ (forall pre ev post e,
        reads = pre ++ ev :: post ->
        Forall (fun ev => refuses ev = None) pre ->
        refuses ev = Some e ->
        IO.compare_assets fs root_assets template_assets = (pre, inl e)).
Proof.
  intros shared reads.
  destruct (shared_paths_spec fs root_assets template_assets) as [Hsorted Hmem].
  pose proof (compare_assets_shared_reads fs root_assets template_assets)
    as Hevents.
  destruct (compare_assets_trace fs root_assets template_assets)
    as (cnts & es & ps & Hrun & _).
  rewrite Hrun in Hevents. unfold events in Hevents. cbn [fst] in Hevents.
  rewrite Hevents in Hrun. clear Hevents.
  assert (compare_assets fs root_assets template_assets
          = (reads, inr (report_of cnts es))) as Hideal by exact Hrun.
  clear Hrun. split; [done|]. split; [done|]. split.
  - intros Hall. exists (report_of cnts es).
    rewrite compare_assets_under, Hideal. unfold under, events, outcome.
    cbn [fst snd]. by rewrite (cut_accepted _ Hall).
  - intros pre ev post e Hreads Hpre Hev.
    rewrite compare_assets_under, Hideal. unfold under, events, outcome.
    cbn [fst snd]. by rewrite Hreads, (cut_refused _ _ _ _ Hpre Hev).
Qed.

(** ** The entry point when operations can fail *)

Section delivery.
Context `{System}.

Lemma mkdir_done (w : world) (p : Path) (evs : list event) :
  IO.mkdir w p = (evs, inr tt) <->
  Forall (fun q => fs_files (w_fs w) !! q = None) (way_to (w_cwd w) p)
  /\ refuses (EvMkdir p) = None /\ evs = [EvMkdir p].
Proof.
  unfold IO.mkdir, attempt.
  destruct (list_find _ _) as [[i q]|] eqn:Hfind.
  - split; [done|]. intros (Hway & _).
    apply list_find_Some in Hfind as (Hq & [c Hc] & _).
    rewrite Forall_lookup in Hway. specialize (Hway _ _ Hq). congruence.
  - apply list_find_None in Hfind.
    assert (Forall (fun q => fs_files (w_fs w) !! q = None) (way_to (w_cwd w) p))
      as Hway.
    { eapply Forall_impl; [exact Hfind|]. intros q Hq.
      by apply eq_None_not_Some. }
    destruct (refuses (EvMkdir p)) as [e|].
    + split; [done|]. by intros (_ & ? & _).
    + split; [by intros [= <-]|by intros (_ & _ & ->)].
Qed.


Lemma write_text_done (w : world) (f : Path) (text : str) (evs : list event) :
  IO.write_text w f text = (evs, inr tt) <->
  (resolve (w_cwd w) f ∉ fs_dirs (w_fs w))
  /\ refuses (EvWriteText f text) = None
  /\ utf8_encodable text = true /\ evs = [EvWriteText f text].
Proof.
  unfold IO.write_text.
  destruct (decide (resolve (w_cwd w) f ∈ fs_dirs (w_fs w))) as [Hdir|Hdir].
  { split; [done|]. by intros (? & _). }
  destruct (refuses (EvWriteText f text)) as [e|].
  { split; [done|]. by intros (_ & ? & _). }
  destruct (utf8_encodable text).
  - split; [by intros [= <-]|by intros (_ & _ & _ & ->)].
  - split; [done|]. by intros (_ & _ & ? & _).
Qed.


Lemma deliver_done (w : world) (args : namespace) (text : str) (evs : list event) :
  deliver w args text = (evs, inr tt) <->
  deliverable w args (text ++ newline) /\ evs = delivery args text.
Proof.
  unfold deliver, deliverable, delivery.
  destruct (report_file args) as [f|].
  - destruct (IO.mkdir w (parent f)) as [evs1 [e1|[]]] eqn:Hmk.
    + split; [done|]. intros ((Hway & Hmkdir & _) & _).
      assert (IO.mkdir w (parent f) = ([EvMkdir (parent f)], inr tt)) as Hok
        by (by apply mkdir_done).
      congruence.
    + apply mkdir_done in Hmk as (Hway & Hmkdir & ->).
      rewrite bind_value.
      destruct (IO.write_text w f (text ++ newline)) as [evs2 [e2|[]]] eqn:Hwr.
      * split; [done|]. intros ((_ & _ & Hdir & Hopen & Henc) & _).
        assert (IO.write_text w f (text ++ newline)
                = ([EvWriteText f (text ++ newline)], inr tt)) as Hok
          by (by apply write_text_done).
        congruence.
      * apply write_text_done in Hwr as (Hdir & Hopen & Henc & ->).
        cbn [fst snd app]. split; [by intros [= <-]|by intros [_ ->]].
  - unfold attempt. destruct (refuses (EvStdout (text ++ newline))) as [e|].
    + split; [done|]. by intros [? _].
    + split; [by intros [= <-]|by intros [_ ->]].
Qed.


End delivery.

Section entry_point_faithful.
Context `{System} `{Hasher} `{FloatRepr}.

Lemma main_validated (w : world) (a : arguments) :
  let args := parse_args (w_cwd w) a in
  let dirs := resolved_dirs (w_cwd w) args in
  path_exists (w_fs w) (fst dirs) = true ->
  path_exists (w_fs w) (snd dirs) = true ->
  IO.main w a
  = IO.compare_assets (w_fs w) (fst dirs) (snd dirs)
      ≫= (fun rep => deliver w args (render w args rep)).
Proof.
  intros args dirs Hroot Htpl. unfold IO.main. fold args. fold dirs.
  destruct dirs as [root_assets template_assets]. simpl in *.
  by rewrite Hroot, Htpl.
Qed.

Lemma main_rejected (w : world) (a : arguments) :
  let dirs := resolved_dirs (w_cwd w) (parse_args (w_cwd w) a) in
  path_exists (w_fs w) (fst dirs) = false \/ path_exists (w_fs w) (snd dirs) = false ->
  exists msg, IO.main w a = ([], inl (SystemExit msg)).
Proof.
  intros dirs Hmissing. unfold IO.main. fold dirs.
  destruct dirs as [root_assets template_assets]. simpl in *.
  destruct (path_exists (w_fs w) root_assets); simpl; [|eauto].
  destruct Hmissing as [?|Htpl]; [done|]. rewrite Htpl. simpl. eauto.
Qed.




End entry_point_faithful.

(** ** Runs that complete *)

Section completed.
Context `{System}.



End completed.

Lemma ascii_utf8_encodable (text : str) :
  Forall (fun c => c = 10%N \/ (32 <= c <= 126)%N) text ->
  utf8_encodable text = true.
Proof.
  induction 1 as [|c text Hc _ IH]; [done|]. unfold utf8_encodable in *.
  cbn [forallb]. rewrite IH, andb_true_r. unfold is_surrogate.
  destruct (N.leb_spec 55296 c); [|done]. lia.
Qed.

Section completed_runs.
Context `{System} `{Hasher} `{FloatRepr}.


(** X12.  The JSON report followed by a line break can always be encoded
    as UTF-8.  With [--format json], in a run of [IO.main] that completes,
    the text printed or written, trailing line break included, is the
    JSON report of the comparison: when the report's path strings are
    well-formed text it parses to a document whose total, counts and files
    are the report's. *)
Theorem json_output_reads_back (w : world) (a : arguments) :
  let args := parse_args (w_cwd w) a in
  let dirs := resolved_dirs (w_cwd w) args in
  (forall r, utf8_encodable (build_json_report r ++ newline) = true)
  /\ (given_format a = Some format_json ->
      forall evs,
        IO.main w a = (evs, inr tt) ->
        exists reads rep,
          IO.compare_assets (w_fs w) (fst dirs) (snd dirs) = (reads, inr rep)
          /\ evs = reads ++ delivery args (build_json_report rep)
          /\ (forallb (fun e => text_ok (e_path e)) (r_results rep) = true ->
              exists doc,
                json_loads (build_json_report rep ++ newline) = Some doc
                /\ json_total doc = Some (r_total rep)
                /\ json_counts doc = Some (r_counts rep)
                /\ json_files doc = Some (r_results rep))).
Proof.
  intros args dirs. split.
  { intros r. apply ascii_utf8_encodable, Forall_app. split; [|by repeat constructor].
    pose proof (encode_plain 2 0 (payload r)) as Hplain.
    unfold build_json_report, json_dumps.
    induction (encode 2 0 (payload r)) as [|c s IH]; [constructor|].
    cbn [forallb] in Hplain. apply andb_true_iff in Hplain as [Hc Hs].
    constructor; [|by apply IH]. unfold is_plain in Hc.
    apply orb_true_iff in Hc as [Hc|Hc].
    - left. by apply N.eqb_eq.
    - right. apply andb_true_iff in Hc as [?%N.leb_le ?%N.leb_le]. done. }
  intros Hformat evs Hmain.
  assert (render w args = build_json_report) as Hrender.
  { unfold render.
    change (format args) with (default format_text (given_format a)).
    by rewrite Hformat. }
  destruct (path_exists (w_fs w) (fst dirs)) eqn:Hroot;
    [destruct (path_exists (w_fs w) (snd dirs)) eqn:Htpl|].
  - rewrite (main_validated w a Hroot Htpl) in Hmain. fold args dirs in Hmain.
    destruct (IO.compare_assets (w_fs w) (fst dirs) (snd dirs))
      as [reads [e|rep]] eqn:Hrun; [done|].
    rewrite bind_value, Hrender in Hmain.
    destruct (deliver w args (build_json_report rep)) as [evs' [e|[]]] eqn:Hdel;
      [done|].
    apply deliver_done in Hdel as [_ ->]. cbn [fst snd] in Hmain.
    injection Hmain as <-. exists reads, rep. split; [done|]. split; [done|].
    intros Hpaths. exists (to_json (payload rep)). split_and!.
    + by apply json_loads_dumps_newline, texts_ok_payload.
    + apply json_total_payload.
    + apply json_counts_payload.
    + apply json_files_payload.
  - destruct (main_rejected w a) as [msg Hrej]; [by right|]. congruence.
  - destruct (main_rejected w a) as [msg Hrej]; [by left|]. congruence.
Qed.

End completed_runs.

(** ** The faithful runs at work on the sample data *)

Lemma only_shared_files_read_witness :
  @IO.compare_assets (locked_files [tpl_assets ++ [lit "a.txt"]]) content_digest
    sample_fs pack_assets tpl_assets
  = ([EvRead (pack_assets ++ [lit "a.txt"])],
     inl (OSError (tpl_assets ++ [lit "a.txt"]))).
Proof.
  destruct (@only_shared_files_read (locked_files [tpl_assets ++ [lit "a.txt"]])
              content_digest sample_fs pack_assets tpl_assets)
    as (_ & _ & _ & Hstops).
  apply (Hstops [EvRead (pack_assets ++ [lit "a.txt"])]
                (EvRead (tpl_assets ++ [lit "a.txt"]))
                [EvRead (pack_assets ++ [lit "d.txt"]);
                 EvRead (tpl_assets ++ [lit "d.txt"])]).
  - vm_compute. reflexivity.
  - repeat constructor.
  - vm_compute. reflexivity.
Defined.




Lemma json_output_reads_back_witness :
  exists evs text doc,
    @IO.main willing content_digest exact_float_repr sample_world json_to_file
    = (evs ++ [EvMkdir (relative [lit "out"]);
               EvWriteText (relative [lit "out"; lit "report.json"])
                           (text ++ newline)], inr tt)
    /\ json_loads (text ++ newline) = Some doc
    /\ json_total doc = Some 4
    /\ json_counts doc = Some (Build_counts 1 1 1 1).
Proof.
  pose (m := @IO.main willing content_digest exact_float_repr sample_world
               json_to_file).
  assert (m = (fst m, inr tt)) as Hmain by (vm_compute; reflexivity).
  destruct (@json_output_reads_back willing content_digest exact_float_repr
              sample_world json_to_file) as [_ Hjson].
  destruct (Hjson eq_refl (fst m) Hmain) as (reads & rep & Hrun & Hevents & Hreads).
  vm_compute in Hrun. injection Hrun as _ <-.
  destruct Hreads as (doc & Hloads & Htotal & Hcounts & _); [vm_compute; reflexivity|].
  eexists reads, _, doc. split; [|split; [exact Hloads|split; [exact Htotal|exact Hcounts]]].
  fold m. rewrite Hmain, Hevents. reflexivity.
Defined.

(** A file name with an undecodable byte: in text mode the report cannot
    be encoded, the report file is left empty and the run fails, although
    both directories exist and the system refuses nothing. *)
Example unencodable_name_fails :
  exists text,
    @IO.main willing content_digest exact_float_repr surrogate_world
      report_to_file
    = ([EvMkdir (relative []); EvTruncate (relative [lit "out.txt"])],
       inl (UnicodeEncodeError text)).
Proof. eexists. vm_compute. reflexivity. Qed.

(** A report path that is a directory: the comparison runs, then opening
    the report file fails. *)
Example report_path_is_directory :
  @IO.main willing content_digest exact_float_repr sample_world
    report_to_directory
  = ([EvRead (pack_assets ++ [lit "a.txt"]); EvRead (tpl_assets ++ [lit "a.txt"]);
      EvRead (pack_assets ++ [lit "d.txt"]); EvRead (tpl_assets ++ [lit "d.txt"]);
      EvMkdir (absolute [lit "pack"])],
     inl (OSError pack_assets)).
Proof. vm_compute. reflexivity. Qed.
